(** * Intent-embedding generator: tokenizer, parsers, merge, AOT codec, SQL emitter

    A shallow embedding of
    [Tools/AVA/embedding-generator/generate_embeddings.py] and the properties
    of its specification.

    Conventions of the embedding:
    - a Python [str] is the list of its Unicode code points ([list N]);
    - a Python [bytes] value is a list of numbers below 256 ([list N]);
    - a Python [int] is a [Z]; list indices and lengths are [nat];
    - a Python [dict] whose iteration order matters is an association list
      in insertion order; the vocabulary, which is only looked up, is a
      [gmap];
    - a [float32] is its IEEE-754 bit pattern, a number below [2^32];
    - an exception is a value of [exn] in a small error monad. *)

From Stdlib Require Import NArith ZArith List Lia Bool DecimalString.
From stdpp Require Import base numbers option list gmap strings.

Local Open Scope Z_scope.

(** ** Python strings over code points *)

Module PyStr.

Definition str := list N.

(** An ASCII literal as a [str]. *)
Fixpoint lit (s : string) : str :=
  match s with
  | EmptyString => []
  | String a s' => Ascii.N_of_ascii a :: lit s'
  end.

(** [c.isspace()] as used by [str.strip()] and [str.split()] without
    arguments. *)
Definition isspace (c : N) : bool :=
  ((9 <=? c) && (c <=? 13) || (28 <=? c) && (c <=? 32)
   || (c =? 133) || (c =? 160) || (c =? 5760)
   || (8192 <=? c) && (c <=? 8202)
   || (c =? 8232) || (c =? 8233) || (c =? 8239) || (c =? 8287)
   || (c =? 12288))%N.

Fixpoint lstrip (s : str) : str :=
  match s with
  | c :: s' => if isspace c then lstrip s' else s
  | [] => []
  end.

Definition rstrip (s : str) : str := rev (lstrip (rev s)).

(** [s.strip()] *)
Definition strip (s : str) : str := rstrip (lstrip s).

(** [s.split()]: maximal runs of non-whitespace; [cur] is the run being
    read. *)
Fixpoint split_ws (s cur : str) : list str :=
  match s with
  | [] => match cur with [] => [] | _ => [cur] end
  | c :: s' =>
      if isspace c
      then match cur with [] => split_ws s' [] | _ => cur :: split_ws s' [] end
      else split_ws s' (cur ++ [c])
  end.

Definition split (s : str) : list str := split_ws s [].

(** [s.split(sep)] for a one-character separator. *)
Fixpoint split_on (sep : N) (s cur : str) : list str :=
  match s with
  | [] => [cur]
  | c :: s' =>
      if (c =? sep)%N then cur :: split_on sep s' [] else split_on sep s' (cur ++ [c])
  end.

(** [sep.join(parts)] *)
Fixpoint join (sep : str) (parts : list str) : str :=
  match parts with
  | [] => []
  | [p] => p
  | p :: rest => p ++ sep ++ join sep rest
  end.

(** [s[i:j]] for [0 <= i], [0 <= j] *)
Definition slice {A} (s : list A) (i j : nat) : list A := drop i (take j s).

(** [s[:n]] for any integer [n]: a negative [n] counts from the end. *)
Definition slice_to {A} (s : list A) (n : Z) : list A :=
  if n <? 0 then take (length s - Z.to_nat (- n)) s else take (Z.to_nat n) s.

(** [[x] * n]: empty when [n <= 0]. *)
Definition repeat_list {A} (x : A) (n : Z) : list A := replicate (Z.to_nat n) x.

(** [s.startswith(c)] for a one-character prefix. *)
Definition startswith (c : N) (s : str) : bool :=
  match s with
  | c' :: _ => (c' =? c)%N
  | [] => false
  end.

(** [c in s] for a one-character [c]. *)
Definition contains (c : N) (s : str) : bool := existsb (N.eqb c) s.

(** [str.lower()] and [str.isupper()] restricted to the ASCII letters: the
    instance at which the case operations below are run on examples. *)
Definition ascii_lower (s : str) : str :=
  map (fun c => if (65 <=? c) && (c <=? 90) then c + 32 else c)%N s.

Definition ascii_isupper (s : str) : bool :=
  existsb (fun c => (65 <=? c) && (c <=? 90))%N s
  && negb (existsb (fun c => (97 <=? c) && (c <=? 122))%N s).

End PyStr.

Import PyStr.

(** ** 4.1 Vocabulary and tokenizer: [class BertTokenizer] *)

Module Tokenizer.

Record BertTokenizer := {
  vocab : gmap (list N) Z;
  cls_token_id : Z;
  sep_token_id : Z;
  pad_token_id : Z;
  unk_token_id : Z;
  max_length : Z
}.

Record TokenizedSequence := {
  input_ids : list Z;
  attention_mask : list Z;
  token_type_ids : list Z
}.

(** [for idx, line in enumerate(f): self.vocab[line.strip()] = idx] *)
Fixpoint load_vocab (lines : list str) (idx : Z) (v : gmap (list N) Z) : gmap (list N) Z :=
  match lines with
  | [] => v
  | line :: rest => load_vocab rest (idx + 1) (<[strip line := idx]> v)
  end.

(** [BertTokenizer.__init__], on the lines of the vocabulary file.  The
    inverse map [inv_vocab], which nothing reads, is left out. *)
Definition BertTokenizer_init (lines : list str) : BertTokenizer :=
  let v := load_vocab lines 0 ∅ in
  {| vocab := v;
     cls_token_id := default 101 (v !! lit "[CLS]");
     sep_token_id := default 102 (v !! lit "[SEP]");
     pad_token_id := default 0 (v !! lit "[PAD]");
     unk_token_id := default 100 (v !! lit "[UNK]");
     max_length := 128 |}.

Section WordPiece.

Variable t : BertTokenizer.

(** The text looked up for [word[start:end]]. *)
Definition piece (word : str) (start end_ : nat) : str :=
  let substr := slice word start end_ in
  if (0 <? start)%nat then lit "##" ++ substr else substr.

(** The inner [while start < end] loop of [_wordpiece]: returns
    [(cur_token, end)] at loop exit.  Each iteration that does not break
    decrements [end], so [end - start] iterations suffice. *)
Fixpoint match_loop (fuel : nat) (word : str) (start end_ : nat) : option Z * nat :=
  match fuel with
  | O => (None, end_)
  | S fuel' =>
      if (start <? end_)%nat then
        match vocab t !! piece word start end_ with
        | Some id => (Some id, end_)
        | None => match_loop fuel' word start (end_ - 1)
        end
      else (None, end_)
  end.

(** The outer [while start < len(word)] loop; [None] when the fuel runs out
    before the loop exits. *)
Fixpoint wordpiece_loop (fuel : nat) (word : str) (start : nat) (tokens : list Z)
  : option (list Z) :=
  if (start <? length word)%nat then
    match fuel with
    | O => None
    | S fuel' =>
        let end_ := length word in
        match match_loop (end_ - start) word start end_ with
        | (None, _) => wordpiece_loop fuel' word (start + 1) (tokens ++ [unk_token_id t])
        | (Some cur_token, end_) => wordpiece_loop fuel' word end_ (tokens ++ [cur_token])
        end
    end
  else Some tokens.

(** [BertTokenizer._wordpiece]; the loop advances [start] at every
    iteration, so [len(word)] iterations suffice ([wordpiece_loop_total]). *)
Definition _wordpiece (word : str) : list Z :=
  default [] (wordpiece_loop (length word) word 0 []).

(** Greedy longest-match as the specification words it: [greedy word start ids]
    when [ids] is what is emitted from position [start] on.  At each position
    the longest piece in the vocabulary gives the id and the next position;
    when no piece from the full remainder down to one character matches, the
    UNK id is emitted for one character. *)
Inductive greedy (word : str) : nat -> list Z -> Prop :=
  | greedy_end start :
      (length word <= start)%nat ->
      greedy word start []
  | greedy_match start end_ id ids :
      (start < end_ <= length word)%nat ->
      vocab t !! piece word start end_ = Some id ->
      (forall e, (end_ < e <= length word)%nat -> vocab t !! piece word start e = None) ->
      greedy word end_ ids ->
      greedy word start (id :: ids)
  | greedy_unk start ids :
      (start < length word)%nat ->
      (forall e, (start < e <= length word)%nat -> vocab t !! piece word start e = None) ->
      greedy word (S start) ids ->
      greedy word start (unk_token_id t :: ids).

(** The body of [for word in words] in [tokenize]. *)
Definition word_tokens (tokens : list Z) (word : str) : list Z :=
  match vocab t !! word with
  | Some id => tokens ++ [id]
  | None => tokens ++ _wordpiece word
  end.

Variable lower : str -> str.

(** [BertTokenizer.tokenize] *)
Definition tokenize (text : str) : TokenizedSequence :=
  let text := strip (lower text) in
  let words := split text in
  let tokens := fold_left word_tokens words [] in
  let max_tokens := max_length t - 2 in
  let tokens := slice_to tokens max_tokens in
  let input_ids := [cls_token_id t] ++ tokens ++ [sep_token_id t] in
  let attention_mask := repeat_list 1 (Z.of_nat (length input_ids)) in
  let token_type_ids := repeat_list 0 (Z.of_nat (length input_ids)) in
  let padding_length := max_length t - Z.of_nat (length input_ids) in
  {| input_ids := input_ids ++ repeat_list (pad_token_id t) padding_length;
     attention_mask := attention_mask ++ repeat_list 0 padding_length;
     token_type_ids := token_type_ids ++ repeat_list 0 padding_length |}.

End WordPiece.

End Tokenizer.

(** ** Exceptions *)

Inductive exn :=
  | JSONDecodeError | TypeError | AttributeError | KeyError | IndexError
  | UnicodeEncodeError | StructError | InferenceError | FormatError | OSError.

Inductive res (A : Type) :=
  | Ok (a : A)
  | Raise (e : exn).

Arguments Ok {A} a.
Arguments Raise {A} e.

#[global] Instance res_ret : MRet res := fun A a => Ok a.

#[global] Instance res_bind : MBind res := fun A B k m =>
  match m with
  | Ok a => k a
  | Raise e => Raise e
  end.

(** [for x in xs: acc = body(acc, x)], leaving at the first exception. *)
Fixpoint res_fold {A B} (body : B -> A -> res B) (xs : list A) (acc : B) : res B :=
  match xs with
  | [] => Ok acc
  | x :: xs' => acc' ← body acc x; res_fold body xs' acc'
  end.

(** ** Python dictionaries in insertion order *)

Module PyDict.

Section Dict.

Context {K V : Type} (eqb : K -> K -> bool).

(** [d.get(k)] / [d[k]] *)
Fixpoint get (k : K) (d : list (K * V)) : option V :=
  match d with
  | [] => None
  | (k', v) :: d' => if eqb k' k then Some v else get k d'
  end.

(** [d[k] = v]: an existing key keeps its position, a new key goes last. *)
Fixpoint set (k : K) (v : V) (d : list (K * V)) : list (K * V) :=
  match d with
  | [] => [(k, v)]
  | (k', v') :: d' => if eqb k' k then (k', v) :: d' else (k', v') :: set k v d'
  end.

(** [k in d] *)
Definition mem (k : K) (d : list (K * V)) : bool :=
  match get k d with Some _ => true | None => false end.

End Dict.

Definition str_eqb (a b : str) : bool := bool_decide (a = b).

End PyDict.

(** ** 4.2 Merging the per-file tables: the body of [load_ava_files] *)

Module Loader.

Definition intent_table := list (str * list str).

Definition lookup (intent_id : str) (d : intent_table) : option (list str) :=
  PyDict.get PyDict.str_eqb intent_id d.

(** [all_intents[intent_id].append(ex)], only reached for an id of the
    table. *)
Definition append_example (intent_id ex : str) (all_intents : intent_table) : intent_table :=
  match lookup intent_id all_intents with
  | Some l => PyDict.set PyDict.str_eqb intent_id (l ++ [ex]) all_intents
  | None => all_intents
  end.

(** The body of [for intent_id, examples in intents.items()].  [existing] is
    the set built once, before the inner loop, from the list stored under
    [intent_id]; the inner loop does not add to it. *)
Definition merge_intent (all_intents : intent_table) (item : str * list str) : intent_table :=
  let '(intent_id, examples) := item in
  match lookup intent_id all_intents with
  | Some stored =>
      let existing : gset (list N) := list_to_set stored in
      fold_left
        (fun acc ex => if bool_decide (ex ∈ existing) then acc else append_example intent_id ex acc)
        examples all_intents
  | None => PyDict.set PyDict.str_eqb intent_id examples all_intents
  end.

(** [if intents: for ... in intents.items(): ...] *)
Definition merge (all_intents intents : intent_table) : intent_table :=
  fold_left merge_intent intents all_intents.

End Loader.

(** ** 4.2 Source-format parsers *)

Module Parser.

#[local] Set Warnings "-register-all".

(** The Python values [json.loads] returns.  A float is kept as its binary64
    bit pattern. *)
Inductive json :=
  | JNull
  | JBool (b : bool)
  | JInt (n : Z)
  | JFloat (bits : N)
  | JStr (s : str)
  | JList (l : list json)
  | JDict (d : list (str * json)).

(** The table a JSON parser builds: keys and examples are whatever values
    the document holds. *)
Definition table := list (json * list json).

(** [bool(v)] *)
Definition truthy (v : json) : bool :=
  match v with
  | JNull => false
  | JBool b => b
  | JInt n => negb (n =? 0)
  | JFloat bits => negb ((bits =? 0) || (bits =? 2 ^ 63))%N
  | JStr s => match s with [] => false | _ => true end
  | JList l => match l with [] => false | _ => true end
  | JDict d => match d with [] => false | _ => true end
  end.

(** [v.get(k, dflt)]: only a dict has [get]. *)
Definition py_get (v : json) (k : str) (dflt : json) : res json :=
  match v with
  | JDict d => Ok (default dflt (PyDict.get PyDict.str_eqb k d))
  | _ => Raise AttributeError
  end.

(** [s in text] for strings: [s] occurs as a contiguous run. *)
Fixpoint is_prefix (s text : str) : bool :=
  match s, text with
  | [], _ => true
  | c :: s', c' :: text' => (c =? c')%N && is_prefix s' text'
  | _ :: _, [] => false
  end.

Fixpoint is_substring (s text : str) : bool :=
  is_prefix s text ||
  match text with
  | [] => false
  | _ :: text' => is_substring s text'
  end.

(** [k in v] for a string [k] *)
Definition py_contains (k : str) (v : json) : res bool :=
  match v with
  | JDict d => Ok (PyDict.mem PyDict.str_eqb k d)
  | JList l => Ok (existsb (fun x => match x with JStr s => PyDict.str_eqb s k | _ => false end) l)
  | JStr s => Ok (is_substring k s)
  | _ => Raise TypeError
  end.

(** [v[k]] for a string [k] *)
Definition py_getitem (v : json) (k : str) : res json :=
  match v with
  | JDict d => match PyDict.get PyDict.str_eqb k d with Some x => Ok x | None => Raise KeyError end
  | _ => Raise TypeError
  end.

(** [iter(v)]: the elements a [for] loop, [list.extend] or [set] visits. *)
Definition py_iter (v : json) : res (list json) :=
  match v with
  | JList l => Ok l
  | JStr s => Ok (map (fun c => JStr [c]) s)
  | JDict d => Ok (map (fun kv => JStr (fst kv)) d)
  | _ => Raise TypeError
  end.

(** The value [m * 2^e] of a finite binary64 bit pattern; [None] for an
    infinity or a NaN. *)
Definition float_value (bits : N) : option (Z * Z) :=
  let sign := if (bits / 2 ^ 63 =? 0)%N then 1 else -1 in
  let e := Z.of_N ((bits / 2 ^ 52) mod 2048) in
  let m := Z.of_N (bits mod 2 ^ 52) in
  if e =? 2047 then None
  else if e =? 0 then Some (sign * m, -1074)
  else Some (sign * (2 ^ 52 + m), e - 1075).

(** [float == int] *)
Definition float_eq_int (bits : N) (n : Z) : bool :=
  match float_value bits with
  | None => false
  | Some (m, e) =>
      if 0 <=? e then m * 2 ^ e =? n
      else (m mod 2 ^ (- e) =? 0) && (m / 2 ^ (- e) =? n)
  end.

(** [float == float] for two distinct objects: the same finite value (the
    two zeros are equal) or the same infinity; a NaN equals nothing. *)
Definition float_eq (a b : N) : bool :=
  match float_value a, float_value b with
  | Some (m, _), Some (m', _) => (a =? b)%N || (m =? 0) && (m' =? 0)
  | None, None => (a =? b)%N && (a mod 2 ^ 52 =? 0)%N
  | _, _ => false
  end.

Definition int_of_bool (b : bool) : Z := if b then 1 else 0.

(** A binary64 bit pattern that is a NaN. *)
Definition float_is_nan (bits : N) : bool :=
  (((bits / 2 ^ 52) mod 2048 =? 2047) && negb (bits mod 2 ^ 52 =? 0))%N.

(** Equality of hashable values as dict keys and set members: strings by
    content, numbers by value across [bool], [int] and [float].  A lookup
    tests identity before equality, and [json.loads] gives every NaN it
    reads the one object of its decoder: a NaN key finds itself, although
    it equals nothing. *)
Definition key_eqb (a b : json) : bool :=
  match a, b with
  | JStr s, JStr s' => PyDict.str_eqb s s'
  | JNull, JNull => true
  | JBool x, JBool y => Bool.eqb x y
  | JBool x, JInt n | JInt n, JBool x => n =? int_of_bool x
  | JInt n, JInt m => n =? m
  | JFloat x, JFloat y => float_eq x y || float_is_nan x && float_is_nan y
  | JFloat x, JInt n | JInt n, JFloat x => float_eq_int x n
  | JFloat x, JBool y | JBool y, JFloat x => float_eq_int x (int_of_bool y)
  | _, _ => false
  end.

(** [intents[k] = v]: lists and dicts are unhashable. *)
Definition table_set (k : json) (v : list json) (intents : table) : res table :=
  match k with
  | JList _ | JDict _ => Raise TypeError
  | _ => Ok (PyDict.set key_eqb k v intents)
  end.

(** The loop body of [parse_ava_json_format]. *)
Definition ava_json_intent (intents : table) (intent : json) : res table :=
  intent_id ← py_get intent (lit "id") (JStr []);
  samples ← py_get intent (lit "s") (JList []);
  canonical ← py_get intent (lit "c") (JStr []);
  if truthy intent_id then
    let examples := if truthy canonical then [canonical] else [] in
    more ← py_iter samples;
    let examples := examples ++ more in
    match examples with
    | [] => Ok intents
    | _ => table_set intent_id examples intents
    end
  else Ok intents.

(** [parse_ava_json_format].  [loaded] is the outcome of
    [json.loads(content)]: [None] when it raises [json.JSONDecodeError], the
    only exception the function catches. *)
Definition parse_ava_json_format (loaded : option json) : res table :=
  match loaded with
  | None => Ok []
  | Some data =>
      has_i ← py_contains (lit "i") data;
      if (has_i : bool) then
        items ← py_getitem data (lit "i");
        match items with
        | JList l => res_fold ava_json_intent l []
        | _ => Ok []
        end
      else Ok []
  end.

Section Vos.

Variable lower : str -> str.

(** [action.lower()]: only a string has [lower]. *)
Definition py_lower (v : json) : res json :=
  match v with
  | JStr s => Ok (JStr (lower s))
  | _ => Raise AttributeError
  end.

(** [[canonical] + synonyms]: only a list can be concatenated to a list. *)
Definition py_list_add (l : list json) (v : json) : res (list json) :=
  match v with
  | JList l' => Ok (l ++ l')
  | _ => Raise TypeError
  end.

(** The loop body of [parse_vos_json_format]. *)
Definition vos_json_command (intents : table) (cmd : json) : res table :=
  action ← py_get cmd (lit "action") (JStr []);
  canonical ← py_get cmd (lit "cmd") (JStr []);
  synonyms ← py_get cmd (lit "syn") (JList []);
  if truthy action && truthy canonical then
    intent_id ← py_lower action;
    examples ← py_list_add [canonical] synonyms;
    table_set intent_id examples intents
  else Ok intents.

(** [parse_vos_json_format], on the outcome of [json.loads(content)]. *)
Definition parse_vos_json_format (loaded : option json) : res table :=
  match loaded with
  | None => Ok []
  | Some data =>
      commands ← py_get data (lit "commands") (JList []);
      cmds ← py_iter commands;
      res_fold vos_json_command cmds []
  end.

End Vos.

Section Legacy.

Variable isupper : str -> bool.

(** [intents[intent_id].append(example)], creating the list first when the
    id is new. *)
Definition add_example (intent_id example : str) (intents : Loader.intent_table)
  : Loader.intent_table :=
  let intents :=
    if PyDict.mem PyDict.str_eqb intent_id intents then intents
    else PyDict.set PyDict.str_eqb intent_id [] intents in
  Loader.append_example intent_id example intents.

(** The loop body of [parse_ava_yaml_format]; the state is
    [(intents, delimiter_count)]. *)
Definition yaml_line (st : Loader.intent_table * Z) (line : str) : Loader.intent_table * Z :=
  let '(intents, delimiter_count) := st in
  let line := strip line in
  if match line with [] => true | _ => false end || startswith 35 line then st
  else if PyDict.str_eqb line (lit "---") then (intents, delimiter_count + 1)
  else if (delimiter_count =? 2) && contains 58 line then
    let parts := split_on 58 line [] in
    if (3 <=? length parts)%nat then
      let intent_type := strip (nth 0 parts []) in
      let intent_id := strip (nth 1 parts []) in
      let example := strip (join [58%N] (drop 2 parts)) in
      if contains 32 intent_type then st
      else if negb (isupper intent_type) then st
      else if match intent_id with [] => false | _ => true end
              && match example with [] => false | _ => true end
      then (add_example intent_id example intents, delimiter_count)
      else st
    else st
  else st.

(** [parse_ava_yaml_format] *)
Definition parse_ava_yaml_format (content : str) : Loader.intent_table :=
  fst (fold_left yaml_line (split_on 10 content []) ([], 0)).

End Legacy.

(** The lines of [content] that are a section delimiter. *)
Definition delimiters (lines : list str) : list str :=
  filter (fun line => strip line = lit "---") lines.

(** The two JSON schemas as the docstrings give them.  A field that is
    present has the type of the schema; any other field is free. *)
Definition is_str (v : json) : bool := match v with JStr _ => true | _ => false end.
Definition is_list (v : json) : bool := match v with JList _ => true | _ => false end.

Definition field_ok (p : json -> bool) (k : str) (d : list (str * json)) : bool :=
  match PyDict.get PyDict.str_eqb k d with
  | Some v => p v
  | None => true
  end.

(** Schema A: [{"i": [{"id": "...", "s": ["...", ...]}, ...]}] *)
Definition ava_intent_schema (intent : json) : bool :=
  match intent with
  | JDict d => field_ok is_str (lit "id") d && field_ok is_list (lit "s") d
  | _ => false
  end.

Definition ava_schema (data : json) : bool :=
  match data with
  | JDict d =>
      match PyDict.get PyDict.str_eqb (lit "i") d with
      | Some (JList l) => forallb ava_intent_schema l
      | _ => true
      end
  | _ => false
  end.

(** Schema B: [{"commands": [{"action": "...", "cmd": ..., "syn": [...]}, ...]}] *)
Definition vos_command_schema (cmd : json) : bool :=
  match cmd with
  | JDict d => field_ok is_str (lit "action") d && field_ok is_list (lit "syn") d
  | _ => false
  end.

Definition vos_schema (data : json) : bool :=
  match data with
  | JDict d =>
      match PyDict.get PyDict.str_eqb (lit "commands") d with
      | Some (JList l) => forallb vos_command_schema l
      | Some _ => false
      | None => true
      end
  | _ => false
  end.

Section ParseFile.

Variables (lower : str -> str) (isupper : str -> bool).

(** What one file parses to. *)
Inductive parsed :=
  | JsonTable (intents : table)
  | TextTable (intents : Loader.intent_table).

(** The format dispatch inside the [try] of [load_ava_files]. *)
Definition parse_file (content : str) (loaded : option json) : res parsed :=
  if startswith 123 (strip content) then
    intents ← parse_ava_json_format loaded;
    match intents with
    | [] => intents' ← parse_vos_json_format lower loaded; Ok (JsonTable intents')
    | _ => Ok (JsonTable intents)
    end
  else Ok (TextTable (parse_ava_yaml_format isupper content)).

(** [try: ... except Exception as e: print(warning)]: a file whose parse
    raises is reported and contributes nothing. *)
Definition try_parse_file (content : str) (loaded : option json) : option parsed * list exn :=
  match parse_file content loaded with
  | Ok p => (Some p, [])
  | Raise e => (None, [e])
  end.

End ParseFile.

End Parser.

(** ** 4.3 Embedding aggregator: [class EmbeddingGenerator] *)

Module Aggregator.

Section Numpy.

(** The inference engine and the float arithmetic of numpy are
    collaborators: the generator is written over their interface. *)
Variables (vec scalar : Type).
Variable np_zeros : nat -> vec.
Variable np_add : vec -> vec -> vec.
Variable np_div_count : vec -> Z -> vec.
Variable np_div : vec -> scalar -> vec.
Variable np_norm : vec -> scalar.
Variable np_gt0 : scalar -> bool.
Variable np_mean : list vec -> vec.
Variable np_astype_float32 : vec -> vec.

(** [outputs[0]] of [session.run]: the rows [hidden_states[0, i, :]] and
    [hidden_states.shape[2]]. *)
Record hidden_states := {
  rows : list vec;
  hidden_size : nat
}.

Variable session_run : Tokenizer.TokenizedSequence -> res hidden_states.
Variable tokenizer : Tokenizer.BertTokenizer.
Variable lower : str -> str.
Variable str_of_exn : exn -> str.

(** The pooling loop [for i in range(seq_len)]; the state is
    [(embedding, token_count)]. *)
Fixpoint pool (mask : list Z) (i : nat) (rs : list vec) (st : vec * Z) : res (vec * Z) :=
  match rs with
  | [] => Ok st
  | row :: rs' =>
      match mask !! i with
      | None => Raise IndexError
      | Some m =>
          let '(embedding, token_count) := st in
          pool mask (S i) rs'
            (if m =? 1 then (np_add embedding row, token_count + 1) else st)
      end
  end.

(** [EmbeddingGenerator.compute_embedding] *)
Definition compute_embedding (text : str) : res vec :=
  let tokens := Tokenizer.tokenize tokenizer lower text in
  hs ← session_run tokens;
  let mask := Tokenizer.attention_mask tokens in
  st ← pool mask 0 (rows hs) (np_zeros (hidden_size hs), 0);
  let '(embedding, token_count) := st in
  let embedding := if 0 <? token_count then np_div_count embedding token_count else embedding in
  let norm := np_norm embedding in
  Ok (if np_gt0 norm then np_div embedding norm else embedding).

(** The warning printed for an example that could not be embedded. *)
Definition warning (example : str) (e : exn) : str :=
  lit "    Warning: Failed to embed '" ++ example ++ lit "': " ++ str_of_exn e.

(** The [for example in examples] loop with its [try]/[except Exception];
    the state is [(embeddings, printed)]. *)
Definition embed_example (st : list vec * list str) (example : str) : list vec * list str :=
  let '(embeddings, printed) := st in
  match compute_embedding example with
  | Ok emb => (embeddings ++ [emb], printed)
  | Raise e => (embeddings, printed ++ [warning example e])
  end.

(** [EmbeddingGenerator.compute_intent_embedding]: the result ([None] for
    Python's [None]) and the lines printed. *)
Definition compute_intent_embedding (examples : list str) : option vec * list str :=
  let '(embeddings, printed) := fold_left embed_example examples ([], []) in
  match embeddings with
  | [] => (None, printed)
  | _ =>
      let avg_embedding := np_mean embeddings in
      let norm := np_norm avg_embedding in
      let avg_embedding := if np_gt0 norm then np_div avg_embedding norm else avg_embedding in
      (Some (np_astype_float32 avg_embedding), printed)
  end.

(** L2 normalization as section 4.3 words it: rescale to unit norm, a no-op
    when the norm is not positive. *)
Definition l2_normalize (v : vec) : vec :=
  if np_gt0 (np_norm v) then np_div v (np_norm v) else v.

(** The per-example vectors of the examples whose embedding succeeds, in
    order. *)
Definition surviving (examples : list str) : list vec :=
  omap (fun example =>
          match compute_embedding example with Ok emb => Some emb | Raise _ => None end)
       examples.

(** The warnings for the examples whose embedding fails, in order. *)
Definition warnings (examples : list str) : list str :=
  omap (fun example =>
          match compute_embedding example with
          | Ok _ => None
          | Raise e => Some (warning example e)
          end)
       examples.

End Numpy.

End Aggregator.

(** ** UTF-8 *)

Module Utf8.

(** [chr(c).encode('utf-8')]; [None] for a surrogate, which Python refuses
    to encode, and for numbers that are no code point. *)
Definition encode_cp (c : N) : option (list N) :=
  (if c <? 128 then Some [c]
   else if c <? 2048 then Some [192 + c / 64; 128 + c mod 64]
   else if c <? 65536 then
     if (55296 <=? c) && (c <=? 57343) then None
     else Some [224 + c / 4096; 128 + (c / 64) mod 64; 128 + c mod 64]
   else if c <? 1114112 then
     Some [240 + c / 262144; 128 + (c / 4096) mod 64; 128 + (c / 64) mod 64; 128 + c mod 64]
   else None)%N.

(** [s.encode('utf-8')] *)
Fixpoint encode (s : str) : res (list N) :=
  match s with
  | [] => Ok []
  | c :: s' =>
      match encode_cp c with
      | None => Raise UnicodeEncodeError
      | Some bs => rest ← encode s'; Ok (bs ++ rest)
      end
  end.

Definition is_cont (b : N) : bool := ((128 <=? b) && (b <? 192))%N.

(** Modelled from the spec: the strict UTF-8 decoding a reader of the
    container applies to the "L bytes UTF-8 intent id" of 4.4; the
    repository's sources hold no decoder.  Overlong forms, surrogates and
    truncated sequences are refused. *)
Fixpoint decode (bs : list N) : option str :=
  match bs with
  | [] => Some []
  | b0 :: r0 =>
      if (b0 <? 128)%N then cons b0 <$> decode r0
      else if (b0 <? 194)%N then None
      else match r0 with
      | [] => None
      | b1 :: r1 =>
          if negb (is_cont b1) then None
          else if (b0 <? 224)%N then cons ((b0 - 192) * 64 + (b1 - 128))%N <$> decode r1
          else match r1 with
          | [] => None
          | b2 :: r2 =>
              if negb (is_cont b2) then None
              else if (b0 <? 240)%N then
                let c := ((b0 - 224) * 4096 + (b1 - 128) * 64 + (b2 - 128))%N in
                if ((c <? 2048) || (55296 <=? c) && (c <=? 57343))%N then None
                else cons c <$> decode r2
              else match r2 with
              | [] => None
              | b3 :: r3 =>
                  if negb (is_cont b3) then None
                  else if (b0 <? 248)%N then
                    let c := ((b0 - 240) * 262144 + (b1 - 128) * 4096
                              + (b2 - 128) * 64 + (b3 - 128))%N in
                    if ((c <? 65536) || (1114112 <=? c))%N then None
                    else cons c <$> decode r3
                  else None
              end
          end
      end
  end.

End Utf8.

(** ** 4.4 Binary codec: [generate_aot] *)

Module Aot.

Definition bytes := list N.

(** A record of the embeddings table: [intent_id -> (embedding, example_count)];
    the embedding is a one-dimensional [float32] array. *)
Definition record := (str * (list N * Z))%type.

(** The four little-endian bytes of a number below [2^32]. *)
Definition le32 (n : N) : bytes :=
  [n mod 256; (n / 256) mod 256; (n / 65536) mod 256; (n / 16777216) mod 256]%N.

(** [struct.pack('<I', n)]: [struct.error] outside [0 .. 2^32 - 1]. *)
Definition pack_I (n : Z) : res bytes :=
  if (0 <=? n) && (n <? 2 ^ 32) then Ok (le32 (Z.to_N n)) else Raise StructError.

(** [embedding.tobytes()] of a [float32] array, on a little-endian host. *)
Definition tobytes (embedding : list N) : bytes := flat_map le32 embedding.

(** [b[:32].ljust(32, b'\x00')] *)
Definition ljust32 (b : bytes) : bytes :=
  let b := take 32 b in b ++ replicate (32 - length b) 0%N.

Definition MAGIC : bytes := [65; 79; 84; 0]%N.
Definition VERSION : Z := 1.

(** Writing to the file opened by [open(output_path, 'wb')]: the state is
    the content written so far, which an exception leaves in place. *)
Definition file_io (A : Type) : Type := bytes -> res A * bytes.

#[global] Instance file_io_ret : MRet file_io := fun A a f => (Ok a, f).

#[global] Instance file_io_bind : MBind file_io := fun A B k m f =>
  match m f with
  | (Ok a, f') => k a f'
  | (Raise e, f') => (Raise e, f')
  end.

(** [f.write(b)] *)
Definition write (b : bytes) : file_io unit := fun f => (Ok tt, f ++ b).

(** An expression that may raise, evaluated between writes. *)
Definition eval {A} (r : res A) : file_io A := fun f => (r, f).

(** The body of [for intent_id, (embedding, _) in embeddings.items()]. *)
Definition write_record (r : record) : file_io unit :=
  let '(intent_id, (embedding, _)) := r in
  intent_bytes ← eval (Utf8.encode intent_id);
  len ← eval (pack_I (Z.of_nat (length intent_bytes)));
  _ ← write len;
  _ ← write intent_bytes;
  write (tobytes embedding).

Fixpoint write_records (embeddings : list record) : file_io unit :=
  match embeddings with
  | [] => mret tt
  | r :: rest => _ ← write_record r; write_records rest
  end.

(** [generate_aot], as the content given to the output file; the two
    progress lines it prints and the creation of the parent directory do not
    touch that content. *)
Definition generate_aot (embeddings : list record) (model_version : str) : file_io unit :=
  let dimension :=
    match embeddings with
    | (_, (embedding, _)) :: _ => Z.of_nat (length embedding)
    | [] => 384
    end in
  _ ← write MAGIC;
  version ← eval (pack_I VERSION);
  _ ← write version;
  count ← eval (pack_I (Z.of_nat (length embeddings)));
  _ ← write count;
  dim ← eval (pack_I dimension);
  _ ← write dim;
  encoded ← eval (Utf8.encode model_version);
  let model_bytes := ljust32 encoded in
  _ ← write model_bytes;
  write_records embeddings.

End Aot.

(** ** 4.4 Binary codec: reading a container back *)

Module AotReader.

Import Aot.

(** What a container holds. *)
Record container := {
  count : N;
  dimension : N;
  model_version : bytes;
  records : list (str * list N)
}.

(** Four little-endian bytes read as a u32, and the bytes after them. *)
Definition unpack_I (b : bytes) : option (N * bytes) :=
  match b with
  | b0 :: b1 :: b2 :: b3 :: rest => Some (b0 + 256 * b1 + 65536 * b2 + 16777216 * b3, rest)%N
  | _ => None
  end.

(** [d] float32 components. *)
Fixpoint read_vector (d : nat) (b : bytes) : option (list N * bytes) :=
  match d with
  | O => Some ([], b)
  | S d' =>
      '(x, rest) ← unpack_I b;
      '(xs, rest') ← read_vector d' rest;
      Some (x :: xs, rest')
  end.

(** One record: u32 id length, the id, the vector. *)
Definition read_record (d : nat) (b : bytes) : option ((str * list N) * bytes) :=
  '(l, rest) ← unpack_I b;
  let l := N.to_nat l in
  if (length rest <? l)%nat then None
  else
    intent_id ← Utf8.decode (take l rest);
    '(v, rest') ← read_vector d (drop l rest);
    Some ((intent_id, v), rest').

Fixpoint read_records (n d : nat) (b : bytes) : option (list (str * list N) * bytes) :=
  match n with
  | O => Some ([], b)
  | S n' =>
      '(r, rest) ← read_record d b;
      '(rs, rest') ← read_records n' d rest;
      Some (r :: rs, rest')
  end.

Definition read_container (b : bytes) : option container :=
  if bool_decide (take 4 b = MAGIC) then
    '(version, b1) ← unpack_I (drop 4 b);
    if (version =? 1)%N then
      '(n, b2) ← unpack_I b1;
      '(d, b3) ← unpack_I b2;
      if (length b3 <? 32)%nat then None
      else
        '(rs, rest) ← read_records (N.to_nat n) (N.to_nat d) (drop 32 b3);
        match rest with
        | [] => Some {| count := n; dimension := d; model_version := take 32 b3; records := rs |}
        | _ => None
        end
    else None
  else None.

(** Modelled from the spec: [decode] of 4.4, of which the repository's
    sources hold no implementation.  It reads the framed layout of 4.4 and
    fails with FormatError if the magic does not match, the version is
    unsupported, or the declared record count and dimension are inconsistent
    with the buffer's actual length (too short, or bytes left over). *)
Definition decode (b : bytes) : res container :=
  match read_container b with
  | Some c => Ok c
  | None => Raise FormatError
  end.

(** The layout of section 4.4, record by record: u32 id length, the UTF-8
    id, the float32 components. *)
Definition record_bytes (r : record) : res bytes :=
  let '(intent_id, (embedding, _)) := r in
  intent_bytes ← Utf8.encode intent_id;
  len ← pack_I (Z.of_nat (length intent_bytes));
  Ok (len ++ intent_bytes ++ flat_map le32 embedding).

Fixpoint records_bytes (embeddings : list record) : res bytes :=
  match embeddings with
  | [] => Ok []
  | r :: rest => b ← record_bytes r; bs ← records_bytes rest; Ok (b ++ bs)
  end.

(** The dimension field: that of the first record's vector, 384 for an empty
    table. *)
Definition header_dimension (embeddings : list record) : nat :=
  match embeddings with
  | (_, (embedding, _)) :: _ => length embedding
  | [] => 384
  end.

(** The layout of section 4.4 as a whole. *)
Definition container_bytes (embeddings : list record) (model_version : str) : res bytes :=
  version ← pack_I 1;
  n ← pack_I (Z.of_nat (length embeddings));
  d ← pack_I (Z.of_nat (header_dimension embeddings));
  model_utf8 ← Utf8.encode model_version;
  body ← records_bytes embeddings;
  Ok ([65; 79; 84; 0]%N ++ version ++ n ++ d ++ ljust32 model_utf8 ++ body).

(** A float32 bit pattern. *)
Definition is_float32 (x : N) : Prop := (x < 2 ^ 32)%N.

(** A record of a table whose vectors have dimension [D]. *)
Definition record_of_dimension (D : nat) (r : record) : Prop :=
  length (fst (snd r)) = D /\ Forall is_float32 (fst (snd r)).

(** [encode(records, modelVersion)] of 4.4: the content of the file
    [generate_aot] writes, when it completes. *)
Definition encode (embeddings : list record) (model_version : str) : option bytes :=
  match generate_aot embeddings model_version [] with
  | (Ok _, f) => Some f
  | (Raise _, _) => None
  end.

End AotReader.

(** ** 4.5 Relational emitter: [generate_sql] *)

Module Sql.

(** [str(n)] for an integer *)
Definition str_of_int (n : Z) : str :=
  lit (DecimalString.NilZero.string_of_int (Z.to_int n)).

Definition hex_digit (d : N) : N := (if d <? 10 then 48 + d else 55 + d)%N.

(** [blob.hex().upper()] *)
Definition hex_upper (blob : Aot.bytes) : str :=
  flat_map (fun b => [hex_digit (b / 16); hex_digit (b mod 16)]%N) blob.

(** A [float32] bit pattern that is a NaN: exponent all ones, fraction not
    zero. *)
Definition is_nan32 (x : N) : bool :=
  (((x / 2 ^ 23) mod 256 =? 255) && negb (x mod 2 ^ 23 =? 0))%N.

(** [struct.pack('<f', x)] of one [float32] component.  [struct] takes the
    component as a Python float, a C double, and converts it back to four
    bytes: every value keeps its bits except a signalling NaN, which comes
    out as the quiet NaN of the same payload (bit 22 set). *)
Definition pack_f (x : N) : Aot.bytes :=
  Aot.le32 (if is_nan32 x then N.lor x (2 ^ 22) else x).

(** [embedding_to_blob]: [struct.pack('<nf', *embedding)] *)
Definition embedding_to_blob (embedding : list N) : Aot.bytes := flat_map pack_f embedding.

(** [blob_to_hex] *)
Definition blob_to_hex (blob : Aot.bytes) : str := lit "X'" ++ hex_upper blob ++ lit "'".

Definition nl : str := [10%N].

(** What the function asks of the outside world: a line on the console,
    [Path(path).parent.mkdir(parents=True, exist_ok=True)],
    [open(path, 'w', encoding='utf-8')], which leaves the file empty, and the
    text given to the open file, on disk once the [with] block is left. *)
Inductive io_event :=
  | Print (line : str)
  | MkdirParent (path : str)
  | OpenWrite (path : str)
  | WriteText (path : str) (text : str).

(** The console and the file system: [None] when a request is carried out,
    the exception it raises otherwise (a console whose encoding cannot hold
    the line, a directory that cannot be created, a full disk). *)
Definition environment := io_event -> option exn.

(** A run: the requests carried out so far, which an exception leaves in
    place. *)
Definition io (A : Type) : Type := list io_event -> res A * list io_event.

#[global] Instance io_ret : MRet io := fun A a done => (Ok a, done).

#[global] Instance io_bind : MBind io := fun A B k m done =>
  match m done with
  | (Ok a, done') => k a done'
  | (Raise e, done') => (Raise e, done')
  end.

Definition request (env : environment) (ev : io_event) : io unit := fun done =>
  match env ev with
  | None => (Ok tt, done ++ [ev])
  | Some e => (Raise e, done)
  end.

(** An expression that may raise, evaluated between requests. *)
Definition compute {A} (r : res A) : io A := fun done => (r, done).

(** The two clock readings of a call: [int(time.time() * 1000)] and
    [time.strftime('%Y-%m-%d %H:%M:%S')]. *)
Record clock := {
  time_ms : Z;
  strftime : str
}.

(** The f-string of one [INSERT OR REPLACE]. *)
Definition insert_sql (intent_id locale blob_hex : str) (dimension : Z) (model_version : str)
    (current_time example_count : Z) : str :=
  lit "INSERT OR REPLACE INTO intent_embedding (" ++ nl
  ++ lit "    intent_id, locale, embedding_vector, embedding_dimension, model_version," ++ nl
  ++ lit "    normalization_type, ontology_id, created_at, updated_at, example_count, source" ++ nl
  ++ lit ") VALUES (" ++ nl
  ++ lit "    '" ++ intent_id ++ lit "', '" ++ locale ++ lit "', " ++ blob_hex ++ lit ", "
  ++ str_of_int dimension ++ lit ", '" ++ model_version ++ lit "'," ++ nl
  ++ lit "    'L2', NULL, " ++ str_of_int current_time ++ lit ", " ++ str_of_int current_time
  ++ lit ", " ++ str_of_int example_count ++ lit ", 'BUNDLED_APK'" ++ nl
  ++ lit ");".

(** The body of [for intent_id, (embedding, example_count) in embeddings.items()]. *)
Definition append_insert (locale model_version : str) (current_time : Z)
    (lines : list str) (r : Aot.record) : list str :=
  let '(intent_id, (embedding, example_count)) := r in
  let blob_hex := blob_to_hex (embedding_to_blob embedding) in
  let dimension := Z.of_nat (length embedding) in
  let sql := insert_sql intent_id locale blob_hex dimension model_version
               current_time example_count in
  (lines ++ [sql]) ++ [[]].

(** The [lines] list [generate_sql] builds. *)
Definition sql_lines (embeddings : list Aot.record) (model_version locale : str) (c : clock)
  : list str :=
  let current_time := time_ms c in
  let lines :=
    [ lit "-- Pre-computed intent embeddings";
      lit "-- Generated by tools/embedding-generator/generate_embeddings.py";
      lit "-- Model: " ++ model_version;
      lit "-- Locale: " ++ locale;
      lit "-- Generated: " ++ strftime c;
      lit "-- Total embeddings: " ++ str_of_int (Z.of_nat (length embeddings));
      [];
      lit "-- This file is auto-generated. Do not edit manually.";
      lit "-- Regenerate with: python tools/embedding-generator/generate_embeddings.py";
      [];
      lit "-- Clear existing bundled embeddings for this locale before inserting";
      lit "DELETE FROM intent_embedding WHERE source = 'BUNDLED_APK' AND locale = '"
        ++ locale ++ lit "';";
      [];
      lit "-- Insert pre-computed embeddings" ] in
  fold_left (append_insert locale model_version current_time) embeddings lines.

(** [generate_sql]: its outcome and the requests carried out, in order.
    The text is encoded when it is given to the file, which was opened with
    [encoding='utf-8']: a code point UTF-8 cannot hold (a lone surrogate)
    raises [UnicodeEncodeError] there, after the file was created and before
    anything is in it. *)
Definition generate_sql (env : environment) (embeddings : list Aot.record)
    (model_version output_path locale : str) (c : clock) : res unit * list io_event :=
  (_ ← request env (Print (lit "Generating SQL: " ++ output_path));
   let text := join nl (sql_lines embeddings model_version locale c) in
   _ ← request env (MkdirParent output_path);
   _ ← request env (OpenWrite output_path);
   _ ← compute (Utf8.encode text);
   _ ← request env (WriteText output_path text);
   request env (Print (lit "  Generated " ++ str_of_int (Z.of_nat (length embeddings))
                       ++ lit " INSERT statements"))) [].

(** The statements as section 4.5 lists their fields: the delete scoped to
    the source tag and the locale, and an upsert with its created and updated
    fields named apart; an upsert takes seven lines of the text. *)
Definition delete_stmt (locale : str) : str :=
  lit "DELETE FROM intent_embedding WHERE source = 'BUNDLED_APK' AND locale = '"
  ++ locale ++ lit "';".

Definition upsert_head : str := lit "INSERT OR REPLACE INTO intent_embedding (".

Definition upsert_lines (intent_id locale vector_hex : str) (dimension : Z)
    (model_version normalization : str) (created_at updated_at example_count : Z)
    (source : str) : list str :=
  [ upsert_head;
    lit "    intent_id, locale, embedding_vector, embedding_dimension, model_version,";
    lit "    normalization_type, ontology_id, created_at, updated_at, example_count, source";
    lit ") VALUES (";
    lit "    '" ++ intent_id ++ lit "', '" ++ locale ++ lit "', " ++ vector_hex ++ lit ", "
      ++ str_of_int dimension ++ lit ", '" ++ model_version ++ lit "',";
    lit "    '" ++ normalization ++ lit "', NULL, " ++ str_of_int created_at ++ lit ", "
      ++ str_of_int updated_at ++ lit ", " ++ str_of_int example_count
      ++ lit ", '" ++ source ++ lit "'";
    lit ");" ].

Definition upsert_stmt (intent_id locale vector_hex : str) (dimension : Z)
    (model_version normalization : str) (created_at updated_at example_count : Z)
    (source : str) : str :=
  join nl (upsert_lines intent_id locale vector_hex dimension model_version normalization
             created_at updated_at example_count source).

(** The upsert of one record at a run timestamp; the vector literal is the
    one [blob_to_hex] and [embedding_to_blob] give. *)
Definition record_upsert (locale model_version : str) (run_time : Z) (r : Aot.record) : str :=
  upsert_stmt (fst r) locale (blob_to_hex (embedding_to_blob (fst (snd r))))
    (Z.of_nat (length (fst (snd r)))) model_version (lit "L2")
    run_time run_time (snd (snd r)) (lit "BUNDLED_APK").

(** The comment lines before the statements. *)
Definition preamble (count : nat) (model_version locale : str) (c : clock) : list str :=
  [ lit "-- Pre-computed intent embeddings";
    lit "-- Generated by tools/embedding-generator/generate_embeddings.py";
    lit "-- Model: " ++ model_version;
    lit "-- Locale: " ++ locale;
    lit "-- Generated: " ++ strftime c;
    lit "-- Total embeddings: " ++ str_of_int (Z.of_nat count);
    [];
    lit "-- This file is auto-generated. Do not edit manually.";
    lit "-- Regenerate with: python tools/embedding-generator/generate_embeddings.py";
    [];
    lit "-- Clear existing bundled embeddings for this locale before inserting" ].

(** The lines [text.split('\n')] of a text, and those that begin a
    statement of either kind. *)
Definition text_lines (text : str) : list str := split_on 10 text [].

Definition is_delete (line : str) : bool := Parser.is_prefix (lit "DELETE ") line.
Definition is_upsert (line : str) : bool := Parser.is_prefix (lit "INSERT ") line.

Definition statement_heads (text : str) : list str :=
  filter (fun line => is_delete line || is_upsert line = true) (text_lines text).

(** A string UTF-8 can hold, and a string without a line break. *)
Definition encodable (s : str) : bool :=
  forallb (fun c => match Utf8.encode_cp c with Some _ => true | None => false end) s.

Definition one_line (s : str) : bool := negb (contains 10 s).

(** The strings a call puts into the text as they are. *)
Definition interpolated (embeddings : list Aot.record) (model_version locale : str) (c : clock)
  : list str :=
  model_version :: locale :: strftime c :: map fst embeddings.

End Sql.

(** ** Further definitions *)

Module More.

(** The tables the legacy parser builds: distinct ids, none empty, each
    with at least one example, no example empty. *)
Definition well_formed_table (d : Loader.intent_table) : Prop :=
  NoDup (map fst d) /\
  Forall (fun kv => fst kv <> [] /\ snd kv <> [] /\ Forall (fun x => x <> []) (snd kv)) d.

(** *** The embedding loop of [main] *)

Section Main.

Context {vec : Type}.

(** [generator.compute_intent_embedding]: the vector or [None], and the
    warnings it prints. *)
Variable compute_intent_embedding : list str -> option vec * list str.

(** [f"  [{i+1}/{len(intents)}] {intent_id} ({len(examples)} examples)"] *)
Definition progress_line (i total : Z) (intent_id : str) (count : Z) : str :=
  lit "  [" ++ Sql.str_of_int (i + 1) ++ lit "/" ++ Sql.str_of_int total ++ lit "] "
  ++ intent_id ++ lit " (" ++ Sql.str_of_int count ++ lit " examples)".

(** The body of [for i, (intent_id, examples) in enumerate(intents.items())];
    the state is [(embeddings, printed, i)]. *)
Definition embed_intent (total : Z) (st : list (str * (vec * Z)) * list str * Z)
    (item : str * list str) : list (str * (vec * Z)) * list str * Z :=
  let '(embeddings, printed, i) := st in
  let '(intent_id, examples) := item in
  let count := Z.of_nat (length examples) in
  let printed := printed ++ [progress_line i total intent_id count] in
  let '(embedding, warnings) := compute_intent_embedding examples in
  let printed := printed ++ warnings in
  match embedding with
  | Some e => (PyDict.set PyDict.str_eqb intent_id (e, count) embeddings, printed, i + 1)
  | None =>
      (embeddings, printed ++ [lit "    Warning: No embedding computed for " ++ intent_id], i + 1)
  end.

(** The loop of [main] that fills [embeddings] from [intents]. *)
Definition compute_embeddings (intents : Loader.intent_table)
  : list (str * (vec * Z)) * list str * Z :=
  fold_left (embed_intent (Z.of_nat (length intents))) intents ([], [], 0).

End Main.

(** *** What one entry of a JSON document gives the table *)

(** An entry of schema A: its id and its examples, the canonical text first
    when there is one; nothing when the id or the examples are empty. *)
Definition ava_entry (intent : Parser.json) : option (str * list Parser.json) :=
  match intent with
  | Parser.JDict d =>
      match default (Parser.JStr []) (PyDict.get PyDict.str_eqb (lit "id") d),
            default (Parser.JList []) (PyDict.get PyDict.str_eqb (lit "s") d) with
      | Parser.JStr id, Parser.JList samples =>
          let canonical := default (Parser.JStr []) (PyDict.get PyDict.str_eqb (lit "c") d) in
          let examples := (if Parser.truthy canonical then [canonical] else []) ++ samples in
          match id, examples with
          | _ :: _, _ :: _ => Some (id, examples)
          | _, _ => None
          end
      | _, _ => None
      end
  | _ => None
  end.

(** A command of schema B: the lower-cased action and the command followed
    by its synonyms; nothing when the action or the command is empty. *)
Definition vos_entry (lower : str -> str) (cmd : Parser.json)
  : option (str * list Parser.json) :=
  match cmd with
  | Parser.JDict d =>
      match default (Parser.JStr []) (PyDict.get PyDict.str_eqb (lit "action") d),
            default (Parser.JList []) (PyDict.get PyDict.str_eqb (lit "syn") d) with
      | Parser.JStr action, Parser.JList synonyms =>
          let canonical := default (Parser.JStr []) (PyDict.get PyDict.str_eqb (lit "cmd") d) in
          match action with
          | _ :: _ =>
              if Parser.truthy canonical then Some (lower action, canonical :: synonyms)
              else None
          | [] => None
          end
      | _, _ => None
      end
  | _ => None
  end.

(** The examples of the last of [entries] that has the id. *)
Definition last_entry (id : str) (entries : list (str * list Parser.json))
  : option (list Parser.json) :=
  snd <$> last (filter (fun e => fst e = id) entries).

(** *** One file in [load_ava_files] *)

(** [hash(v)] raises [TypeError] for a list and for a dict. *)
Definition hashable (v : Parser.json) : bool :=
  match v with
  | Parser.JList _ | Parser.JDict _ => false
  | _ => true
  end.

(** The table of a legacy file among the tables of the JSON parsers. *)
Definition of_text (intents : Loader.intent_table) : Parser.table :=
  map (fun kv => (Parser.JStr (fst kv), map Parser.JStr (snd kv))) intents.

(** [all_intents[intent_id].append(ex)], only reached for an id of the
    table. *)
Definition append_example (intent_id ex : Parser.json) (all_intents : Parser.table)
  : Parser.table :=
  match PyDict.get Parser.key_eqb intent_id all_intents with
  | Some l => PyDict.set Parser.key_eqb intent_id (l ++ [ex]) all_intents
  | None => all_intents
  end.

(** [for ex in examples: if ex not in existing: all_intents[intent_id].append(ex)].
    The membership test hashes [ex]; the loop is left at the first example
    that cannot be hashed, with what it appended until then. *)
Fixpoint append_new (intent_id : Parser.json) (existing examples : list Parser.json)
    (all_intents : Parser.table) : res unit * Parser.table :=
  match examples with
  | [] => (Ok tt, all_intents)
  | ex :: rest =>
      if hashable ex then
        append_new intent_id existing rest
          (if existsb (fun y => Parser.key_eqb y ex) existing then all_intents
           else append_example intent_id ex all_intents)
      else (Raise TypeError, all_intents)
  end.

(** The body of [for intent_id, examples in intents.items()];
    [set(all_intents[intent_id])] hashes every stored example. *)
Definition merge_intent (all_intents : Parser.table) (item : Parser.json * list Parser.json)
  : res unit * Parser.table :=
  let '(intent_id, examples) := item in
  match PyDict.get Parser.key_eqb intent_id all_intents with
  | Some stored =>
      if forallb hashable stored then append_new intent_id stored examples all_intents
      else (Raise TypeError, all_intents)
  | None => (Ok tt, PyDict.set Parser.key_eqb intent_id examples all_intents)
  end.

Fixpoint merge (intents all_intents : Parser.table) : res unit * Parser.table :=
  match intents with
  | [] => (Ok tt, all_intents)
  | item :: rest =>
      match merge_intent all_intents item with
      | (Ok _, all_intents') => merge rest all_intents'
      | (Raise e, all_intents') => (Raise e, all_intents')
      end
  end.

(** A table whose stored examples can all be hashed, and a table that
    keeps, under every string id, what another holds. *)
Definition hashable_table (t : Parser.table) : Prop :=
  Forall (fun kv => forallb hashable (snd kv) = true) t.

Definition grows (t t' : Parser.table) : Prop :=
  forall (k : str) (s : list Parser.json),
    PyDict.get Parser.key_eqb (Parser.JStr k) t = Some s ->
    exists s', PyDict.get Parser.key_eqb (Parser.JStr k) t' = Some s'
               /\ forall y, y ∈ s -> y ∈ s'.

Section LoadFile.

Variables (lower : str -> str) (isupper : str -> bool).

(** The body of [for ava_file in ava_files]; the state is
    [(all_intents, total_files)].  [content] is the outcome of
    [ava_file.read_text(encoding='utf-8')] and [loaded] that of
    [json.loads] on it.  Whatever is raised inside the [try] is caught and
    reported in a warning; what the merge did until then stays, and the
    file is counted as soon as it parsed to a table that is not empty. *)
Definition load_file (st : Parser.table * Z) (content : res str) (loaded : option Parser.json)
  : (Parser.table * Z) * list exn :=
  let '(all_intents, total_files) := st in
  match content ≫= (fun content => Parser.parse_file lower isupper content loaded) with
  | Raise e => (st, [e])
  | Ok p =>
      let intents :=
        match p with
        | Parser.JsonTable t => t
        | Parser.TextTable t => of_text t
        end in
      match intents with
      | [] => (st, [])
      | _ =>
          match merge intents all_intents with
          | (Ok _, all_intents') => ((all_intents', total_files + 1), [])
          | (Raise e, all_intents') => ((all_intents', total_files + 1), [e])
          end
      end
  end.

End LoadFile.

(** *** An inference engine over integers, to run the generator on *)

(** Vectors are single integers: the engine returns 128 rows, row [i] being
    [i + 1]. *)
Definition toy_session (_ : Tokenizer.TokenizedSequence) : res (Aggregator.hidden_states Z) :=
  Ok {| Aggregator.rows := map Z.of_nat (seq 1 128); Aggregator.hidden_size := 1 |}.

(** An engine that returns one row too many. *)
Definition long_session (_ : Tokenizer.TokenizedSequence) : res (Aggregator.hidden_states Z) :=
  Ok {| Aggregator.rows := map Z.of_nat (seq 1 129); Aggregator.hidden_size := 1 |}.

End More.

(** ** Sample data *)

Module Samples.

(** A vocabulary file with the four special tokens, as in the scenario of
    section 8 of the specification. *)
Definition scenario_lines : list str :=
  [ lit "[CLS]" ++ [10%N]; lit "[SEP]" ++ [10%N]; lit "[PAD]" ++ [10%N];
    lit "[UNK]" ++ [10%N]; lit "turn" ++ [10%N]; lit "on" ++ [10%N]; lit "wifi" ++ [10%N] ].

(** The scenario's tokenizer: [max_length] set to 8 after construction. *)
Definition scenario_tokenizer : Tokenizer.BertTokenizer :=
  let t := Tokenizer.BertTokenizer_init scenario_lines in
  {| Tokenizer.vocab := Tokenizer.vocab t;
     Tokenizer.cls_token_id := Tokenizer.cls_token_id t;
     Tokenizer.sep_token_id := Tokenizer.sep_token_id t;
     Tokenizer.pad_token_id := Tokenizer.pad_token_id t;
     Tokenizer.unk_token_id := Tokenizer.unk_token_id t;
     Tokenizer.max_length := 8 |}.

(** A vocabulary file without special tokens: ids 0, 1, 2 belong to ordinary
    tokens and continuation pieces. *)
Definition plain_lines : list str :=
  [ lit "un" ++ [10%N]; lit "##aff" ++ [10%N]; lit "##able" ++ [10%N]; lit "##a" ++ [10%N] ].

Definition plain_tokenizer : Tokenizer.BertTokenizer :=
  Tokenizer.BertTokenizer_init plain_lines.

(** The codec scenario of section 8: one record, "wifi_on" with the vector
    [1.0, 0.0], for model "m1". *)
Definition wifi_on_table : list Aot.record :=
  [(lit "wifi_on", ([1065353216%N; 0%N], 1))].

End Samples.

(** * Properties *)

(** ** Tokenizer *)

Module TokenizerSpec.

Import Tokenizer.

Lemma length_repeat_list {A} (x : A) (n : Z) :
  length (repeat_list x n) = Z.to_nat n.
Proof. apply length_replicate. Qed.

Lemma length_slice_to {A} (l : list A) (n : Z) :
  0 <= n -> (length (slice_to l n) <= Z.to_nat n)%nat.
Proof.
  intros Hn. unfold slice_to.
  destruct (Z.ltb_spec n 0) as [Hlt | _]; [lia |].
  rewrite length_take. lia.
Qed.

Section Shape.

Variables (t : BertTokenizer) (lower : str -> str).
Hypothesis max_length_128 : max_length t = 128.

(** The framed sequence before padding: CLS, at most 126 ids, SEP. *)
Lemma tokenize_framed (text : str) :
  exists toks : list Z,
    (length toks <= 126)%nat /\
    input_ids (tokenize t lower text)
      = [cls_token_id t] ++ toks ++ [sep_token_id t]
        ++ replicate (126 - length toks) (pad_token_id t) /\
    attention_mask (tokenize t lower text)
      = replicate (2 + length toks) 1 ++ replicate (126 - length toks) 0 /\
    token_type_ids (tokenize t lower text) = replicate 128 0.
Proof.
  unfold tokenize. rewrite max_length_128.
  set (toks := slice_to _ (128 - 2)).
  assert (Hlen : (length toks <= 126)%nat).
  { subst toks. etransitivity; [apply length_slice_to; lia | lia]. }
  exists toks. cbn [input_ids attention_mask token_type_ids].
  assert (Hn : length ([cls_token_id t] ++ toks ++ [sep_token_id t]) = (2 + length toks)%nat).
  { rewrite !length_app. simpl. lia. }
  rewrite Hn. unfold repeat_list.
  replace (Z.to_nat (128 - Z.of_nat (2 + length toks))) with (126 - length toks)%nat by lia.
  rewrite Nat2Z.id.
  split; [exact Hlen |]. split; [| split].
  - by rewrite <- !app_assoc.
  - reflexivity.
  - rewrite <- replicate_add. f_equal. lia.
Qed.

(** The shape of the output for a tokenizer whose [max_length] is 128. *)
Lemma tokenize_output_128 (text : str) :
  let r := tokenize t lower text in
  length (input_ids r) = 128%nat /\
  length (attention_mask r) = 128%nat /\
  length (token_type_ids r) = 128%nat /\
  exists n : nat,
    (2 <= n <= 128)%nat /\
    attention_mask r = replicate n 1 ++ replicate (128 - n) 0 /\
    input_ids r !! 0%nat = Some (cls_token_id t) /\
    input_ids r !! (n - 1)%nat = Some (sep_token_id t).
Proof.
  intros r.
  destruct (tokenize_framed text) as (toks & Hlen & Hids & Hmask & Htypes).
  fold r in Hids, Hmask, Htypes.
  rewrite Hids, Hmask, Htypes.
  split; [| split; [| split]].
  - rewrite !length_app, length_replicate. simpl. lia.
  - rewrite length_app, !length_replicate. lia.
  - apply length_replicate.
  - exists (2 + length toks)%nat.
    split; [lia |]. split; [f_equal; f_equal; lia |]. split; [reflexivity |].
    replace (2 + length toks - 1)%nat with (S (length toks)) by lia.
    change ([cls_token_id t] ++ toks ++ [sep_token_id t] ++ ?p)
      with (cls_token_id t :: (toks ++ sep_token_id t :: p)).
    rewrite lookup_cons. by rewrite list_lookup_middle.
Qed.

End Shape.

Lemma max_length_init (lines : list str) : max_length (BertTokenizer_init lines) = 128.
Proof. reflexivity. Qed.

(** C1.  For every vocabulary file and every text, [tokenize] returns three
    arrays of length exactly 128; the attention mask is [n] ones followed by
    zeros; the first id is the CLS id; and the id at the last position whose
    mask is 1 (position [n - 1]) is the SEP id. *)
Theorem tokenize_shape (lower : str -> str) (lines : list str) (text : str) :
  let t := BertTokenizer_init lines in
  let r := tokenize t lower text in
  length (input_ids r) = 128%nat /\
  length (attention_mask r) = 128%nat /\
  length (token_type_ids r) = 128%nat /\
  exists n : nat,
    (2 <= n <= 128)%nat /\
    attention_mask r = replicate n 1 ++ replicate (128 - n) 0 /\
    input_ids r !! 0%nat = Some (cls_token_id t) /\
    input_ids r !! (n - 1)%nat = Some (sep_token_id t).
Proof.
  intros t. exact (tokenize_output_128 t lower (max_length_init lines) text).
Qed.

(** The scenario of section 8: "turn on wifi" with [max_length] 8. *)
Example tokenize_scenario :
  let r := tokenize Samples.scenario_tokenizer ascii_lower (lit "turn on wifi") in
  input_ids r = [0; 4; 5; 6; 1; 2; 2; 2] /\ attention_mask r = [1; 1; 1; 1; 1; 0; 0; 0].
Proof. vm_compute. split; reflexivity. Qed.

Section Greedy.

Variable t : BertTokenizer.

Lemma match_loop_some (word : str) (start : nat) (fuel end_ : nat) (id : Z) (e : nat) :
  match_loop t fuel word start end_ = (Some id, e) ->
  (start < e <= end_)%nat /\
  vocab t !! piece word start e = Some id /\
  forall e', (e < e' <= end_)%nat -> vocab t !! piece word start e' = None.
Proof.
  revert end_. induction fuel as [| fuel IH]; intros end_; simpl; [discriminate |].
  destruct (Nat.ltb_spec start end_) as [Hlt | Hge]; [| discriminate].
  destruct (vocab t !! piece word start end_) as [id' |] eqn:Hlook.
  - intros [= <- <-]. split; [lia |]. split; [exact Hlook |]. intros e' He'. lia.
  - intros Hrec. destruct (IH _ Hrec) as (Hr & Hid & Hmax).
    split; [lia |]. split; [exact Hid |].
    intros e' He'. destruct (decide (e' = end_)) as [-> | Hne]; [exact Hlook |].
    apply Hmax. lia.
Qed.

Lemma match_loop_none (word : str) (start : nat) (fuel end_ : nat) (e : nat) :
  (end_ - start <= fuel)%nat ->
  match_loop t fuel word start end_ = (None, e) ->
  forall e', (start < e' <= end_)%nat -> vocab t !! piece word start e' = None.
Proof.
  revert end_. induction fuel as [| fuel IH]; intros end_ Hfuel; simpl.
  - intros _ e' He'. lia.
  - destruct (Nat.ltb_spec start end_) as [Hlt | Hge]; [| intros _ e' He'; lia].
    destruct (vocab t !! piece word start end_) as [id' |] eqn:Hlook; [discriminate |].
    intros Hrec e' He'.
    destruct (decide (e' = end_)) as [-> | Hne]; [exact Hlook |].
    apply (IH (end_ - 1)%nat); [lia | exact Hrec | lia].
Qed.

(** With fuel for every remaining character the outer loop exits, and what
    it appended is the greedy segmentation from [start]. *)
Lemma wordpiece_loop_greedy (word : str) (fuel start : nat) (tokens : list Z) :
  (length word - start <= fuel)%nat ->
  exists ids, wordpiece_loop t fuel word start tokens = Some (tokens ++ ids)
              /\ greedy t word start ids.
Proof.
  revert start tokens. induction fuel as [| fuel IH]; intros start tokens Hfuel.
  - simpl. destruct (Nat.ltb_spec start (length word)) as [Hlt | Hge]; [lia |].
    exists []. rewrite app_nil_r. split; [reflexivity | by constructor].
  - simpl. destruct (Nat.ltb_spec start (length word)) as [Hlt | Hge].
    + destruct (match_loop t (length word - start) word start (length word))
        as [[id |] e] eqn:Hm.
      * destruct (match_loop_some _ _ _ _ _ _ Hm) as (Hr & Hid & Hmax).
        destruct (IH e (tokens ++ [id])) as (ids & Hrun & Hg); [lia |].
        exists (id :: ids). rewrite Hrun, <- app_assoc. split; [reflexivity |].
        by apply greedy_match with (end_ := e).
      * destruct (IH (start + 1)%nat (tokens ++ [unk_token_id t])) as (ids & Hrun & Hg); [lia |].
        exists (unk_token_id t :: ids). rewrite Hrun, <- app_assoc. split; [reflexivity |].
        apply greedy_unk; [exact Hlt | | by rewrite Nat.add_1_r in Hg].
        by apply (match_loop_none _ _ _ _ _ (Nat.le_refl _) Hm).
    + exists []. rewrite app_nil_r. split; [reflexivity | by constructor].
Qed.

(** The loop of [_wordpiece] exits within [len(word)] iterations. *)
Lemma wordpiece_loop_total (word : str) :
  exists ids, wordpiece_loop t (length word) word 0 [] = Some ids.
Proof.
  destruct (wordpiece_loop_greedy word (length word) 0 []) as (ids & H & _); [lia |].
  by exists ids.
Qed.

Lemma wordpiece_greedy (word : str) : greedy t word 0 (_wordpiece t word).
Proof.
  unfold _wordpiece.
  destruct (wordpiece_loop_greedy word (length word) 0 []) as (ids & -> & Hg); [lia |].
  exact Hg.
Qed.

(** The greedy segmentation is unique. *)
Lemma greedy_unique (word : str) (start : nat) (ids ids' : list Z) :
  greedy t word start ids -> greedy t word start ids' -> ids = ids'.
Proof.
  intros H. revert ids'.
  induction H as [start Hge | start e id ids Hr Hid Hmax _ IH | start ids Hlt Hnone _ IH];
    intros ids' H'.
  - inversion H' as [| ? e' ? ? Hr' |]; subst; [reflexivity | lia | lia].
  - inversion H' as [| ? e' id' ids'' Hr' Hid' Hmax' Hg' | ? ids'' ? Hnone' Hg']; subst.
    + lia.
    + assert (e' = e) as ->.
      { destruct (Nat.lt_trichotomy e e') as [Hlt | [Heq | Hgt]]; [| done |].
        - rewrite (Hmax e') in Hid' by lia. discriminate.
        - rewrite (Hmax' e) in Hid by lia. discriminate. }
      rewrite Hid in Hid'. injection Hid' as <-. f_equal. by apply IH.
    + rewrite (Hnone' e) in Hid by lia. discriminate.
  - inversion H' as [| ? e' id' ids'' Hr' Hid' Hmax' Hg' | ? ids'' ? Hnone' Hg']; subst.
    + lia.
    + rewrite (Hnone e') in Hid' by lia. discriminate.
    + f_equal. by apply IH.
Qed.

(** C2.  For a word that is not itself a vocabulary entry, the ids the
    tokenizer appends are the greedy longest-match segmentation of the word
    from position 0: at each position the longest piece (with "##" in front
    when the position is not 0) found in the vocabulary gives the id and the
    next position, and where no piece matches the UNK id is emitted and the
    position moves by one character, until the word is consumed.  That
    segmentation is the only one. *)
Theorem wordpiece_is_greedy (word : str) :
  vocab t !! word = None ->
  exists ids,
    (forall tokens, word_tokens t tokens word = tokens ++ ids) /\
    greedy t word 0 ids /\
    (forall ids', greedy t word 0 ids' -> ids' = ids).
Proof.
  intros Hword. exists (_wordpiece t word). split; [| split].
  - intros tokens. unfold word_tokens. by rewrite Hword.
  - apply wordpiece_greedy.
  - intros ids' H'. exact (greedy_unique _ _ _ _ H' (wordpiece_greedy word)).
Qed.

End Greedy.

(** "unaffable" over the sample vocabulary: "un", "##aff", "##able". *)
Lemma wordpiece_is_greedy_witness :
  exists ids,
    (forall tokens,
        word_tokens Samples.plain_tokenizer tokens (lit "unaffable") = tokens ++ ids) /\
    greedy Samples.plain_tokenizer (lit "unaffable") 0 ids /\
    (forall ids', greedy Samples.plain_tokenizer (lit "unaffable") 0 ids' -> ids' = ids).
Proof.
  apply (wordpiece_is_greedy Samples.plain_tokenizer (lit "unaffable")).
  vm_compute. reflexivity.
Defined.

Example wordpiece_unaffable :
  _wordpiece Samples.plain_tokenizer (lit "unaffable") = [0; 1; 2].
Proof. vm_compute. reflexivity. Qed.

(** An unmatched character gives UNK and matching resumes after it. *)
Example wordpiece_unknown_character :
  _wordpiece Samples.plain_tokenizer (lit "unxable") = [0; 100; 2].
Proof. vm_compute. reflexivity. Qed.

Lemma load_vocab_absent (lines : list str) (idx : Z) (v : gmap (list N) Z) (k : str) :
  k ∉ map strip lines -> load_vocab lines idx v !! k = v !! k.
Proof.
  revert idx v. induction lines as [| line rest IH]; intros idx v Hk; simpl; [reflexivity |].
  simpl in Hk. apply not_elem_of_cons in Hk as [Hne Hrest].
  rewrite IH by exact Hrest. by rewrite lookup_insert_ne.
Qed.

(** C9.  When no line of the vocabulary file is "[CLS]", "[SEP]", "[PAD]"
    or "[UNK]", the tokenizer takes the ids 101, 102, 0 and 100, and every
    [tokenize] call frames its ids with 101 and 102 and pads with 0, whatever
    ordinary tokens carry those ids. *)
Theorem special_ids_fallback (lower : str -> str) (lines : list str) :
  lit "[CLS]" ∉ map strip lines ->
  lit "[SEP]" ∉ map strip lines ->
  lit "[PAD]" ∉ map strip lines ->
  lit "[UNK]" ∉ map strip lines ->
  let t := BertTokenizer_init lines in
  cls_token_id t = 101 /\ sep_token_id t = 102 /\
  pad_token_id t = 0 /\ unk_token_id t = 100 /\
  forall text, exists toks : list Z,
    (length toks <= 126)%nat /\
    input_ids (tokenize t lower text) = [101] ++ toks ++ [102] ++ replicate (126 - length toks) 0.
Proof.
  intros Hcls Hsep Hpad Hunk t.
  assert (Ec : cls_token_id t = 101).
  { unfold t, BertTokenizer_init; cbn [cls_token_id]. by rewrite load_vocab_absent. }
  assert (Es : sep_token_id t = 102).
  { unfold t, BertTokenizer_init; cbn [sep_token_id]. by rewrite load_vocab_absent. }
  assert (Ep : pad_token_id t = 0).
  { unfold t, BertTokenizer_init; cbn [pad_token_id]. by rewrite load_vocab_absent. }
  assert (Eu : unk_token_id t = 100).
  { unfold t, BertTokenizer_init; cbn [unk_token_id]. by rewrite load_vocab_absent. }
  do 4 (split; [assumption |]).
  intros text.
  destruct (tokenize_framed t lower (max_length_init lines) text) as (toks & Hlen & Hids & _).
  exists toks. split; [exact Hlen |]. rewrite Hids. by rewrite Ec, Es, Ep.
Qed.

(** The sample vocabulary has ordinary tokens at ids 0, 1, 2 and none of the
    special tokens. *)
Lemma special_ids_fallback_witness :
  let t := Samples.plain_tokenizer in
  cls_token_id t = 101 /\ sep_token_id t = 102 /\
  pad_token_id t = 0 /\ unk_token_id t = 100 /\
  forall text, exists toks : list Z,
    (length toks <= 126)%nat /\
    input_ids (tokenize t ascii_lower text)
      = [101] ++ toks ++ [102] ++ replicate (126 - length toks) 0.
Proof.
  apply (special_ids_fallback ascii_lower Samples.plain_lines);
    apply (bool_decide_unpack _); vm_compute; exact I.
Defined.

(** The pad id 0 is also the id of the ordinary token "un". *)
Example fallback_ids_collide :
  take 5 (input_ids (tokenize Samples.plain_tokenizer ascii_lower (lit "un unable")))
  = [101; 0; 0; 2; 102].
Proof. vm_compute. reflexivity. Qed.

End TokenizerSpec.

(** ** Merging *)

Module LoaderSpec.

Import Loader.

Lemma str_eqb_true (a b : str) : PyDict.str_eqb a b = true <-> a = b.
Proof. unfold PyDict.str_eqb. apply bool_decide_eq_true. Qed.

Lemma lookup_table_cons (k k' : str) (v : list str) (d : intent_table) :
  lookup k ((k', v) :: d) = if decide (k' = k) then Some v else lookup k d.
Proof.
  unfold lookup. simpl. unfold PyDict.str_eqb.
  destruct (decide (k' = k)) as [E | E].
  - by rewrite bool_decide_eq_true_2.
  - by rewrite bool_decide_eq_false_2.
Qed.

Lemma lookup_set (k k' : str) (v : list str) (d : intent_table) :
  lookup k (PyDict.set PyDict.str_eqb k' v d) = if decide (k' = k) then Some v else lookup k d.
Proof.
  induction d as [| [k0 v0] d IH]; cbn [PyDict.set].
  - rewrite lookup_table_cons. by destruct (decide (k' = k)).
  - unfold PyDict.str_eqb at 1. destruct (decide (k0 = k')) as [E0 | E0].
    + rewrite bool_decide_eq_true_2 by done. rewrite !lookup_table_cons. subst k0.
      by destruct (decide (k' = k)).
    + rewrite bool_decide_eq_false_2 by done. rewrite !lookup_table_cons, IH.
      destruct (decide (k0 = k)) as [E1 | E1]; [| done].
      destruct (decide (k' = k)); [congruence | done].
Qed.

Lemma lookup_append_example (k intent_id ex : str) (d : intent_table) :
  lookup k (append_example intent_id ex d)
  = if decide (intent_id = k) then (fun l => l ++ [ex]) <$> lookup k d else lookup k d.
Proof.
  unfold append_example.
  destruct (lookup intent_id d) as [l |] eqn:E.
  - rewrite lookup_set. destruct (decide (intent_id = k)) as [<- | _]; [by rewrite E | done].
  - destruct (decide (intent_id = k)) as [<- | _]; [by rewrite E | done].
Qed.

(** The inner loop appends, in order, the examples outside the set taken
    before the loop. *)
Lemma append_loop_lookup (intent_id : str) (existing : gset (list N)) (examples : list str) :
  forall (acc : intent_table) (cur : list str),
    lookup intent_id acc = Some cur ->
    lookup intent_id
      (fold_left
         (fun acc ex => if bool_decide (ex ∈ existing) then acc else append_example intent_id ex acc)
         examples acc)
    = Some (cur ++ filter (fun ex => ex ∉ existing) examples).
Proof.
  induction examples as [| ex rest IH]; intros acc cur Hcur; simpl.
  - by rewrite filter_nil, app_nil_r.
  - rewrite filter_cons. destruct (decide (ex ∈ existing)) as [Hin | Hout].
    + rewrite bool_decide_eq_true_2 by done. rewrite decide_False by tauto. by apply IH.
    + rewrite bool_decide_eq_false_2 by done. rewrite decide_True by done.
      rewrite (IH _ (cur ++ [ex])).
      * by rewrite <- app_assoc.
      * rewrite lookup_append_example, decide_True by done. by rewrite Hcur.
Qed.

Lemma append_loop_other (k intent_id : str) (existing : gset (list N)) (examples : list str) :
  intent_id <> k ->
  forall acc : intent_table,
    lookup k
      (fold_left
         (fun acc ex => if bool_decide (ex ∈ existing) then acc else append_example intent_id ex acc)
         examples acc)
    = lookup k acc.
Proof.
  intros Hne. induction examples as [| ex rest IH]; intros acc; simpl; [reflexivity |].
  rewrite IH. destruct (bool_decide (ex ∈ existing)); [reflexivity |].
  by rewrite lookup_append_example, decide_False.
Qed.

Lemma filter_set_list (stored examples : list str) :
  filter (fun ex => ex ∉ (list_to_set stored : gset (list N))) examples
  = filter (fun ex => ex ∉ stored) examples.
Proof.
  apply list_filter_iff. intros ex. by rewrite elem_of_list_to_set.
Qed.

Lemma merge_intent_same (d : intent_table) (intent_id : str) (examples : list str) :
  lookup intent_id (merge_intent d (intent_id, examples))
  = Some match lookup intent_id d with
         | Some stored => stored ++ filter (fun ex => ex ∉ stored) examples
         | None => examples
         end.
Proof.
  unfold merge_intent. destruct (lookup intent_id d) as [stored |] eqn:E.
  - erewrite append_loop_lookup by exact E. by rewrite filter_set_list.
  - by rewrite lookup_set, decide_True.
Qed.

Lemma merge_intent_other (d : intent_table) (k intent_id : str) (examples : list str) :
  intent_id <> k ->
  lookup k (merge_intent d (intent_id, examples)) = lookup k d.
Proof.
  intros Hne. unfold merge_intent. destruct (lookup intent_id d) as [stored |].
  - by apply append_loop_other.
  - by rewrite lookup_set, decide_False.
Qed.

Lemma lookup_absent (k : str) (d : intent_table) : k ∉ map fst d -> lookup k d = None.
Proof.
  induction d as [| [k0 v0] d IH]; intros Hk; [reflexivity |].
  simpl in Hk. apply not_elem_of_cons in Hk as [Hne Hrest].
  rewrite lookup_table_cons, decide_False by congruence. by apply IH.
Qed.

(** What [merge] leaves under each intent id. *)
Lemma merge_lookup (new existing : intent_table) (k : str) :
  NoDup (map fst new) ->
  lookup k (merge existing new)
  = match lookup k new with
    | None => lookup k existing
    | Some examples =>
        Some match lookup k existing with
             | Some stored => stored ++ filter (fun ex => ex ∉ stored) examples
             | None => examples
             end
    end.
Proof.
  unfold merge. revert existing.
  induction new as [| [k0 examples] rest IH]; intros existing Hnd; cbn [fold_left];
    [reflexivity |].
  simpl in Hnd. apply NoDup_cons in Hnd as [Hk0 Hrest].
  rewrite IH by exact Hrest. rewrite lookup_table_cons.
  destruct (decide (k0 = k)) as [-> | Hne].
  - rewrite (lookup_absent k rest) by exact Hk0. apply merge_intent_same.
  - rewrite merge_intent_other by exact Hne. reflexivity.
Qed.

Lemma NoDup_append_new (stored examples : list str) :
  NoDup stored -> NoDup examples ->
  NoDup (stored ++ filter (fun ex => ex ∉ stored) examples).
Proof.
  intros Hs He. apply NoDup_app. split; [exact Hs |]. split.
  - intros x Hx Hf. apply list_elem_of_filter in Hf as [Hout _]. contradiction.
  - by apply NoDup_filter.
Qed.

(** C5, as the code has it.  For a per-file table (a dict: its intent ids are
    distinct), [merge] leaves an id that the new table lacks as it was,
    creates an id that the existing table lacks with the new example list as
    given, and for a present id whose new example list has no repeated entry
    stores the existing list followed by the new examples that do not occur
    in it, in their order; that list has no duplicates when the existing list
    has none. *)
Theorem merge_appends_new_examples (existing new : intent_table) (intent_id : str) :
  NoDup (map fst new) ->
  match lookup intent_id new with
  | None => lookup intent_id (merge existing new) = lookup intent_id existing
  | Some examples =>
      match lookup intent_id existing with
      | None => lookup intent_id (merge existing new) = Some examples
      | Some stored =>
          NoDup examples ->
          lookup intent_id (merge existing new)
            = Some (stored ++ filter (fun ex => ex ∉ stored) examples)
          /\ (NoDup stored -> NoDup (stored ++ filter (fun ex => ex ∉ stored) examples))
      end
  end.
Proof.
  intros Hkeys. rewrite (merge_lookup new existing intent_id Hkeys).
  destruct (lookup intent_id new) as [examples |]; [| reflexivity].
  destruct (lookup intent_id existing) as [stored |]; [| reflexivity].
  intros Hex. split; [reflexivity |].
  intros Hst. by apply NoDup_append_new.
Qed.

(** The scenario of section 8: merging [{a: [x, y]}] into [{a: [x]}]. *)
Lemma merge_appends_new_examples_witness :
  lookup (lit "a") (merge [(lit "a", [lit "x"])] [(lit "a", [lit "x"; lit "y"])])
    = Some [lit "x"; lit "y"]
  /\ (NoDup [lit "x"] -> NoDup [lit "x"; lit "y"]).
Proof.
  refine (merge_appends_new_examples
            [(lit "a", [lit "x"])] [(lit "a", [lit "x"; lit "y"])] (lit "a") _ _);
    apply (bool_decide_unpack _); vm_compute; exact I.
Defined.

(** An id created from a list with a repeated example keeps the repetition:
    the lists of a merged table are not de-duplicated in general. *)
Lemma merge_keeps_repeated_examples :
  NoDup (map fst [(lit "a", [lit "x"; lit "x"])]) /\
  lookup (lit "a") (merge [] [(lit "a", [lit "x"; lit "x"])]) = Some [lit "x"; lit "x"] /\
  ~ NoDup [lit "x"; lit "x"].
Proof.
  split; [| split].
  - apply (bool_decide_unpack _). vm_compute. exact I.
  - vm_compute. reflexivity.
  - intros H. apply NoDup_cons in H as [Hin _]. apply Hin. left.
Qed.

(** The set of existing examples is the one taken before the loop. *)
Example merge_repeated_new_example :
  merge [(lit "a", [lit "x"])] [(lit "a", [lit "y"; lit "y"])]
  = [(lit "a", [lit "x"; lit "y"; lit "y"])].
Proof. vm_compute. reflexivity. Qed.

Example merge_scenario :
  merge [(lit "a", [lit "x"])] [(lit "a", [lit "x"; lit "y"])] = [(lit "a", [lit "x"; lit "y"])].
Proof. vm_compute. reflexivity. Qed.

End LoaderSpec.

(** ** Parsers *)

Module ParserSpec.

Import Parser.

Section Legacy.

Variable isupper : str -> bool.

Lemma yaml_line_delimiter (intents : Loader.intent_table) (c : Z) (line : str) :
  strip line = lit "---" ->
  yaml_line isupper (intents, c) line = (intents, c + 1).
Proof. intros E. unfold yaml_line. rewrite E. reflexivity. Qed.

Lemma yaml_line_before_data (intents : Loader.intent_table) (c : Z) (line : str) :
  strip line <> lit "---" -> c <> 2 ->
  yaml_line isupper (intents, c) line = (intents, c).
Proof.
  intros Hne Hc. unfold yaml_line.
  destruct (_ || _); [reflexivity |].
  unfold PyDict.str_eqb. rewrite bool_decide_eq_false_2 by exact Hne.
  destruct (Z.eqb_spec c 2) as [E | _]; [contradiction | reflexivity].
Qed.

(** Records are only taken once two delimiter lines have been seen. *)
Lemma yaml_fold_before_data (lines : list str) (intents : Loader.intent_table) (c : Z) :
  c + Z.of_nat (length (delimiters lines)) < 2 ->
  fst (fold_left (yaml_line isupper) lines (intents, c)) = intents.
Proof.
  revert c. induction lines as [| line rest IH]; intros c Hc; [reflexivity |].
  cbn [fold_left]. unfold delimiters in Hc. rewrite filter_cons in Hc.
  destruct (decide (strip line = lit "---")) as [E | E].
  - rewrite yaml_line_delimiter by exact E. apply IH.
    cbn [length] in Hc. unfold delimiters. lia.
  - rewrite yaml_line_before_data; [| exact E | ].
    + apply IH. unfold delimiters. lia.
    + pose proof (Nat2Z.is_nonneg (length (filter (fun l => strip l = lit "---") rest))). lia.
Qed.

End Legacy.

Lemma field_ok_default (p : json -> bool) (k : str) (d : list (str * json)) (dflt : json) :
  field_ok p k d = true -> p dflt = true ->
  p (default dflt (PyDict.get PyDict.str_eqb k d)) = true.
Proof. unfold field_ok. by destruct (PyDict.get PyDict.str_eqb k d). Qed.

(** An intent of schema A is taken without an exception. *)
Lemma ava_json_intent_ok (intents : table) (intent : json) :
  ava_intent_schema intent = true -> exists intents', ava_json_intent intents intent = Ok intents'.
Proof.
  destruct intent as [| | | | | | d]; try discriminate.
  cbn [ava_intent_schema]. intros [Hid Hs]%andb_true_iff.
  unfold ava_json_intent. cbn [py_get mbind res_bind].
  pose proof (field_ok_default is_str (lit "id") d (JStr []) Hid eq_refl) as Hid'.
  pose proof (field_ok_default is_list (lit "s") d (JList []) Hs eq_refl) as Hs'.
  destruct (default (JStr []) (PyDict.get PyDict.str_eqb (lit "id") d)) as [| | | | id | |];
    try discriminate.
  destruct (default (JList []) (PyDict.get PyDict.str_eqb (lit "s") d)) as [| | | | | l |];
    try discriminate.
  destruct (truthy (JStr id)); [| by eexists].
  cbn [py_iter mbind res_bind].
  destruct (_ ++ l); by eexists.
Qed.

Lemma ava_json_fold_ok (l : list json) (intents : table) :
  forallb ava_intent_schema l = true -> exists intents', res_fold ava_json_intent l intents = Ok intents'.
Proof.
  revert intents. induction l as [| intent l IH]; intros intents; [by eexists |].
  cbn [forallb res_fold]. intros [Hi Hl]%andb_true_iff.
  destruct (ava_json_intent_ok intents intent Hi) as [intents' ->].
  cbn [mbind res_bind]. by apply IH.
Qed.

(** A document of schema A is parsed without an exception. *)
Lemma parse_ava_json_ok (data : json) :
  ava_schema data = true -> exists intents, parse_ava_json_format (Some data) = Ok intents.
Proof.
  destruct data as [| | | | | | d]; try discriminate.
  cbn [ava_schema parse_ava_json_format py_contains py_getitem mbind res_bind].
  unfold PyDict.mem.
  destruct (PyDict.get PyDict.str_eqb (lit "i") d) as [items |]; [| by eexists].
  cbn [mbind res_bind].
  destruct items; try by eexists.
  apply ava_json_fold_ok.
Qed.

Section Vos.

Variable lower : str -> str.

(** A command of schema B is taken without an exception. *)
Lemma vos_json_command_ok (intents : table) (cmd : json) :
  vos_command_schema cmd = true ->
  exists intents', vos_json_command lower intents cmd = Ok intents'.
Proof.
  destruct cmd as [| | | | | | d]; try discriminate.
  cbn [vos_command_schema]. intros [Ha Hs]%andb_true_iff.
  unfold vos_json_command. cbn [py_get mbind res_bind].
  pose proof (field_ok_default is_str (lit "action") d (JStr []) Ha eq_refl) as Ha'.
  pose proof (field_ok_default is_list (lit "syn") d (JList []) Hs eq_refl) as Hs'.
  destruct (default (JStr []) (PyDict.get PyDict.str_eqb (lit "action") d)) as [| | | | a | |];
    try discriminate.
  destruct (default (JList []) (PyDict.get PyDict.str_eqb (lit "syn") d)) as [| | | | | l |];
    try discriminate.
  destruct (truthy (JStr a) && _); by eexists.
Qed.

Lemma vos_json_fold_ok (l : list json) (intents : table) :
  forallb vos_command_schema l = true ->
  exists intents', res_fold (vos_json_command lower) l intents = Ok intents'.
Proof.
  revert intents. induction l as [| cmd l IH]; intros intents; [by eexists |].
  cbn [forallb res_fold]. intros [Hc Hl]%andb_true_iff.
  destruct (vos_json_command_ok intents cmd Hc) as [intents' ->].
  cbn [mbind res_bind]. by apply IH.
Qed.

(** A document of schema B is parsed without an exception. *)
Lemma parse_vos_json_ok (data : json) :
  vos_schema data = true -> exists intents, parse_vos_json_format lower (Some data) = Ok intents.
Proof.
  destruct data as [| | | | | | d]; try discriminate.
  cbn [vos_schema parse_vos_json_format py_get mbind res_bind].
  destruct (PyDict.get PyDict.str_eqb (lit "commands") d) as [commands |];
    [| intros _; by eexists].
  cbn [default]. destruct commands; try discriminate.
  cbn [py_iter mbind res_bind]. apply vos_json_fold_ok.
Qed.

End Vos.

(** C6, as the code has it.  Each JSON parser returns the empty table when
    [json.loads] rejects the content and returns a table, raising nothing,
    for a document of its schema; the legacy parser, a function of the text
    alone that raises nothing, returns the empty table for a content with
    fewer than two delimiter lines. *)
Theorem parsers_return_tables (lower : str -> str) (isupper : str -> bool) :
  parse_ava_json_format None = Ok [] /\
  parse_vos_json_format lower None = Ok [] /\
  (forall data, ava_schema data = true ->
     exists intents, parse_ava_json_format (Some data) = Ok intents) /\
  (forall data, vos_schema data = true ->
     exists intents, parse_vos_json_format lower (Some data) = Ok intents) /\
  forall content : str,
    (length (delimiters (split_on 10 content [])) < 2)%nat ->
    parse_ava_yaml_format isupper content = [].
Proof.
  split; [reflexivity |]. split; [reflexivity |].
  split; [exact parse_ava_json_ok |]. split; [exact (parse_vos_json_ok lower) |].
  intros content H. unfold parse_ava_yaml_format. apply yaml_fold_before_data. lia.
Qed.

(** A document of each schema, and a content with one delimiter line only. *)
Lemma parsers_return_tables_witness :
  (exists intents,
     parse_ava_json_format
       (Some (JDict [(lit "i", JList [JDict [(lit "id", JStr (lit "wifi_on"));
                                             (lit "s", JList [JStr (lit "wifi on")])]])]))
     = Ok intents) /\
  (exists intents,
     parse_vos_json_format ascii_lower
       (Some (JDict [(lit "commands", JList [JDict [(lit "action", JStr (lit "WIFI_ON"));
                                                    (lit "cmd", JStr (lit "wifi on"))]])]))
     = Ok intents) /\
  parse_ava_yaml_format ascii_isupper (lit "---" ++ [10%N] ++ lit "VCM:wifi_on:turn on wifi") = [].
Proof.
  pose proof (parsers_return_tables ascii_lower ascii_isupper) as (_ & _ & Ha & Hv & Hy).
  split; [| split].
  - apply Ha. vm_compute. reflexivity.
  - apply Hv. vm_compute. reflexivity.
  - apply Hy. vm_compute. lia.
Defined.

(** What [json.loads] returns for [{"i": [5]}] and for [{"commands": 5}]:
    valid JSON of another shape makes either JSON parser raise. *)
Lemma json_parsers_raise_on_other_shape :
  parse_ava_json_format (Some (JDict [(lit "i", JList [JInt 5])])) = Raise AttributeError /\
  parse_vos_json_format ascii_lower (Some (JDict [(lit "commands", JInt 5)])) = Raise TypeError.
Proof. split; vm_compute; reflexivity. Qed.

(** The loader catches what the parser raised and skips the file. *)
Example loader_skips_raising_file :
  try_parse_file ascii_lower ascii_isupper (lit "{")
    (Some (JDict [(lit "i", JList [JInt 5])])) = (None, [AttributeError]).
Proof. vm_compute. reflexivity. Qed.

(** The docstring's example of schema A, with a canonical phrase. *)
Example parse_ava_json_example :
  parse_ava_json_format
    (Some (JDict [(lit "i",
       JList [JDict [(lit "id", JStr (lit "wifi_on"));
                     (lit "c", JStr (lit "turn on wifi"));
                     (lit "s", JList [JStr (lit "wifi on"); JStr (lit "enable wifi")])]])]))
  = Ok [(JStr (lit "wifi_on"),
         [JStr (lit "turn on wifi"); JStr (lit "wifi on"); JStr (lit "enable wifi")])].
Proof. vm_compute. reflexivity. Qed.

(** The docstring's example of schema B. *)
Example parse_vos_json_example :
  parse_vos_json_format ascii_lower
    (Some (JDict [(lit "schema", JStr (lit "vos-1.0"));
                  (lit "commands",
       JList [JDict [(lit "action", JStr (lit "TURN_ON_WIFI"));
                     (lit "cmd", JStr (lit "turn on wifi"));
                     (lit "syn", JList [JStr (lit "wifi on")])]])]))
  = Ok [(JStr (lit "turn_on_wifi"), [JStr (lit "turn on wifi"); JStr (lit "wifi on")])].
Proof. vm_compute. reflexivity. Qed.

(** The legacy scenario of section 8. *)
Example parse_ava_yaml_scenario :
  parse_ava_yaml_format ascii_isupper
    (lit "---" ++ [10%N] ++ lit "meta" ++ [10%N] ++ lit "---" ++ [10%N]
     ++ lit "VCM:wifi_on:turn on wifi" ++ [10%N] ++ lit "---" ++ [10%N])
  = [(lit "wifi_on", [lit "turn on wifi"])].
Proof. vm_compute. reflexivity. Qed.

(** A line that occurs twice gives its example twice. *)
Example parse_ava_yaml_repeated_line :
  parse_ava_yaml_format ascii_isupper
    (lit "---" ++ [10%N] ++ lit "---" ++ [10%N]
     ++ lit "VCM:a:x" ++ [10%N] ++ lit "VCM:a:x" ++ [10%N])
  = [(lit "a", [lit "x"; lit "x"])].
Proof. vm_compute. reflexivity. Qed.

(** Numbers are one key whatever their type: the ids [1] and [1.0]. *)
Example key_eqb_int_float : key_eqb (JInt 1) (JFloat 4607182418800017408) = true.
Proof. vm_compute. reflexivity. Qed.

(** Two entries whose id is NaN give one row: the dict finds the one NaN
    object [json.loads] makes by identity. *)
Example nan_id_one_row :
  parse_ava_json_format
    (Some (JDict [(lit "i",
       JList [ JDict [(lit "id", JFloat 9221120237041090560); (lit "s", JList [JStr (lit "x")])];
               JDict [(lit "id", JFloat 9221120237041090560); (lit "s", JList [JStr (lit "y")])]
             ])]))
  = Ok [(JFloat 9221120237041090560, [JStr (lit "y")])].
Proof. vm_compute. reflexivity. Qed.

End ParserSpec.

(** ** Aggregator *)

Module AggregatorSpec.

Import Aggregator.

Section Numpy.

Variables (vec scalar : Type).
Variable np_zeros : nat -> vec.
Variable np_add : vec -> vec -> vec.
Variable np_div_count : vec -> Z -> vec.
Variable np_div : vec -> scalar -> vec.
Variable np_norm : vec -> scalar.
Variable np_gt0 : scalar -> bool.
Variable np_mean : list vec -> vec.
Variable np_astype_float32 : vec -> vec.
Variable session_run : Tokenizer.TokenizedSequence -> res (hidden_states vec).
Variable tokenizer : Tokenizer.BertTokenizer.
Variable lower : str -> str.
Variable str_of_exn : exn -> str.

Local Abbreviation embed :=
  (compute_embedding vec scalar np_zeros np_add np_div_count np_div np_norm np_gt0
     session_run tokenizer lower).
Local Abbreviation step :=
  (embed_example vec scalar np_zeros np_add np_div_count np_div np_norm np_gt0
     session_run tokenizer lower str_of_exn).
Local Abbreviation survivors :=
  (surviving vec scalar np_zeros np_add np_div_count np_div np_norm np_gt0
     session_run tokenizer lower).
Local Abbreviation warned :=
  (warnings vec scalar np_zeros np_add np_div_count np_div np_norm np_gt0
     session_run tokenizer lower str_of_exn).

(** The loop keeps the successful embeddings and prints one warning per
    failing example, both in the order of the examples. *)
Lemma embed_loop (examples : list str) (embeddings : list vec) (printed : list str) :
  fold_left step examples (embeddings, printed)
  = (embeddings ++ survivors examples, printed ++ warned examples).
Proof.
  revert embeddings printed.
  induction examples as [| example rest IH]; intros embeddings printed.
  - simpl. by rewrite !app_nil_r.
  - cbn [fold_left]. unfold surviving, warnings. cbn [omap list_omap].
    unfold embed_example at 2.
    destruct (embed example) as [emb | e]; rewrite IH; cbn [mbind option_bind];
      by rewrite <- ?app_assoc.
Qed.


End Numpy.

End AggregatorSpec.

(** ** UTF-8 *)

Module Utf8Spec.

Import Utf8.

Ltac ndiv := zify; Z.to_euclidean_division_equations; lia.

(** Decide every comparison in the goal, discarding the impossible side. *)
Ltac decide_comparisons :=
  repeat match goal with
    | |- context [N.ltb ?a ?b] =>
        destruct (N.ltb_spec a b); [try (exfalso; ndiv) | try (exfalso; ndiv)]
    | |- context [N.leb ?a ?b] =>
        destruct (N.leb_spec a b); [try (exfalso; ndiv) | try (exfalso; ndiv)]
    end.

Lemma decode_encode_cp (c : N) (bs rest : list N) :
  encode_cp c = Some bs -> decode (bs ++ rest) = cons c <$> decode rest.
Proof.
  unfold encode_cp.
  destruct (N.ltb_spec c 128); [intros [= <-] |].
  { cbn [app decode]. decide_comparisons. reflexivity. }
  destruct (N.ltb_spec c 2048); [intros [= <-] |].
  { cbn [app decode]. unfold is_cont. decide_comparisons. cbn [negb andb].
    f_equal. f_equal. ndiv. }
  destruct (N.ltb_spec c 65536).
  { destruct (N.leb_spec 55296 c); destruct (N.leb_spec c 57343); cbn [andb];
      try discriminate; intros [= <-];
      cbn [app decode]; unfold is_cont; decide_comparisons; cbn [negb andb orb];
      f_equal; f_equal; ndiv. }
  destruct (N.ltb_spec c 1114112); [intros [= <-] | discriminate].
  cbn [app decode]. unfold is_cont. decide_comparisons. cbn [negb andb orb].
  f_equal. f_equal. ndiv.
Qed.

(** Decoding what [encode] produced gives the string back. *)
Lemma utf8_decode_encode (s : str) (bs : list N) :
  encode s = Ok bs -> decode bs = Some s.
Proof.
  revert bs. induction s as [| c s IH]; intros bs; simpl.
  - by intros [= <-].
  - destruct (encode_cp c) as [cb |] eqn:Ec; [| discriminate].
    destruct (encode s) as [rest | e]; [| discriminate].
    intros [= <-]. rewrite (decode_encode_cp _ _ _ Ec), (IH rest eq_refl). reflexivity.
Qed.

(** Every string of scalar values encodes. *)
Lemma utf8_encode_total (s : str) :
  Forall (fun c => (c < 55296 \/ 57343 < c < 1114112)%N) s -> exists bs, encode s = Ok bs.
Proof.
  induction 1 as [| c s Hc _ [rest IH]]; [by exists [] |].
  simpl. rewrite IH. unfold encode_cp.
  repeat match goal with
    | |- context [N.ltb ?a ?b] => destruct (N.ltb_spec a b)
    | |- context [N.leb ?a ?b] => destruct (N.leb_spec a b)
    end; cbn [andb]; try (eexists; reflexivity); exfalso; lia.
Qed.

End Utf8Spec.

(** ** Binary codec *)

Module AotSpec.

Import Aot AotReader.

Ltac ndiv := zify; Z.to_euclidean_division_equations; lia.

Lemma unpack_le32 (n : N) (rest : bytes) :
  (n < 2 ^ 32)%N -> unpack_I (le32 n ++ rest) = Some (n, rest).
Proof.
  intros Hn. unfold le32. cbn [app unpack_I]. f_equal. f_equal.
  change (2 ^ 32)%N with 4294967296%N in Hn. ndiv.
Qed.

Lemma pack_I_ok (n : Z) (b : bytes) :
  pack_I n = Ok b -> 0 <= n < 2 ^ 32 /\ b = le32 (Z.to_N n).
Proof.
  unfold pack_I.
  destruct (Z.leb_spec 0 n); destruct (Z.ltb_spec n (2 ^ 32)); cbn [andb];
    intros [= <-]; split; [lia | reflexivity].
Qed.

Lemma pack_I_nat (n : nat) :
  Z.of_nat n < 2 ^ 32 -> pack_I (Z.of_nat n) = Ok (le32 (N.of_nat n)).
Proof.
  intros Hn. unfold pack_I.
  destruct (Z.leb_spec 0 (Z.of_nat n)); [| lia].
  destruct (Z.ltb_spec (Z.of_nat n) (2 ^ 32)); [| lia].
  cbn [andb]. by rewrite <- nat_N_Z, N2Z.id.
Qed.

Lemma length_ljust32 (b : bytes) : length (ljust32 b) = 32%nat.
Proof. unfold ljust32. rewrite length_app, length_replicate, length_take. lia. Qed.

(** One record written to the file. *)
Lemma write_record_run (r : record) (f : bytes) :
  write_record r f
  = match record_bytes r with
    | Ok b => (Ok tt, f ++ b)
    | Raise e => (Raise e, f)
    end.
Proof.
  destruct r as [intent_id [embedding example_count]].
  unfold write_record, record_bytes, mbind, file_io_bind, res_bind, eval, write, tobytes.
  destruct (Utf8.encode intent_id) as [ib | e]; [| reflexivity].
  destruct (pack_I (Z.of_nat (length ib))) as [len | e]; [| reflexivity].
  by rewrite <- !app_assoc.
Qed.

(** All records written to the file: on success the file grows by the
    records' layouts, in order. *)
Lemma write_records_run (embeddings : list record) (f : bytes) :
  match records_bytes embeddings with
  | Ok b => write_records embeddings f = (Ok tt, f ++ b)
  | Raise e => exists f', write_records embeddings f = (Raise e, f')
  end.
Proof.
  revert f. induction embeddings as [| r rest IH]; intros f; cbn [records_bytes write_records].
  - by rewrite app_nil_r.
  - unfold mbind, file_io_bind, res_bind. rewrite write_record_run.
    destruct (record_bytes r) as [b | e]; [| by eexists].
    specialize (IH (f ++ b)).
    destruct (records_bytes rest) as [bs | e].
    + by rewrite IH, <- app_assoc.
    + exact IH.
Qed.

(** [generate_aot] writes the layout of section 4.4 and nothing else. *)
Lemma generate_aot_run (embeddings : list record) (model_version : str) :
  match container_bytes embeddings model_version with
  | Ok b => generate_aot embeddings model_version [] = (Ok tt, b)
  | Raise e => exists f', generate_aot embeddings model_version [] = (Raise e, f')
  end.
Proof.
  unfold generate_aot, container_bytes, VERSION, MAGIC.
  unfold mbind, file_io_bind, res_bind, eval, write. cbn [app].
  replace (match embeddings with
           | [] => 384
           | (_, (embedding, _)) :: _ => Z.of_nat (length embedding)
           end) with (Z.of_nat (header_dimension embeddings))
    by (destruct embeddings as [| [? [? ?]] ?]; reflexivity).
  destruct (pack_I 1) as [version | e]; [| by eexists].
  destruct (pack_I (Z.of_nat (length embeddings))) as [n | e]; [| by eexists].
  destruct (pack_I (Z.of_nat (header_dimension embeddings))) as [d | e]; [| by eexists].
  destruct (Utf8.encode model_version) as [model_utf8 | e]; [| by eexists].
  pose proof (write_records_run embeddings
                (65%N :: 79%N :: 84%N :: 0%N :: version ++ n ++ d ++ ljust32 model_utf8)) as Hrun.
  rewrite <- !app_assoc.
  destruct (records_bytes embeddings) as [body | e].
  - cbn [app] in Hrun. rewrite <- !app_assoc in Hrun. exact Hrun.
  - exact Hrun.
Qed.

Lemma encode_container (embeddings : list record) (model_version : str) :
  encode embeddings model_version
  = match container_bytes embeddings model_version with
    | Ok b => Some b
    | Raise _ => None
    end.
Proof.
  unfold encode. pose proof (generate_aot_run embeddings model_version) as H.
  destruct (container_bytes embeddings model_version) as [b | e].
  - by rewrite H.
  - destruct H as [f' ->]. reflexivity.
Qed.

(** The file is complete when both strings are free of surrogates and the
    lengths fit a u32. *)
Lemma records_bytes_total (embeddings : list record) :
  Forall (fun r => exists ib, Utf8.encode (fst r) = Ok ib /\ Z.of_nat (length ib) < 2 ^ 32)
         embeddings ->
  exists body, records_bytes embeddings = Ok body.
Proof.
  induction 1 as [| [intent_id [embedding n]] rest (ib & Hib & Hlen) _ [body IH]];
    [by exists [] |].
  cbn [records_bytes record_bytes fst] in *. unfold mbind, res_bind.
  rewrite Hib, (pack_I_nat _ Hlen), IH. by eexists.
Qed.

Lemma records_bytes_ok (embeddings : list record) (body : bytes) :
  records_bytes embeddings = Ok body ->
  exists ids_utf8 : list bytes,
    Forall2 (fun r ib => Utf8.encode (fst r) = Ok ib /\ Z.of_nat (length ib) < 2 ^ 32)
            embeddings ids_utf8 /\
    body = concat (zip_with
                     (fun r ib => le32 (N.of_nat (length ib)) ++ ib ++ flat_map le32 (fst (snd r)))
                     embeddings ids_utf8).
Proof.
  revert body. induction embeddings as [| [intent_id [embedding n]] rest IH]; intros body.
  - intros [= <-]. exists []. split; [constructor | reflexivity].
  - cbn [records_bytes record_bytes]. unfold mbind, res_bind.
    destruct (Utf8.encode intent_id) as [ib | e] eqn:Hib; [| discriminate].
    destruct (pack_I (Z.of_nat (length ib))) as [len | e] eqn:Hlen; [| discriminate].
    destruct (records_bytes rest) as [bs | e]; [| discriminate].
    intros [= <-]. apply pack_I_ok in Hlen as [Hrange ->].
    destruct (IH bs eq_refl) as (ids & Hids & ->).
    exists (ib :: ids). split.
    + constructor; [split; [exact Hib | lia] | exact Hids].
    + cbn [zip_with concat fst snd]. by rewrite <- nat_N_Z, N2Z.id.
Qed.

(** [generate_aot] completes when the strings are free of surrogates and
    every length fits a u32. *)
Lemma encode_total (embeddings : list record) (model_version : str) :
  (exists b, Utf8.encode model_version = Ok b) ->
  Forall (fun r => exists ib, Utf8.encode (fst r) = Ok ib /\ Z.of_nat (length ib) < 2 ^ 32)
         embeddings ->
  Z.of_nat (length embeddings) < 2 ^ 32 ->
  Z.of_nat (header_dimension embeddings) < 2 ^ 32 ->
  exists content, encode embeddings model_version = Some content.
Proof.
  intros [b Hb] Hrecs Hn Hd. rewrite encode_container.
  destruct (records_bytes_total _ Hrecs) as [body Hbody].
  unfold container_bytes, mbind, res_bind.
  change (pack_I 1) with (Ok (le32 1)).
  rewrite (pack_I_nat _ Hn), (pack_I_nat _ Hd), Hb, Hbody. by eexists.
Qed.

(** A buffer that does not start with the magic is refused. *)
Lemma decode_wrong_magic (b : bytes) : take 4 b <> MAGIC -> decode b = Raise FormatError.
Proof.
  intros H. unfold decode, read_container. by rewrite bool_decide_eq_false_2.
Qed.

(** C4.  For a non-empty table whose file is written in full, the content
    is: the magic "AOT\0"; the u32 format version 1; the u32 record count; the
    u32 dimension of the first record's vector; the model-version string in
    UTF-8, cut to 32 bytes and padded with zero bytes; then, record by record
    in the table's order, the u32 byte length of the id, the id in UTF-8 and
    the vector's float32 components in order; all numbers little-endian. *)
Theorem generate_aot_layout (r0 : record) (rest : list record) (model_version : str)
    (content : bytes) :
  encode (r0 :: rest) model_version = Some content ->
  exists (model_utf8 : bytes) (ids_utf8 : list bytes),
    Utf8.encode model_version = Ok model_utf8 /\
    Forall2 (fun r ib => Utf8.encode (fst r) = Ok ib /\ Z.of_nat (length ib) < 2 ^ 32)
            (r0 :: rest) ids_utf8 /\
    content
    = [65; 79; 84; 0]%N
      ++ le32 1
      ++ le32 (N.of_nat (length (r0 :: rest)))
      ++ le32 (N.of_nat (length (fst (snd r0))))
      ++ (take 32 model_utf8 ++ replicate (32 - length (take 32 model_utf8)) 0%N)
      ++ concat (zip_with
                   (fun r ib => le32 (N.of_nat (length ib)) ++ ib ++ flat_map le32 (fst (snd r)))
                   (r0 :: rest) ids_utf8).
Proof.
  rewrite encode_container. unfold container_bytes, mbind, res_bind.
  change (pack_I 1) with (Ok (le32 1)).
  destruct (pack_I (Z.of_nat (length (r0 :: rest)))) as [n | e] eqn:Hn; [| discriminate].
  destruct (pack_I (Z.of_nat (header_dimension (r0 :: rest)))) as [d | e] eqn:Hd;
    [| discriminate].
  destruct (Utf8.encode model_version) as [model_utf8 | e]; [| discriminate].
  destruct (records_bytes (r0 :: rest)) as [body | e] eqn:Hbody; [| discriminate].
  intros [= <-].
  apply pack_I_ok in Hn as [_ ->]. apply pack_I_ok in Hd as [_ ->].
  destruct (records_bytes_ok _ _ Hbody) as (ids & Hids & ->).
  exists model_utf8, ids. split; [reflexivity |]. split; [exact Hids |].
  rewrite <- !nat_N_Z, !N2Z.id. destruct r0 as [id0 [e0 n0]]. reflexivity.
Qed.

(** C10.  For the empty table the file is the 48-byte header alone: magic,
    version 1, record count 0, dimension 384, and the 32 bytes of the model
    version. *)
Theorem generate_aot_empty (model_version : str) (model_utf8 : bytes) :
  Utf8.encode model_version = Ok model_utf8 ->
  exists content,
    generate_aot [] model_version [] = (Ok tt, content) /\
    content
    = [65; 79; 84; 0;  1; 0; 0; 0;  0; 0; 0; 0;  128; 1; 0; 0]%N
      ++ (take 32 model_utf8 ++ replicate (32 - length (take 32 model_utf8)) 0%N) /\
    length content = 48%nat.
Proof.
  intros Hmv. pose proof (generate_aot_run [] model_version) as Hrun.
  unfold container_bytes, mbind, res_bind in Hrun. rewrite Hmv in Hrun.
  change (pack_I 1) with (Ok (le32 1)) in Hrun.
  change (pack_I (Z.of_nat (length (@nil record)))) with (Ok (le32 0)) in Hrun.
  change (pack_I (Z.of_nat (header_dimension []))) with (Ok (le32 384)) in Hrun.
  cbn [records_bytes] in Hrun. rewrite app_nil_r in Hrun.
  eexists. split; [exact Hrun |]. split; [reflexivity |].
  rewrite !length_app. fold (ljust32 model_utf8). rewrite length_ljust32. reflexivity.
Qed.

Lemma read_vector_tobytes (v : list N) (rest : bytes) :
  Forall is_float32 v ->
  read_vector (length v) (flat_map le32 v ++ rest) = Some (v, rest).
Proof.
  induction 1 as [| x v Hx _ IH]; [reflexivity |].
  cbn [length flat_map read_vector]. rewrite <- app_assoc, (unpack_le32 _ _ Hx).
  cbn [mbind option_bind]. rewrite IH. reflexivity.
Qed.

Lemma read_record_layout (D : nat) (r : record) (ib rest : bytes) :
  record_of_dimension D r ->
  Utf8.encode (fst r) = Ok ib ->
  Z.of_nat (length ib) < 2 ^ 32 ->
  read_record D ((le32 (N.of_nat (length ib)) ++ ib ++ flat_map le32 (fst (snd r))) ++ rest)
  = Some ((fst r, fst (snd r)), rest).
Proof.
  intros [HD Hv] Hib Hlen. unfold read_record.
  rewrite <- !app_assoc, unpack_le32 by (change (2 ^ 32)%N with (Z.to_N (2 ^ 32)); lia).
  cbn [mbind option_bind]. rewrite Nat2N.id.
  destruct (Nat.ltb_spec (length (ib ++ flat_map le32 (fst (snd r)) ++ rest)) (length ib))
    as [Hshort | _]; [rewrite length_app in Hshort; lia |].
  rewrite take_app_length, drop_app_length, (Utf8Spec.utf8_decode_encode _ _ Hib).
  cbn [mbind option_bind]. rewrite <- HD, (read_vector_tobytes _ _ Hv). reflexivity.
Qed.

Lemma read_records_layout (D : nat) (embeddings : list record) (body rest : bytes) :
  Forall (record_of_dimension D) embeddings ->
  records_bytes embeddings = Ok body ->
  read_records (length embeddings) D (body ++ rest)
  = Some (map (fun r => (fst r, fst (snd r))) embeddings, rest).
Proof.
  intros Hall. revert body.
  induction Hall as [| r rs Hr _ IH]; intros body Hbody.
  - injection Hbody as <-. reflexivity.
  - destruct (records_bytes_ok _ _ Hbody) as (ids & Hids & Hshape).
    inversion Hids as [| ? ib ? ids' [Hib Hlen] Hids' ]; subst.
    cbn [records_bytes] in Hbody. unfold mbind, res_bind in Hbody.
    destruct (record_bytes r) as [b |]; [| discriminate].
    destruct (records_bytes rs) as [bs |] eqn:Hbs; [| discriminate].
    destruct (records_bytes_ok _ _ Hbs) as (ids'' & Hids'' & ->).
    cbn [length read_records zip_with concat].
    rewrite <- app_assoc, (read_record_layout D r ib _ Hr Hib Hlen).
    cbn [mbind option_bind].
    assert (ids'' = ids') as ->.
    { clear -Hids' Hids''. revert ids'' Hids''.
      induction Hids' as [| ? ? ? ? [H1 _] _ IH']; intros ids'' Hids''.
      - by inversion Hids''.
      - inversion Hids'' as [| ? ? ? ? [H2 _] Hrest]; subst. f_equal.
        + congruence.
        + by apply IH'. }
    rewrite (IH _ eq_refl). reflexivity.
Qed.

(** C3.  For a table whose vectors are float32 arrays of one dimension,
    reading back the bytes [encode] produced gives the records again: the same
    ids with the same vectors, bit for bit, in the same order. *)
Theorem decode_encode_roundtrip (D : nat) (embeddings : list record) (model_version : str)
    (content : bytes) :
  Forall (record_of_dimension D) embeddings ->
  encode embeddings model_version = Some content ->
  exists c,
    decode content = Ok c /\
    records c = map (fun r => (fst r, fst (snd r))) embeddings /\
    count c = N.of_nat (length embeddings) /\
    dimension c = N.of_nat (header_dimension embeddings).
Proof.
  intros Hall. rewrite encode_container. unfold container_bytes, mbind, res_bind.
  change (pack_I 1) with (Ok (le32 1)).
  destruct (pack_I (Z.of_nat (length embeddings))) as [n | e] eqn:Hn; [| discriminate].
  destruct (pack_I (Z.of_nat (header_dimension embeddings))) as [d | e] eqn:Hd; [| discriminate].
  destruct (Utf8.encode model_version) as [model_utf8 | e]; [| discriminate].
  destruct (records_bytes embeddings) as [body | e] eqn:Hbody; [| discriminate].
  apply pack_I_ok in Hn as [Hn ->]. apply pack_I_ok in Hd as [Hd ->].
  replace (Z.to_N (Z.of_nat (length embeddings))) with (N.of_nat (length embeddings)) by lia.
  replace (Z.to_N (Z.of_nat (header_dimension embeddings)))
    with (N.of_nat (header_dimension embeddings)) by lia.
  set (tail := le32 1 ++ _).
  intros Hcontent. replace content with ([65; 79; 84; 0]%N ++ tail) by congruence. clear Hcontent.
  assert (Hdim : embeddings <> [] -> header_dimension embeddings = D).
  { destruct Hall as [| [id0 [e0 n0]] rs [H0 _] _]; [done | intros _; exact H0]. }
  unfold decode, read_container, MAGIC. cbn [app take drop].
  rewrite bool_decide_eq_true_2 by reflexivity. subst tail. rewrite drop_0.
  rewrite unpack_le32 by reflexivity. cbn [mbind option_bind].
  change (1 =? 1)%N with true. cbv iota.
  rewrite unpack_le32 by (change (2 ^ 32)%N with (Z.to_N (2 ^ 32)); lia).
  cbn [mbind option_bind].
  rewrite unpack_le32 by (change (2 ^ 32)%N with (Z.to_N (2 ^ 32)); lia).
  cbn [mbind option_bind].
  destruct (Nat.ltb_spec (length (ljust32 model_utf8 ++ body)) 32) as [Hshort | _];
    [rewrite length_app, length_ljust32 in Hshort; lia |].
  assert (Hdrop : drop 32 (ljust32 model_utf8 ++ body) = body).
  { rewrite <- (length_ljust32 model_utf8) at 1. apply drop_app_length. }
  assert (Htake : take 32 (ljust32 model_utf8 ++ body) = ljust32 model_utf8).
  { rewrite <- (length_ljust32 model_utf8) at 1. apply take_app_length. }
  rewrite Hdrop, Htake, !Nat2N.id.
  rewrite <- (app_nil_r body).
  destruct (decide (embeddings = [])) as [-> | Hne].
  - injection Hbody as <-. cbn [length read_records mbind option_bind app].
    eexists. split; [reflexivity |]. by cbn.
  - rewrite (Hdim Hne), (read_records_layout D embeddings _ [] Hall Hbody).
    cbn [mbind option_bind]. eexists. split; [reflexivity |]. by cbn [records count dimension].
Qed.

(** The codec scenario of section 8. *)
Lemma decode_encode_roundtrip_witness :
  exists c,
    decode [65; 79; 84; 0;  1; 0; 0; 0;  1; 0; 0; 0;  2; 0; 0; 0;
            109; 49; 0; 0; 0; 0; 0; 0; 0; 0; 0; 0; 0; 0; 0; 0;
            0; 0; 0; 0; 0; 0; 0; 0; 0; 0; 0; 0; 0; 0; 0; 0;
            7; 0; 0; 0;  119; 105; 102; 105; 95; 111; 110;
            0; 0; 128; 63;  0; 0; 0; 0]%N = Ok c /\
    records c = [(lit "wifi_on", [1065353216; 0]%N)] /\
    count c = 1%N /\
    dimension c = 2%N.
Proof.
  apply (decode_encode_roundtrip 2 Samples.wifi_on_table (lit "m1")).
  - repeat constructor.
  - vm_compute. reflexivity.
Defined.

Lemma generate_aot_layout_witness :
  exists (model_utf8 : bytes) (ids_utf8 : list bytes),
    Utf8.encode (lit "m1") = Ok model_utf8 /\
    Forall2 (fun r ib => Utf8.encode (fst r) = Ok ib /\ Z.of_nat (length ib) < 2 ^ 32)
            Samples.wifi_on_table ids_utf8 /\
    [65; 79; 84; 0;  1; 0; 0; 0;  1; 0; 0; 0;  2; 0; 0; 0;
     109; 49; 0; 0; 0; 0; 0; 0; 0; 0; 0; 0; 0; 0; 0; 0;
     0; 0; 0; 0; 0; 0; 0; 0; 0; 0; 0; 0; 0; 0; 0; 0;
     7; 0; 0; 0;  119; 105; 102; 105; 95; 111; 110;
     0; 0; 128; 63;  0; 0; 0; 0]%N
    = [65; 79; 84; 0]%N
      ++ le32 1 ++ le32 1 ++ le32 2
      ++ (take 32 model_utf8 ++ replicate (32 - length (take 32 model_utf8)) 0%N)
      ++ concat (zip_with
                   (fun r ib => le32 (N.of_nat (length ib)) ++ ib ++ flat_map le32 (fst (snd r)))
                   Samples.wifi_on_table ids_utf8).
Proof.
  apply (generate_aot_layout (lit "wifi_on", ([1065353216%N; 0%N], 1)) [] (lit "m1")).
  vm_compute. reflexivity.
Defined.

Lemma generate_aot_empty_witness :
  exists content,
    generate_aot [] (lit "m1") [] = (Ok tt, content) /\
    content
    = [65; 79; 84; 0;  1; 0; 0; 0;  0; 0; 0; 0;  128; 1; 0; 0]%N
      ++ (take 32 [109; 49]%N ++ replicate (32 - length (take 32 [109; 49]%N)) 0%N) /\
    length content = 48%nat.
Proof. apply (generate_aot_empty (lit "m1") [109; 49]%N). vm_compute. reflexivity. Defined.

End AotSpec.

(** ** Relational emitter *)

Module SqlSpec.

Import Sql.

Ltac ndiv := zify; Z.to_euclidean_division_equations; lia.

Lemma append_insert_upsert (locale model_version : str) (run_time : Z)
    (lines : list str) (r : Aot.record) :
  append_insert locale model_version run_time lines r
  = lines ++ [record_upsert locale model_version run_time r; []].
Proof.
  destruct r as [intent_id [embedding example_count]].
  unfold append_insert, record_upsert, upsert_stmt, upsert_lines, upsert_head, insert_sql.
  cbn [fst snd join]. rewrite <- !app_assoc. reflexivity.
Qed.

Lemma fold_append_insert (locale model_version : str) (run_time : Z)
    (embeddings : list Aot.record) (lines : list str) :
  fold_left (append_insert locale model_version run_time) embeddings lines
  = lines ++ flat_map (fun r => [record_upsert locale model_version run_time r; []]) embeddings.
Proof.
  revert lines. induction embeddings as [| r rest IH]; intros lines; cbn [fold_left flat_map].
  - by rewrite app_nil_r.
  - by rewrite IH, append_insert_upsert, <- app_assoc.
Qed.

(** The lines [generate_sql] builds: preamble, the delete, then one upsert
    and one empty line per record. *)
Lemma sql_lines_statements (embeddings : list Aot.record) (model_version locale : str)
    (c : clock) :
  sql_lines embeddings model_version locale c
  = preamble (length embeddings) model_version locale c
    ++ [delete_stmt locale; []; lit "-- Insert pre-computed embeddings"]
    ++ flat_map (fun r => [record_upsert locale model_version (time_ms c) r; []]) embeddings.
Proof. unfold sql_lines. by rewrite fold_append_insert. Qed.

(** *** The characters of the text *)

Lemma encodable_app (a b : str) : encodable (a ++ b) = encodable a && encodable b.
Proof. apply forallb_app. Qed.

Lemma one_line_app (a b : str) : one_line (a ++ b) = one_line a && one_line b.
Proof. unfold one_line, contains. rewrite existsb_app. apply negb_orb. Qed.

Lemma printable_encodable (s : str) :
  Forall (fun c => (32 <= c < 128)%N) s -> encodable s = true.
Proof.
  induction 1 as [| c s Hc _ IH]; [reflexivity |].
  unfold encodable in *. cbn [forallb]. rewrite IH, andb_true_r.
  unfold Utf8.encode_cp. destruct (N.ltb_spec c 128); [reflexivity | lia].
Qed.

Lemma printable_one_line (s : str) :
  Forall (fun c => (32 <= c < 128)%N) s -> one_line s = true.
Proof.
  induction 1 as [| c s Hc _ IH]; [reflexivity |].
  unfold one_line, contains in *. cbn [existsb].
  destruct (N.eqb_spec 10 c); [lia | exact IH].
Qed.

Lemma uint_digits (d : Decimal.uint) :
  Forall (fun c => (32 <= c < 128)%N) (lit (NilEmpty.string_of_uint d)).
Proof.
  induction d; cbn [NilEmpty.string_of_uint lit]; constructor; try exact IHd;
    vm_compute; split; (discriminate || reflexivity).
Qed.

Lemma str_of_int_chars (n : Z) : Forall (fun c => (32 <= c < 128)%N) (str_of_int n).
Proof.
  unfold str_of_int, NilZero.string_of_int, NilZero.string_of_uint.
  destruct (Z.to_int n) as [d | d].
  - destruct d; try apply uint_digits. repeat constructor; vm_compute; congruence.
  - cbn [lit]. constructor; [vm_compute; split; [discriminate | reflexivity] |].
    destruct d; try apply uint_digits. repeat constructor; vm_compute; congruence.
Qed.

Lemma hex_digit_range (d : N) :
  (d < 16)%N -> (48 <= hex_digit d <= 57 \/ 65 <= hex_digit d <= 70)%N.
Proof. intros Hd. unfold hex_digit. destruct (N.ltb_spec d 10); lia. Qed.

Lemma hex_upper_shape (blob : Aot.bytes) :
  Forall (fun b => (b < 256)%N) blob ->
  length (hex_upper blob) = (2 * length blob)%nat /\
  Forall (fun c => (48 <= c <= 57 \/ 65 <= c <= 70)%N) (hex_upper blob).
Proof.
  induction 1 as [| b blob Hb _ [IHl IHf]]; [split; [reflexivity | constructor] |].
  unfold hex_upper in *. cbn [flat_map app length]. split; [lia |].
  constructor; [apply hex_digit_range; ndiv |].
  constructor; [apply hex_digit_range; ndiv | exact IHf].
Qed.

Lemma pack_f_bytes (x : N) : length (pack_f x) = 4%nat /\ Forall (fun b => (b < 256)%N) (pack_f x).
Proof.
  unfold pack_f, Aot.le32. split; [reflexivity |].
  repeat constructor; apply N.mod_lt; discriminate.
Qed.

Lemma blob_bytes (embedding : list N) :
  length (embedding_to_blob embedding) = (4 * length embedding)%nat /\
  Forall (fun b => (b < 256)%N) (embedding_to_blob embedding).
Proof.
  induction embedding as [| x rest [IHl IHf]]; [split; [reflexivity | constructor] |].
  unfold embedding_to_blob in *. cbn [flat_map length].
  destruct (pack_f_bytes x) as [Hl Hf]. split.
  - rewrite length_app, Hl, IHl. lia.
  - apply Forall_app. by split.
Qed.

Lemma blob_to_hex_chars (embedding : list N) :
  Forall (fun c => (32 <= c < 128)%N) (blob_to_hex (embedding_to_blob embedding)).
Proof.
  unfold blob_to_hex.
  destruct (hex_upper_shape (embedding_to_blob embedding)) as [_ Hf]; [apply blob_bytes |].
  apply Forall_app. split; [repeat constructor; vm_compute; congruence |].
  apply Forall_app. split; [| repeat constructor; vm_compute; congruence].
  eapply Forall_impl; [exact Hf |]. cbn beta. lia.
Qed.

Lemma encodable_join (lines : list str) : encodable (join nl lines) = forallb encodable lines.
Proof.
  induction lines as [| p [| q rest] IH]; [reflexivity | |].
  - cbn [join forallb]. by rewrite andb_true_r.
  - change (join nl (p :: q :: rest)) with (p ++ nl ++ join nl (q :: rest)).
    rewrite !encodable_app, IH. reflexivity.
Qed.

Lemma encode_encodable (s : str) :
  if encodable s then exists b, Utf8.encode s = Ok b
  else Utf8.encode s = Raise UnicodeEncodeError.
Proof.
  induction s as [| c s IH]; [by exists [] |].
  unfold encodable in *. cbn [forallb Utf8.encode].
  destruct (Utf8.encode_cp c) as [bs |]; [| reflexivity]. cbn [andb].
  destruct (forallb _ s).
  - destruct IH as [b ->]. by eexists.
  - by rewrite IH.
Qed.

(** Replaces the tests on literals by their value. *)
Ltac literals :=
  repeat match goal with
         | |- context [encodable (lit ?s)] => change (encodable (lit s)) with true
         | |- context [one_line (lit ?s)] => change (one_line (lit s)) with true
         | |- context [encodable []] => change (encodable []) with true
         | |- context [one_line []] => change (one_line []) with true
         end.

Section Text.

Variables (model_version locale : str) (c : clock).

Lemma encodable_upsert (r : Aot.record) :
  encodable (record_upsert locale model_version (time_ms c) r)
  = encodable (fst r) && encodable locale && encodable model_version.
Proof.
  unfold record_upsert, upsert_stmt. rewrite encodable_join.
  unfold upsert_lines, upsert_head. cbn [forallb]. rewrite !encodable_app.
  rewrite !(printable_encodable _ (str_of_int_chars _)).
  rewrite (printable_encodable _ (blob_to_hex_chars _)).
  literals. by destruct (encodable (fst r)), (encodable locale), (encodable model_version).
Qed.

Lemma encodable_upserts (embeddings : list Aot.record) :
  encodable locale = true -> encodable model_version = true ->
  forallb encodable
    (flat_map (fun r => [record_upsert locale model_version (time_ms c) r; []]) embeddings)
  = forallb encodable (map fst embeddings).
Proof.
  intros Hl Hm. induction embeddings as [| r rest IH]; [reflexivity |].
  cbn [flat_map app forallb map]. rewrite IH, encodable_upsert, Hl, Hm.
  literals. by rewrite !andb_true_r.
Qed.

(** The text can be encoded exactly when the strings put into it can. *)
Lemma encodable_text (embeddings : list Aot.record) :
  encodable (join nl (sql_lines embeddings model_version locale c))
  = forallb encodable (interpolated embeddings model_version locale c).
Proof.
  rewrite sql_lines_statements, encodable_join, !forallb_app.
  unfold preamble, delete_stmt, interpolated. cbn [forallb]. rewrite !encodable_app.
  rewrite !(printable_encodable _ (str_of_int_chars _)). literals.
  destruct (encodable model_version) eqn:Hm; [| reflexivity].
  destruct (encodable locale) eqn:Hl; [| reflexivity].
  rewrite encodable_upserts by done.
  by destruct (encodable (strftime c)).
Qed.

End Text.

(** *** The lines of the text *)

Lemma split_on_sep (sep : N) (a b cur : str) :
  split_on sep (a ++ sep :: b) cur = split_on sep a cur ++ split_on sep b [].
Proof.
  revert cur. induction a as [| x a IH]; intros cur; cbn [app split_on].
  - by rewrite N.eqb_refl.
  - destruct (x =? sep)%N; [by rewrite IH | apply IH].
Qed.

Lemma text_lines_one_line (s : str) : one_line s = true -> text_lines s = [s].
Proof.
  unfold text_lines. change s with ([] ++ s) at 3. generalize (@nil N) as cur.
  induction s as [| x s IH]; intros cur Hs; cbn [split_on]; [by rewrite app_nil_r |].
  unfold one_line, contains in *. cbn [existsb] in Hs.
  rewrite N.eqb_sym. destruct (10 =? x)%N; [discriminate |].
  rewrite IH by exact Hs. by rewrite <- app_assoc.
Qed.

Lemma text_lines_join (lines : list str) :
  lines <> [] -> text_lines (join nl lines) = flat_map text_lines lines.
Proof.
  intros Hne. induction lines as [| p [| q rest] IH]; [done | |].
  - cbn [join flat_map]. by rewrite app_nil_r.
  - change (join nl (p :: q :: rest)) with (p ++ 10%N :: join nl (q :: rest)).
    unfold text_lines at 1. rewrite split_on_sep. cbn [flat_map]. f_equal. by apply IH.
Qed.

Lemma text_lines_lines (lines : list str) :
  forallb one_line lines = true -> flat_map text_lines lines = lines.
Proof.
  induction lines as [| p rest IH]; [reflexivity |]. cbn [forallb flat_map].
  intros [Hp Hrest]%andb_prop. by rewrite (text_lines_one_line p Hp), IH.
Qed.

Section Lines.

Variables (model_version locale : str) (c : clock).

Hypothesis one_line_model_version : one_line model_version = true.
Hypothesis one_line_locale : one_line locale = true.
Hypothesis one_line_strftime : one_line (strftime c) = true.

Lemma text_lines_upsert (r : Aot.record) :
  one_line (fst r) = true ->
  text_lines (record_upsert locale model_version (time_ms c) r)
  = upsert_lines (fst r) locale (blob_to_hex (embedding_to_blob (fst (snd r))))
      (Z.of_nat (length (fst (snd r)))) model_version (lit "L2")
      (time_ms c) (time_ms c) (snd (snd r)) (lit "BUNDLED_APK").
Proof.
  intros Hid. unfold record_upsert, upsert_stmt.
  rewrite text_lines_join by discriminate. apply text_lines_lines.
  unfold upsert_lines, upsert_head. cbn [forallb]. rewrite !one_line_app.
  rewrite !(printable_one_line _ (str_of_int_chars _)).
  rewrite (printable_one_line _ (blob_to_hex_chars _)).
  literals. by rewrite Hid, one_line_locale, one_line_model_version.
Qed.

Lemma heads_upserts (embeddings : list Aot.record) :
  forallb one_line (map fst embeddings) = true ->
  filter (fun line => is_delete line || is_upsert line = true)
    (flat_map text_lines
       (flat_map (fun r => [record_upsert locale model_version (time_ms c) r; []]) embeddings))
  = map (fun _ => upsert_head) embeddings.
Proof.
  induction embeddings as [| r rest IH]; [reflexivity |].
  cbn [map forallb flat_map app]. intros [Hr Hrest]%andb_prop.
  rewrite (text_lines_upsert r Hr), !filter_app, (IH Hrest).
  reflexivity.
Qed.

(** The lines of the text that begin a statement: the delete, then one
    [INSERT] line per record. *)
Lemma heads_text (embeddings : list Aot.record) :
  forallb one_line (map fst embeddings) = true ->
  statement_heads (join nl (sql_lines embeddings model_version locale c))
  = delete_stmt locale :: map (fun _ => upsert_head) embeddings.
Proof.
  intros Hids. unfold statement_heads.
  rewrite sql_lines_statements, text_lines_join by discriminate.
  rewrite !flat_map_app, !filter_app, (heads_upserts embeddings Hids).
  rewrite (text_lines_lines (preamble _ _ _ _)).
  2:{ unfold preamble. cbn [forallb]. rewrite !one_line_app.
      rewrite !(printable_one_line _ (str_of_int_chars _)). literals.
      by rewrite one_line_locale, one_line_model_version, one_line_strftime. }
  rewrite (text_lines_lines [delete_stmt locale; []; lit "-- Insert pre-computed embeddings"]).
  2:{ unfold delete_stmt. cbn [forallb]. rewrite !one_line_app. literals.
      by rewrite one_line_locale. }
  reflexivity.
Qed.

End Lines.

(** *** The run *)

(** C8, as the code has it.  [generate_sql] builds, from the records, the
    model version, the locale and the clock, the text whose lines are the
    comment preamble, one delete statement scoped to source 'BUNDLED_APK' and
    the locale, and one upsert per record in the table's order, every upsert
    carrying the one run timestamp in both its created and updated fields.
    The function does the I/O itself: it prints a line, creates the parent
    directory, opens the file, writes the text and prints a second line.
    When one of the strings put into the text (an id, the model version, the
    locale) holds a code point UTF-8 cannot encode, the write raises
    [UnicodeEncodeError]: the file is left empty and the second line is not
    printed.  Whatever the console and the file system do, the requests
    carried out are the first [k] of these five, all five exactly when the
    call returns.  When none of the strings holds a line break, the lines of
    the text that begin a statement are the delete line followed by one
    [INSERT] line per record. *)
Theorem generate_sql_statements (env : environment) (embeddings : list Aot.record)
    (model_version output_path locale : str) (c : clock) :
  let lines :=
    preamble (length embeddings) model_version locale c
    ++ [delete_stmt locale; []; lit "-- Insert pre-computed embeddings"]
    ++ flat_map (fun r => [record_upsert locale model_version (time_ms c) r; []]) embeddings in
  let text := join nl lines in
  let before :=
    [ Print (lit "Generating SQL: " ++ output_path);
      MkdirParent output_path;
      OpenWrite output_path ] in
  let after :=
    [ WriteText output_path text;
      Print (lit "  Generated " ++ str_of_int (Z.of_nat (length embeddings))
             ++ lit " INSERT statements") ] in
  let strings := interpolated embeddings model_version locale c in
  let run := generate_sql env embeddings model_version output_path locale c in
  (Forall (fun ev => env ev = None) (before ++ after) ->
   forallb encodable strings = true ->
   run = (Ok tt, before ++ after)) /\
  (Forall (fun ev => env ev = None) before ->
   forallb encodable strings = false ->
   run = (Raise UnicodeEncodeError, before)) /\
  (exists k : nat,
     snd run = take k (before ++ after) /\
     (fst run = Ok tt <-> k = 5%nat) /\
     ((3 < k)%nat -> forallb encodable strings = true)) /\
  (forallb one_line strings = true ->
   statement_heads text = delete_stmt locale :: map (fun _ => upsert_head) embeddings).
Proof.
  intros lines text before after strings run.
  assert (Htext : join nl (sql_lines embeddings model_version locale c) = text).
  { by rewrite sql_lines_statements. }
  assert (Hencode := encode_encodable text).
  rewrite <- Htext, encodable_text, Htext in Hencode. fold strings in Hencode.
  assert (Hrun : run =
    match env (Print (lit "Generating SQL: " ++ output_path)) with
    | Some e => (Raise e, [])
    | None =>
        match env (MkdirParent output_path) with
        | Some e => (Raise e, take 1 (before ++ after))
        | None =>
            match env (OpenWrite output_path) with
            | Some e => (Raise e, take 2 (before ++ after))
            | None =>
                match Utf8.encode text with
                | Raise e => (Raise e, before)
                | Ok _ =>
                    match env (WriteText output_path text) with
                    | Some e => (Raise e, before)
                    | None =>
                        match env (Print (lit "  Generated "
                                          ++ str_of_int (Z.of_nat (length embeddings))
                                          ++ lit " INSERT statements")) with
                        | Some e => (Raise e, take 4 (before ++ after))
                        | None => (Ok tt, before ++ after)
                        end
                    end
                end
            end
        end
    end).
  { unfold run, generate_sql, mbind, io_bind, request, compute. rewrite Htext.
    destruct (env (Print (lit "Generating SQL: " ++ output_path))); [reflexivity |].
    destruct (env (MkdirParent output_path)); [reflexivity |].
    destruct (env (OpenWrite output_path)); [reflexivity |].
    destruct (Utf8.encode text); [| reflexivity].
    destruct (env (WriteText output_path text)); [reflexivity |].
    destruct (env (Print _)); reflexivity. }
  split; [| split; [| split]].
  - intros Henv Hs. rewrite Hs in Hencode. destruct Hencode as [b Hb].
    unfold before, after in Henv. cbn [app] in Henv. rewrite !Forall_cons in Henv.
    destruct Henv as (H1 & H2 & H3 & H4 & H5 & _).
    by rewrite Hrun, H1, H2, H3, Hb, H4, H5.
  - intros Henv Hs. rewrite Hs in Hencode.
    unfold before in Henv. rewrite !Forall_cons in Henv.
    destruct Henv as (H1 & H2 & H3 & _).
    by rewrite Hrun, H1, H2, H3, Hencode.
  - rewrite Hrun.
    destruct (env (Print (lit "Generating SQL: " ++ output_path)));
      [exists 0%nat; repeat split; (discriminate || lia) |].
    destruct (env (MkdirParent output_path));
      [exists 1%nat; repeat split; (discriminate || lia) |].
    destruct (env (OpenWrite output_path));
      [exists 2%nat; repeat split; (discriminate || lia) |].
    destruct (forallb encodable strings).
    + destruct Hencode as [b ->].
      destruct (env (WriteText output_path text));
        [exists 3%nat; repeat split; (discriminate || lia) |].
      destruct (env (Print _));
        [exists 4%nat; repeat split; (discriminate || lia) |].
      exists 5%nat. repeat split; reflexivity.
    + rewrite Hencode. exists 3%nat. repeat split; (discriminate || lia).
  - unfold strings, interpolated. cbn [forallb].
    intros [Hm [Hl [Hs Hids]%andb_prop]%andb_prop]%andb_prop.
    rewrite <- Htext. by apply heads_text.
Qed.

(** A table with two records, one of them with a signalling NaN, on a
    console and a file system that carry out every request; and the same
    call with a lone surrogate in an id. *)
Lemma generate_sql_statements_witness :
  let c := {| time_ms := 1700000000000; strftime := lit "2023-11-14 22:13:20" |} in
  let table := [(lit "wifi_on", ([1065353216; 0]%N, 1)); (lit "nan", ([2139095041]%N, 2))] in
  let broken := [(lit "wifi_on", ([1065353216; 0]%N, 1)); ([55296%N], ([0]%N, 1))] in
  (exists text,
     generate_sql (fun _ => None) table (lit "m1") (lit "out/e.sq") (lit "en-US") c
     = (Ok tt, [ Print (lit "Generating SQL: out/e.sq");
                 MkdirParent (lit "out/e.sq");
                 OpenWrite (lit "out/e.sq");
                 WriteText (lit "out/e.sq") text;
                 Print (lit "  Generated 2 INSERT statements") ])
     /\ statement_heads text
        = [ lit "DELETE FROM intent_embedding WHERE source = 'BUNDLED_APK' AND locale = 'en-US';";
            lit "INSERT OR REPLACE INTO intent_embedding (";
            lit "INSERT OR REPLACE INTO intent_embedding (" ])
  /\ generate_sql (fun _ => None) broken (lit "m1") (lit "out/e.sq") (lit "en-US") c
     = (Raise UnicodeEncodeError,
        [ Print (lit "Generating SQL: out/e.sq");
          MkdirParent (lit "out/e.sq");
          OpenWrite (lit "out/e.sq") ]).
Proof.
  intros c table broken. split.
  - destruct (generate_sql_statements (fun _ => None) table (lit "m1") (lit "out/e.sq")
                (lit "en-US") c) as (Hok & _ & _ & Hheads).
    eexists. split.
    + apply Hok; [repeat constructor | vm_compute; reflexivity].
    + apply Hheads. vm_compute. reflexivity.
  - destruct (generate_sql_statements (fun _ => None) broken (lit "m1") (lit "out/e.sq")
                (lit "en-US") c) as (_ & Hraise & _ & _).
    apply Hraise; [repeat constructor | vm_compute; reflexivity].
Defined.

(** A call with an empty table still prints, creates the directory, opens
    and writes the file: the function does I/O of its own. *)
Lemma generate_sql_writes_file :
  exists text,
    generate_sql (fun _ => None) [] (lit "m1") (lit "out/embeddings.sq") (lit "en-US")
      {| time_ms := 1700000000000; strftime := lit "2023-11-14 22:13:20" |}
    = (Ok tt, [ Print (lit "Generating SQL: out/embeddings.sq");
                MkdirParent (lit "out/embeddings.sq");
                OpenWrite (lit "out/embeddings.sq");
                WriteText (lit "out/embeddings.sq") text;
                Print (lit "  Generated 0 INSERT statements") ]).
Proof. eexists. vm_compute. reflexivity. Qed.

(** One record: the upsert line in full. *)
Example generate_sql_one_record :
  nth 14 (sql_lines Samples.wifi_on_table (lit "m1") (lit "en-US")
            {| time_ms := 1700000000000; strftime := lit "2023-11-14 22:13:20" |}) []
  = lit "INSERT OR REPLACE INTO intent_embedding (" ++ nl
    ++ lit "    intent_id, locale, embedding_vector, embedding_dimension, model_version," ++ nl
    ++ lit "    normalization_type, ontology_id, created_at, updated_at, example_count, source" ++ nl
    ++ lit ") VALUES (" ++ nl
    ++ lit "    'wifi_on', 'en-US', X'0000803F00000000', 2, 'm1'," ++ nl
    ++ lit "    'L2', NULL, 1700000000000, 1700000000000, 1, 'BUNDLED_APK'" ++ nl
    ++ lit ");".
Proof. vm_compute. reflexivity. Qed.

(** A signalling NaN leaves [struct.pack] with its quiet bit set; every
    other component keeps its four bytes. *)
Example embedding_to_blob_nan :
  blob_to_hex (embedding_to_blob [2139095041; 2143289344; 1065353216; 4286578688]%N)
  = lit "X'0100C07F0000C07F0000803F000080FF'".
Proof. vm_compute. reflexivity. Qed.

End SqlSpec.

(** * Further properties of the code *)

(** ** Vocabulary and tokenizer *)

Module TokenizerMore.

Import Tokenizer.

Lemma absent_no_line (lines : list str) (tok : str) (j : nat) :
  tok ∉ map strip lines -> (strip <$> (lines !! j)) <> Some tok.
Proof.
  intros Hout Hj. apply Hout.
  destruct (lines !! j) as [line |] eqn:E; [| discriminate].
  injection Hj as <-. apply list_elem_of_fmap. exists line. split; [reflexivity |].
  by apply list_elem_of_lookup_2 with j.
Qed.

Lemma load_vocab_last_line (lines : list str) (s : Z) (v : gmap (list N) Z) (tok : str) (i : nat) :
  ((strip <$> (lines !! i)) = Some tok /\
   forall j : nat, (i < j)%nat -> (strip <$> (lines !! j)) <> Some tok) ->
  load_vocab lines s v !! tok = Some (s + Z.of_nat i).
Proof.
  revert s v i. induction lines as [| line rest IH]; intros s v i [Hi Hlast].
  - discriminate.
  - cbn [load_vocab]. destruct i as [| i].
    + injection Hi as Hi. rewrite TokenizerSpec.load_vocab_absent.
      * rewrite Hi, lookup_insert_eq. f_equal. lia.
      * intros Hin. apply list_elem_of_fmap in Hin as (l & Hl & Hin).
        apply list_elem_of_lookup in Hin as [j Hj].
        apply (Hlast (S j)); [lia |].
        change ((line :: rest) !! S j) with (rest !! j). by rewrite Hj, Hl.
    + rewrite (IH (s + 1) _ i).
      * f_equal. lia.
      * split; [exact Hi |]. intros j Hj. apply (Hlast (S j)). lia.
Qed.

Lemma load_vocab_lookup (lines : list str) (s : Z) (v : gmap (list N) Z) (tok : str) (idx : Z) :
  load_vocab lines s v !! tok = Some idx ->
  (exists i : nat, idx = s + Z.of_nat i /\ (strip <$> (lines !! i)) = Some tok /\
     forall j : nat, (i < j)%nat -> (strip <$> (lines !! j)) <> Some tok)
  \/ ((tok ∉ map strip lines) /\ v !! tok = Some idx).
Proof.
  revert s v. induction lines as [| line rest IH]; intros s v; cbn [load_vocab].
  - intros H. right. split; [apply not_elem_of_nil | exact H].
  - intros H. destruct (IH _ _ H) as [(i & -> & Hi & Hlast) | [Hout Hv]].
    + left. exists (S i). split; [lia |]. split; [exact Hi |].
      intros [| j] Hj; [lia |]. apply Hlast. lia.
    + destruct (decide (strip line = tok)) as [E | E].
      * left. exists 0%nat. rewrite E, lookup_insert_eq in Hv. injection Hv as <-.
        split; [lia |]. split; [by rewrite <- E |].
        intros [| j] Hj; [lia |].
        change ((line :: rest) !! S j) with (rest !! j). by apply absent_no_line.
      * right. rewrite lookup_insert_ne in Hv by exact E. split; [| exact Hv].
        cbn. by apply not_elem_of_cons.
Qed.

(** The id of a token is the 0-based index of the last line that holds it:
    a token repeated in the file takes the later index, and a token of no
    line has no id. *)
Theorem vocab_id_is_last_line (lines : list str) (tok : str) (idx : Z) :
  vocab (BertTokenizer_init lines) !! tok = Some idx <->
  exists i : nat,
    idx = Z.of_nat i /\
    (strip <$> (lines !! i)) = Some tok /\
    forall j : nat, (i < j)%nat -> (strip <$> (lines !! j)) <> Some tok.
Proof.
  cbn [BertTokenizer_init vocab]. split.
  - intros H. destruct (load_vocab_lookup _ _ _ _ _ H) as [(i & -> & Hi) | [_ Hv]].
    + exists i. split; [lia | exact Hi].
    + by rewrite lookup_empty in Hv.
  - intros (i & -> & Hi). by rewrite (load_vocab_last_line lines 0 ∅ tok i Hi).
Qed.

Lemma vocab_id_range (lines : list str) (tok : str) (idx : Z) :
  vocab (BertTokenizer_init lines) !! tok = Some idx -> 0 <= idx < Z.of_nat (length lines).
Proof.
  cbn [BertTokenizer_init vocab]. intros H.
  destruct (load_vocab_lookup _ _ _ _ _ H) as [(i & -> & Hi & _) | [_ Hv]].
  - destruct (lines !! i) eqn:E; [| discriminate].
    apply lookup_lt_Some in E. lia.
  - by rewrite lookup_empty in Hv.
Qed.

Section Ids.

Variable t : BertTokenizer.

(** What the greedy segmentation emits from a position on. *)
Lemma greedy_ids (word : str) (start : nat) (ids : list Z) :
  greedy t word start ids ->
  Forall (fun id => id = unk_token_id t \/ exists p, vocab t !! p = Some id) ids
  /\ (length ids <= length word - start)%nat
  /\ ((start < length word)%nat -> ids <> []).
Proof.
  induction 1 as [start Hge | start e id ids Hr Hid _ _ (IHf & IHl & _) |
                  start ids Hlt _ _ (IHf & IHl & _)].
  - split; [constructor |]. split; [cbn; lia | lia].
  - split; [constructor; [right; eauto | exact IHf] |]. split; [cbn [length]; lia | done].
  - split; [constructor; [by left | exact IHf] |]. split; [cbn [length]; lia | done].
Qed.

(** [_wordpiece] emits at least one id for a non-empty word and never more
    ids than the word has characters. *)
Theorem wordpiece_length (word : str) :
  (length (_wordpiece t word) <= length word)%nat /\
  (_wordpiece t word = [] <-> word = []).
Proof.
  destruct (greedy_ids word 0 _ (TokenizerSpec.wordpiece_greedy t word)) as (_ & Hl & Hne).
  split; [lia |]. split.
  - intros E. destruct word as [| c word]; [reflexivity |].
    exfalso. apply Hne; [cbn; lia | exact E].
  - intros ->. reflexivity.
Qed.

Lemma greedy_all_unknown (word : str) (k : nat) :
  (forall s e, (s < e <= length word)%nat -> vocab t !! piece word s e = None) ->
  (k <= length word)%nat ->
  greedy t word (length word - k) (replicate k (unk_token_id t)).
Proof.
  intros Hnone. induction k as [| k IH]; intros Hk.
  - apply greedy_end. lia.
  - cbn [replicate]. apply greedy_unk; [lia | intros e He; apply Hnone; lia |].
    replace (S (length word - S k)) with (length word - k)%nat by lia. apply IH. lia.
Qed.

(** A word none of whose pieces is in the vocabulary gives one UNK id per
    character. *)
Theorem wordpiece_unknown_word (word : str) :
  (forall s e, (s < e <= length word)%nat -> vocab t !! piece word s e = None) ->
  _wordpiece t word = replicate (length word) (unk_token_id t).
Proof.
  intros Hnone. apply (TokenizerSpec.greedy_unique t word 0).
  - apply TokenizerSpec.wordpiece_greedy.
  - pose proof (greedy_all_unknown word (length word) Hnone (Nat.le_refl _)) as H.
    by rewrite Nat.sub_diag in H.
Qed.

Lemma word_tokens_ids (P : Z -> Prop) (tokens : list Z) (word : str) :
  P (unk_token_id t) -> (forall p id, vocab t !! p = Some id -> P id) ->
  Forall P tokens -> Forall P (word_tokens t tokens word).
Proof.
  intros Hunk Hvoc Htok. unfold word_tokens.
  destruct (vocab t !! word) as [id |] eqn:E.
  - apply Forall_app. split; [exact Htok |]. constructor; [by apply Hvoc with word | constructor].
  - apply Forall_app. split; [exact Htok |].
    destruct (greedy_ids word 0 _ (TokenizerSpec.wordpiece_greedy t word)) as (Hf & _).
    eapply Forall_impl; [exact Hf |]. intros id [-> | [p Hp]]; [exact Hunk | by apply Hvoc with p].
Qed.

Lemma fold_word_tokens_ids (P : Z -> Prop) (words : list str) (tokens : list Z) :
  P (unk_token_id t) -> (forall p id, vocab t !! p = Some id -> P id) ->
  Forall P tokens -> Forall P (fold_left (word_tokens t) words tokens).
Proof.
  intros Hunk Hvoc. revert tokens.
  induction words as [| w words IH]; intros tokens Htok; [exact Htok |].
  cbn [fold_left]. apply IH. by apply word_tokens_ids.
Qed.

Lemma slice_to_sublist {A} (P : A -> Prop) (l : list A) (n : Z) :
  Forall P l -> Forall P (slice_to l n).
Proof. intros H. unfold slice_to. destruct (n <? 0); by apply Forall_take. Qed.

(** Words that are vocabulary entries give their ids, one per word. *)
Lemma fold_known_words (words : list str) (ids tokens : list Z) :
  Forall2 (fun w id => vocab t !! w = Some id) words ids ->
  fold_left (word_tokens t) words tokens = tokens ++ ids.
Proof.
  intros H. revert tokens.
  induction H as [| w id words ids Hw _ IH]; intros tokens; cbn [fold_left].
  - by rewrite app_nil_r.
  - unfold word_tokens at 2. rewrite Hw, IH, <- app_assoc. reflexivity.
Qed.

Variable lower : str -> str.

(** The output for [max_length = 128], with the ids before truncation
    named. *)
Lemma tokenize_ids (text : str) :
  max_length t = 128 ->
  let toks := fold_left (word_tokens t) (split (strip (lower text))) [] in
  input_ids (tokenize t lower text)
  = [cls_token_id t] ++ take 126 toks ++ [sep_token_id t]
    ++ replicate (126 - length (take 126 toks)) (pad_token_id t)
  /\ attention_mask (tokenize t lower text)
     = replicate (2 + length (take 126 toks)) 1 ++ replicate (126 - length (take 126 toks)) 0.
Proof.
  intros Hmax toks. unfold tokenize. fold toks. rewrite Hmax.
  change (slice_to toks (128 - 2)) with (take 126 toks).
  cbn [input_ids attention_mask].
  assert (Hlen : (length (take 126 toks) <= 126)%nat) by (rewrite length_take; lia).
  assert (Hn : length ([cls_token_id t] ++ take 126 toks ++ [sep_token_id t])
               = (2 + length (take 126 toks))%nat).
  { rewrite !length_app. cbn [length]. lia. }
  rewrite Hn. unfold repeat_list.
  replace (Z.to_nat (128 - Z.of_nat (2 + length (take 126 toks))))
    with (126 - length (take 126 toks))%nat by lia.
  rewrite Nat2Z.id. split; [by rewrite <- !app_assoc | reflexivity].
Qed.

(** For any [max_length] of at least 2 the three arrays have exactly that
    length. *)
Theorem tokenize_length_is_max_length (text : str) :
  2 <= max_length t ->
  let r := tokenize t lower text in
  length (input_ids r) = Z.to_nat (max_length t) /\
  length (attention_mask r) = Z.to_nat (max_length t) /\
  length (token_type_ids r) = Z.to_nat (max_length t).
Proof.
  intros Hmax. unfold tokenize. cbn [input_ids attention_mask token_type_ids].
  set (toks := slice_to _ (max_length t - 2)).
  assert (Hlen : (length toks <= Z.to_nat (max_length t - 2))%nat)
    by (apply TokenizerSpec.length_slice_to; lia).
  rewrite !length_app, !TokenizerSpec.length_repeat_list, ?length_app. cbn [length]. lia.
Qed.

End Ids.

Lemma wordpiece_unknown_word_witness :
  _wordpiece Samples.plain_tokenizer (lit "xyz")
  = replicate (length (lit "xyz")) (unk_token_id Samples.plain_tokenizer).
Proof.
  apply (wordpiece_unknown_word Samples.plain_tokenizer (lit "xyz")).
  intros s e He. cbn [lit length] in He.
  assert (Hs : (s = 0 \/ s = 1 \/ s = 2)%nat) by lia.
  assert (Hend : (e = 1 \/ e = 2 \/ e = 3)%nat) by lia.
  destruct Hs as [-> | [-> | ->]], Hend as [-> | [-> | ->]]; vm_compute; reflexivity.
Defined.

Lemma tokenize_length_is_max_length_witness :
  let r := tokenize Samples.scenario_tokenizer ascii_lower (lit "turn on wifi") in
  length (input_ids r) = 8%nat /\ length (attention_mask r) = 8%nat
  /\ length (token_type_ids r) = 8%nat.
Proof.
  apply (tokenize_length_is_max_length Samples.scenario_tokenizer ascii_lower (lit "turn on wifi")).
  vm_compute. discriminate.
Defined.

(** Every id [tokenize] puts out is a line index of the vocabulary file or
    one of the four fall-back ids. *)
Theorem tokenize_ids_in_range (lower : str -> str) (lines : list str) (text : str) :
  Forall (fun id => 0 <= id < Z.of_nat (length lines)
                    \/ id = 101 \/ id = 102 \/ id = 0 \/ id = 100)
         (input_ids (tokenize (BertTokenizer_init lines) lower text)).
Proof.
  set (t := BertTokenizer_init lines).
  set (P := fun id => 0 <= id < Z.of_nat (length lines)
                      \/ id = 101 \/ id = 102 \/ id = 0 \/ id = 100).
  assert (Hvoc : forall p id, vocab t !! p = Some id -> P id).
  { intros p id H. left. by apply vocab_id_range with p. }
  assert (Hdef : forall p d, P d -> P (default d (vocab t !! p))).
  { intros p d Hd. destruct (vocab t !! p) eqn:E; [by apply Hvoc with p | exact Hd]. }
  assert (Hcls : P (cls_token_id t)) by (apply Hdef; unfold P; lia).
  assert (Hsep : P (sep_token_id t)) by (apply Hdef; unfold P; lia).
  assert (Hpad : P (pad_token_id t)) by (apply Hdef; unfold P; lia).
  assert (Hunk : P (unk_token_id t)) by (apply Hdef; unfold P; lia).
  destruct (tokenize_ids t lower text eq_refl) as [-> _].
  repeat apply Forall_app_2.
  - by constructor.
  - apply Forall_take. by apply fold_word_tokens_ids.
  - by constructor.
  - by apply Forall_replicate.
Qed.

(** A text of at most 126 words that are all vocabulary entries gives CLS,
    the words' ids in order, SEP, then padding; the mask covers exactly the
    words and the two frame ids. *)
Theorem tokenize_known_words (lower : str -> str) (lines : list str) (text : str)
    (ids : list Z) :
  let t := BertTokenizer_init lines in
  Forall2 (fun w id => vocab t !! w = Some id) (split (strip (lower text))) ids ->
  (length ids <= 126)%nat ->
  input_ids (tokenize t lower text)
  = [cls_token_id t] ++ ids ++ [sep_token_id t]
    ++ replicate (126 - length ids) (pad_token_id t)
  /\ attention_mask (tokenize t lower text)
     = replicate (2 + length ids) 1 ++ replicate (126 - length ids) 0.
Proof.
  intros t Hwords Hlen.
  destruct (tokenize_ids t lower text eq_refl) as [Hi Hm].
  rewrite (fold_known_words t _ ids [] Hwords) in Hi, Hm. cbn [app] in Hi, Hm.
  rewrite take_ge in Hi, Hm by lia. by split.
Qed.

Lemma tokenize_known_words_witness :
  let t := BertTokenizer_init Samples.scenario_lines in
  input_ids (tokenize t ascii_lower (lit "Turn ON  wifi "))
  = [cls_token_id t] ++ [4; 5; 6] ++ [sep_token_id t]
    ++ replicate (126 - length [4; 5; 6]) (pad_token_id t)
  /\ attention_mask (tokenize t ascii_lower (lit "Turn ON  wifi "))
     = replicate (2 + length [4; 5; 6]) 1 ++ replicate (126 - length [4; 5; 6]) 0.
Proof.
  apply (tokenize_known_words ascii_lower Samples.scenario_lines (lit "Turn ON  wifi ")
           [4; 5; 6]).
  - vm_compute. repeat constructor.
  - vm_compute. lia.
Defined.

(** A text with 126 ids or more keeps the first 126: the output is CLS,
    those ids and SEP at the last position, with nothing masked out. *)
Theorem tokenize_truncates (lower : str -> str) (lines : list str) (text : str) :
  let t := BertTokenizer_init lines in
  let toks := fold_left (word_tokens t) (split (strip (lower text))) [] in
  (126 <= length toks)%nat ->
  input_ids (tokenize t lower text) = [cls_token_id t] ++ take 126 toks ++ [sep_token_id t]
  /\ attention_mask (tokenize t lower text) = replicate 128 1.
Proof.
  intros t toks Hlen.
  destruct (tokenize_ids t lower text eq_refl) as [Hi Hm]. fold toks in Hi, Hm.
  rewrite length_take in Hi, Hm.
  replace (126 - 126 `min` length toks)%nat with 0%nat in Hi, Hm by lia.
  replace (2 + 126 `min` length toks)%nat with 128%nat in Hm by lia.
  cbn [replicate] in Hi, Hm. rewrite !app_nil_r in Hi, Hm. by split.
Qed.

Lemma tokenize_truncates_witness :
  let t := BertTokenizer_init Samples.scenario_lines in
  let text := concat (replicate 130 (lit "wifi ")) in
  let toks := fold_left (word_tokens t) (split (strip (ascii_lower text))) [] in
  input_ids (tokenize t ascii_lower text) = [cls_token_id t] ++ take 126 toks ++ [sep_token_id t]
  /\ attention_mask (tokenize t ascii_lower text) = replicate 128 1.
Proof.
  apply (tokenize_truncates ascii_lower Samples.scenario_lines
           (concat (replicate 130 (lit "wifi ")))).
  vm_compute. lia.
Defined.

End TokenizerMore.

(** ** Merging *)

Module LoaderMore.

Import Loader.

Lemma lookup_present (k : str) (d : intent_table) :
  k ∈ map fst d -> exists l, lookup k d = Some l.
Proof.
  induction d as [| [k0 v0] d IH]; cbn [map fst]; intros Hin.
  - by apply elem_of_nil in Hin.
  - rewrite LoaderSpec.lookup_table_cons. destruct (decide (k0 = k)) as [_ | Hne]; [by eexists |].
    apply IH. apply elem_of_cons in Hin as [-> | Hin]; [contradiction | exact Hin].
Qed.

Lemma lookup_None_absent (k : str) (d : intent_table) : lookup k d = None -> k ∉ map fst d.
Proof. intros H Hin. destruct (lookup_present k d Hin) as [l Hl]. congruence. Qed.

Lemma lookup_of_member (k : str) (ex : list str) (d : intent_table) :
  NoDup (map fst d) -> (k, ex) ∈ d -> lookup k d = Some ex.
Proof.
  induction d as [| [k0 v0] d IH]; cbn [map fst]; intros Hnd Hin.
  - by apply elem_of_nil in Hin.
  - apply NoDup_cons in Hnd as [Hk0 Hnd]. rewrite LoaderSpec.lookup_table_cons.
    apply elem_of_cons in Hin as [[= -> ->] | Hin].
    + by rewrite decide_True.
    + rewrite decide_False; [by apply IH |].
      intros ->. apply Hk0. apply list_elem_of_fmap. by exists (k, ex).
Qed.

Lemma set_present (k : str) (v : list str) (d : intent_table) :
  k ∈ map fst d -> map fst (PyDict.set PyDict.str_eqb k v d) = map fst d.
Proof.
  induction d as [| [k0 v0] d IH]; cbn [map fst PyDict.set]; intros Hin.
  - by apply elem_of_nil in Hin.
  - unfold PyDict.str_eqb at 1. destruct (decide (k0 = k)) as [E | E].
    + by rewrite bool_decide_eq_true_2.
    + rewrite bool_decide_eq_false_2 by done. cbn [map fst]. f_equal. apply IH.
      apply elem_of_cons in Hin as [-> | Hin]; [contradiction | exact Hin].
Qed.

Lemma set_absent (k : str) (v : list str) (d : intent_table) :
  k ∉ map fst d -> PyDict.set PyDict.str_eqb k v d = d ++ [(k, v)].
Proof.
  induction d as [| [k0 v0] d IH]; cbn [map fst PyDict.set app]; intros Hout; [reflexivity |].
  apply not_elem_of_cons in Hout as [Hne Hout].
  unfold PyDict.str_eqb at 1. rewrite bool_decide_eq_false_2 by congruence.
  by rewrite IH.
Qed.

Lemma keys_append_example (intent_id ex : str) (d : intent_table) :
  map fst (append_example intent_id ex d) = map fst d.
Proof.
  unfold append_example. destruct (lookup intent_id d) as [l |] eqn:E; [| reflexivity].
  apply set_present. destruct (decide (intent_id ∈ map fst d)) as [H | H]; [exact H |].
  rewrite (LoaderSpec.lookup_absent _ _ H) in E. discriminate.
Qed.

Lemma keys_append_loop (intent_id : str) (existing : gset (list N)) (examples : list str)
    (acc : intent_table) :
  map fst (fold_left
             (fun acc ex =>
                if bool_decide (ex ∈ existing) then acc else append_example intent_id ex acc)
             examples acc)
  = map fst acc.
Proof.
  revert acc. induction examples as [| ex rest IH]; intros acc; cbn [fold_left]; [reflexivity |].
  rewrite IH. destruct (bool_decide (ex ∈ existing)); [reflexivity | apply keys_append_example].
Qed.

(** One item of the new table: a known id keeps the key list, a new id goes
    to its end. *)
Lemma keys_merge_intent (d : intent_table) (k : str) (examples : list str) :
  map fst (merge_intent d (k, examples))
  = if decide (k ∈ map fst d) then map fst d else map fst d ++ [k].
Proof.
  unfold merge_intent. destruct (lookup k d) as [stored |] eqn:E.
  - rewrite keys_append_loop, decide_True; [reflexivity |].
    destruct (decide (k ∈ map fst d)) as [H | H]; [exact H |].
    rewrite (LoaderSpec.lookup_absent _ _ H) in E. discriminate.
  - rewrite decide_False by (by apply lookup_None_absent).
    rewrite set_absent by (by apply lookup_None_absent). by rewrite map_app.
Qed.

Lemma filter_agree (P Q : str -> Prop) `{!forall x, Decision (P x)} `{!forall x, Decision (Q x)}
    (l : list str) :
  (forall x, x ∈ l -> P x <-> Q x) -> filter P l = filter Q l.
Proof.
  induction l as [| x l IH]; intros Hall; [reflexivity |].
  rewrite !filter_cons.
  assert (Hx : P x <-> Q x) by (apply Hall; left).
  rewrite IH by (intros y Hy; apply Hall; by right).
  destruct (decide (P x)), (decide (Q x)); tauto || reflexivity.
Qed.

(** The merged table lists the existing intent ids in their order, followed
    by the ids that only the new table has, in the new table's order. *)
Theorem merge_keys_order (existing new : intent_table) :
  NoDup (map fst new) ->
  map fst (merge existing new)
  = map fst existing ++ filter (fun k => k ∉ map fst existing) (map fst new).
Proof.
  unfold merge. revert existing.
  induction new as [| [k examples] rest IH]; intros existing Hnd; cbn [fold_left map fst].
  - by rewrite filter_nil, app_nil_r.
  - apply NoDup_cons in Hnd as [Hk Hnd]. rewrite IH by exact Hnd.
    rewrite keys_merge_intent, filter_cons.
    destruct (decide (k ∈ map fst existing)) as [Hin | Hout].
    + by rewrite decide_False by tauto.
    + rewrite decide_True by exact Hout. rewrite <- app_assoc. cbn [app]. do 2 f_equal.
      apply filter_agree. intros x Hx.
      rewrite not_elem_of_app, not_elem_of_cons. split; [tauto |].
      intros H. split; [exact H |]. split; [| apply not_elem_of_nil].
      intros ->. contradiction.
Qed.

Lemma merge_keys_order_witness :
  map fst (merge [(lit "a", [lit "x"]); (lit "b", [lit "y"])]
                 [(lit "c", [lit "z"]); (lit "a", [lit "w"])])
  = map fst [(lit "a", [lit "x"]); (lit "b", [lit "y"])]
    ++ filter (fun k => k ∉ map fst [(lit "a", [lit "x"]); (lit "b", [lit "y"])])
              (map fst [(lit "c", [lit "z"]); (lit "a", [lit "w"])]).
Proof.
  apply (merge_keys_order [(lit "a", [lit "x"]); (lit "b", [lit "y"])]
                          [(lit "c", [lit "z"]); (lit "a", [lit "w"])]).
  apply (bool_decide_unpack _). vm_compute. exact I.
Defined.

(** The intent ids of the merged table stay distinct. *)
Theorem merge_keys_distinct (existing new : intent_table) :
  NoDup (map fst existing) -> NoDup (map fst (merge existing new)).
Proof.
  unfold merge. revert existing.
  induction new as [| [k examples] rest IH]; intros existing Hnd; cbn [fold_left]; [exact Hnd |].
  apply IH. rewrite keys_merge_intent.
  destruct (decide (k ∈ map fst existing)) as [Hin | Hout]; [exact Hnd |].
  apply NoDup_app. split; [exact Hnd |]. split; [| apply NoDup_singleton].
  intros x Hx Hk. apply list_elem_of_singleton in Hk as ->. contradiction.
Qed.

Lemma merge_keys_distinct_witness :
  NoDup (map fst (merge [(lit "a", [lit "x"])] [(lit "b", [lit "y"]); (lit "b", [lit "z"])])).
Proof.
  apply (merge_keys_distinct [(lit "a", [lit "x"])] [(lit "b", [lit "y"]); (lit "b", [lit "z"])]).
  apply (bool_decide_unpack _). vm_compute. exact I.
Defined.

Lemma merge_intent_extends (d : intent_table) (item : str * list str) (k : str) (l : list str) :
  lookup k d = Some l -> exists l', lookup k (merge_intent d item) = Some (l ++ l').
Proof.
  destruct item as [k0 examples]. intros Hl.
  destruct (decide (k0 = k)) as [-> | Hne].
  - rewrite LoaderSpec.merge_intent_same, Hl. by eexists.
  - rewrite LoaderSpec.merge_intent_other by exact Hne. exists []. by rewrite app_nil_r.
Qed.

(** Merging never removes or reorders what an intent already had: the
    stored list stays as a prefix of the merged one. *)
Theorem merge_keeps_existing_prefix (existing new : intent_table) (k : str) (l : list str) :
  lookup k existing = Some l ->
  exists l', lookup k (merge existing new) = Some (l ++ l').
Proof.
  unfold merge. revert existing l.
  induction new as [| item rest IH]; intros existing l Hl; cbn [fold_left].
  - exists []. by rewrite app_nil_r.
  - destruct (merge_intent_extends existing item k l Hl) as [l1 H1].
    destruct (IH _ _ H1) as [l2 H2]. exists (l1 ++ l2). by rewrite app_assoc.
Qed.

Lemma merge_keeps_existing_prefix_witness :
  exists l',
    lookup (lit "a") (merge [(lit "a", [lit "x"])] [(lit "a", [lit "y"; lit "x"])])
    = Some ([lit "x"] ++ l').
Proof.
  apply (merge_keeps_existing_prefix [(lit "a", [lit "x"])] [(lit "a", [lit "y"; lit "x"])]).
  vm_compute. reflexivity.
Defined.

(** Every example of the new table is in the merged list of its intent. *)
Theorem merge_holds_every_new_example (existing new : intent_table) (k : str)
    (examples : list str) :
  NoDup (map fst new) ->
  lookup k new = Some examples ->
  exists l, lookup k (merge existing new) = Some l /\ forall x, x ∈ examples -> x ∈ l.
Proof.
  intros Hnd Hk. rewrite (LoaderSpec.merge_lookup new existing k Hnd), Hk.
  eexists. split; [reflexivity |].
  destruct (lookup k existing) as [stored |]; [| done].
  intros x Hx. apply elem_of_app.
  destruct (decide (x ∈ stored)) as [Hin | Hout]; [by left | right].
  apply list_elem_of_filter. by split.
Qed.

Lemma merge_holds_every_new_example_witness :
  exists l,
    lookup (lit "a") (merge [(lit "a", [lit "x"])] [(lit "a", [lit "y"; lit "x"])]) = Some l
    /\ forall x, x ∈ [lit "y"; lit "x"] -> x ∈ l.
Proof.
  apply (merge_holds_every_new_example [(lit "a", [lit "x"])] [(lit "a", [lit "y"; lit "x"])]
           (lit "a") [lit "y"; lit "x"]).
  - apply (bool_decide_unpack _). vm_compute. exact I.
  - vm_compute. reflexivity.
Defined.

Lemma append_loop_noop (intent_id : str) (existing : gset (list N)) (examples : list str)
    (acc : intent_table) :
  (forall x, x ∈ examples -> x ∈ existing) ->
  fold_left
    (fun acc ex => if bool_decide (ex ∈ existing) then acc else append_example intent_id ex acc)
    examples acc
  = acc.
Proof.
  revert acc. induction examples as [| ex rest IH]; intros acc Hall; cbn [fold_left];
    [reflexivity |].
  rewrite bool_decide_eq_true_2 by (apply Hall; left).
  apply IH. intros x Hx. apply Hall. by right.
Qed.

Lemma merge_intent_noop (d : intent_table) (k : str) (examples stored : list str) :
  lookup k d = Some stored -> (forall x, x ∈ examples -> x ∈ stored) ->
  merge_intent d (k, examples) = d.
Proof.
  intros Hk Hall. unfold merge_intent. rewrite Hk. apply append_loop_noop.
  intros x Hx. apply elem_of_list_to_set. by apply Hall.
Qed.

Lemma merge_noop (items d : intent_table) :
  (forall k ex, (k, ex) ∈ items ->
     exists stored, lookup k d = Some stored /\ forall x, x ∈ ex -> x ∈ stored) ->
  fold_left merge_intent items d = d.
Proof.
  induction items as [| [k ex] rest IH]; intros Hall; cbn [fold_left]; [reflexivity |].
  destruct (Hall k ex) as (stored & Hk & Hsub); [left |].
  rewrite (merge_intent_noop d k ex stored Hk Hsub).
  apply IH. intros k' ex' Hin. apply Hall. by right.
Qed.

(** Merging the same per-file table a second time changes nothing. *)
Theorem merge_idempotent (existing new : intent_table) :
  NoDup (map fst new) ->
  merge (merge existing new) new = merge existing new.
Proof.
  intros Hnd. unfold merge at 1. apply merge_noop. intros k ex Hin.
  pose proof (lookup_of_member k ex new Hnd Hin) as Hk.
  rewrite (LoaderSpec.merge_lookup new existing k Hnd), Hk.
  eexists. split; [reflexivity |].
  destruct (lookup k existing) as [stored |]; [| done].
  intros x Hx. apply elem_of_app.
  destruct (decide (x ∈ stored)) as [H | H]; [by left | right].
  apply list_elem_of_filter. by split.
Qed.

Lemma merge_idempotent_witness :
  merge (merge [(lit "a", [lit "x"])] [(lit "a", [lit "y"; lit "y"]); (lit "b", [lit "z"])])
        [(lit "a", [lit "y"; lit "y"]); (lit "b", [lit "z"])]
  = merge [(lit "a", [lit "x"])] [(lit "a", [lit "y"; lit "y"]); (lit "b", [lit "z"])].
Proof.
  apply (merge_idempotent [(lit "a", [lit "x"])]
           [(lit "a", [lit "y"; lit "y"]); (lit "b", [lit "z"])]).
  apply (bool_decide_unpack _). vm_compute. exact I.
Defined.

Lemma merge_fresh (items acc : intent_table) :
  NoDup (map fst items) -> (forall k, k ∈ map fst items -> k ∉ map fst acc) ->
  fold_left merge_intent items acc = acc ++ items.
Proof.
  revert acc. induction items as [| [k ex] rest IH]; intros acc Hnd Hfresh; cbn [fold_left].
  - by rewrite app_nil_r.
  - cbn [map fst] in Hnd, Hfresh. apply NoDup_cons in Hnd as [Hk Hnd].
    assert (Hout : k ∉ map fst acc) by (apply Hfresh; left).
    assert (Hstep : merge_intent acc (k, ex) = acc ++ [(k, ex)]).
    { unfold merge_intent. rewrite (LoaderSpec.lookup_absent _ _ Hout). by apply set_absent. }
    rewrite Hstep, IH; [by rewrite <- app_assoc | exact Hnd |].
    intros k' Hk'. rewrite map_app. cbn [map fst]. apply not_elem_of_app. split.
    + apply Hfresh. by right.
    + intros H. apply list_elem_of_singleton in H as ->. contradiction.
Qed.

(** Merged into a table that has none of its ids, a per-file table is
    appended as it is, lists included; so the first file's table is taken
    whole. *)
Theorem merge_disjoint_appends (existing new : intent_table) :
  NoDup (map fst new) ->
  (forall k, k ∈ map fst new -> k ∉ map fst existing) ->
  merge existing new = existing ++ new.
Proof. intros Hnd Hfresh. by apply merge_fresh. Qed.

Lemma merge_disjoint_appends_witness :
  merge [] [(lit "a", [lit "x"; lit "x"]); (lit "b", [lit "y"])]
  = [] ++ [(lit "a", [lit "x"; lit "x"]); (lit "b", [lit "y"])].
Proof.
  apply (merge_disjoint_appends [] [(lit "a", [lit "x"; lit "x"]); (lit "b", [lit "y"])]).
  - apply (bool_decide_unpack _). vm_compute. exact I.
  - intros k _. apply not_elem_of_nil.
Defined.

End LoaderMore.

(** ** Parsers *)

Module ParserMore.

Import Parser.

(** [s.split(sep)] of two texts joined by the separator. *)
Lemma split_on_join (sep : N) (a b cur : str) :
  split_on sep (a ++ sep :: b) cur = split_on sep a cur ++ split_on sep b [].
Proof.
  revert cur. induction a as [| c a IH]; intros cur; cbn [app split_on].
  - by rewrite N.eqb_refl.
  - destruct (c =? sep)%N; [cbn [app]; f_equal |]; apply IH.
Qed.

(** Up to its first separator, a text is the first part. *)
Lemma split_on_first (sep : N) (a b cur : str) :
  contains sep a = false ->
  split_on sep (a ++ sep :: b) cur = (cur ++ a) :: split_on sep b [].
Proof.
  revert cur. induction a as [| c a IH]; intros cur Hno; cbn [app split_on].
  - by rewrite N.eqb_refl, app_nil_r.
  - cbn [contains existsb] in Hno. apply orb_false_iff in Hno as [Hc Hno].
    rewrite N.eqb_sym, Hc, IH by exact Hno. by rewrite <- app_assoc.
Qed.

Lemma split_on_nonempty (sep : N) (s cur : str) : split_on sep s cur <> [].
Proof.
  revert cur. induction s as [| c s IH]; intros cur; cbn [split_on]; [done |].
  destruct (c =? sep)%N; [done | apply IH].
Qed.

(** Joining the parts with the separator gives the text back. *)
Lemma join_split_on (sep : N) (s cur : str) : join [sep] (split_on sep s cur) = cur ++ s.
Proof.
  revert cur. induction s as [| c s IH]; intros cur; cbn [split_on].
  - by rewrite app_nil_r.
  - destruct (N.eqb_spec c sep) as [-> | Hne].
    + pose proof (split_on_nonempty sep s []) as Hne. specialize (IH []).
      destruct (split_on sep s []) as [| p rest]; [done |].
      cbn [join]. cbn [join] in IH. by rewrite IH.
    + rewrite IH, <- app_assoc. reflexivity.
Qed.

Section Legacy.

Variable isupper : str -> bool.

Lemma contains_app (c : N) (a b : str) : contains c (a ++ b) = contains c a || contains c b.
Proof. unfold contains. apply existsb_app. Qed.

(** In the data section a line [TYPE:id:text] whose type is upper-case
    without a space adds [text] to the intent [id]; the text is everything
    after the second colon, further colons included. *)
Theorem yaml_line_takes_record (intents : Loader.intent_table) (ty id text : str) :
  let line := ty ++ [58%N] ++ id ++ [58%N] ++ text in
  strip line = line ->
  startswith 35 line = false ->
  contains 58 ty = false ->
  contains 58 id = false ->
  contains 32 (strip ty) = false ->
  isupper (strip ty) = true ->
  strip id <> [] ->
  strip text <> [] ->
  yaml_line isupper (intents, 2) line
  = (add_example (strip id) (strip text) intents, 2).
Proof.
  intros line.
  assert (Hline : line = ty ++ [58%N] ++ id ++ [58%N] ++ text) by reflexivity.
  clearbody line. intros Hstrip Hhash Hty Hid Hsp Hup Hidne Htxt.
  unfold yaml_line. rewrite Hstrip.
  assert (Hcolon : contains 58 line = true).
  { rewrite Hline, contains_app. cbn. by rewrite orb_true_r. }
  assert (Hhead : (match line with [] => true | _ :: _ => false end) = false).
  { destruct line; [discriminate Hcolon | reflexivity]. }
  rewrite Hhead, Hhash. cbn [orb].
  assert (Hdelim : PyDict.str_eqb line (lit "---") = false).
  { unfold PyDict.str_eqb. apply bool_decide_eq_false_2. intros E.
    rewrite E in Hcolon. discriminate. }
  rewrite Hdelim, Hcolon. cbn [andb Z.eqb Pos.eqb].
  assert (Hparts : split_on 58 line [] = ty :: id :: split_on 58 text []).
  { rewrite Hline. cbn [app]. rewrite (split_on_first 58 ty _ [] Hty). cbn [app].
    by rewrite (split_on_first 58 id _ [] Hid). }
  rewrite Hparts.
  pose proof (split_on_nonempty 58 text []) as Hrest.
  destruct (split_on 58 text []) as [| p rest] eqn:Es; [done |].
  cbn [length Nat.leb nth drop]. rewrite <- Es, join_split_on. cbn [app].
  rewrite Hsp, Hup. cbn [negb].
  destruct (strip id) as [| ? ?]; [done |].
  destruct (strip text) as [| ? ?]; [done |]. reflexivity.
Qed.

(** What a line does to the delimiter count. *)
Lemma yaml_line_count (intents : Loader.intent_table) (c : Z) (line : str) :
  snd (yaml_line isupper (intents, c) line)
  = if decide (strip line = lit "---") then c + 1 else c.
Proof.
  destruct (decide (strip line = lit "---")) as [E | E].
  - by rewrite ParserSpec.yaml_line_delimiter.
  - unfold yaml_line. destruct (_ || _); [reflexivity |].
    unfold PyDict.str_eqb. rewrite bool_decide_eq_false_2 by exact E.
    repeat match goal with
           | |- context [if ?b then _ else _] => destruct b
           end; reflexivity.
Qed.

Lemma yaml_fold_count (lines : list str) (intents : Loader.intent_table) (c : Z) :
  snd (fold_left (yaml_line isupper) lines (intents, c))
  = c + Z.of_nat (length (delimiters lines)).
Proof.
  revert intents c. induction lines as [| line rest IH]; intros intents c; cbn [fold_left].
  - cbn. lia.
  - destruct (yaml_line isupper (intents, c) line) as [intents' c'] eqn:E.
    rewrite IH. pose proof (yaml_line_count intents c line) as Hc. rewrite E in Hc. cbn [snd] in Hc.
    unfold delimiters. rewrite filter_cons.
    destruct (decide (strip line = lit "---")); subst c'; cbn [length]; lia.
Qed.

(** After the third delimiter nothing is read any more. *)
Lemma yaml_fold_after_data (lines : list str) (intents : Loader.intent_table) (c : Z) :
  3 <= c -> fst (fold_left (yaml_line isupper) lines (intents, c)) = intents.
Proof.
  revert c. induction lines as [| line rest IH]; intros c Hc; [reflexivity |].
  cbn [fold_left]. destruct (decide (strip line = lit "---")) as [E | E].
  - rewrite ParserSpec.yaml_line_delimiter by exact E. apply IH. lia.
  - rewrite ParserSpec.yaml_line_before_data; [by apply IH | exact E | lia].
Qed.

(** Whatever follows the third delimiter line does not change the result. *)
Theorem parse_yaml_ignores_after_third_delimiter (content more : str) :
  (3 <= length (delimiters (split_on 10 content [])))%nat ->
  parse_ava_yaml_format isupper (content ++ [10%N] ++ more)
  = parse_ava_yaml_format isupper content.
Proof.
  intros H. unfold parse_ava_yaml_format. cbn [app].
  rewrite split_on_join, fold_left_app.
  set (st := fold_left (yaml_line isupper) (split_on 10 content []) ([], 0)).
  assert (Hc : snd st = 0 + Z.of_nat (length (delimiters (split_on 10 content []))))
    by apply yaml_fold_count.
  destruct st as [intents c]. cbn [snd fst] in *. apply yaml_fold_after_data. lia.
Qed.

Lemma add_example_set (intent_id example : str) (intents : Loader.intent_table) :
  add_example intent_id example intents
  = PyDict.set PyDict.str_eqb intent_id
      (default [] (Loader.lookup intent_id intents) ++ [example]) intents.
Proof.
  unfold add_example, PyDict.mem, Loader.append_example. fold (Loader.lookup intent_id intents).
  destruct (Loader.lookup intent_id intents) as [l |] eqn:E.
  - by rewrite E.
  - rewrite LoaderSpec.lookup_set, decide_True by reflexivity. cbn [default app].
    apply LoaderMore.lookup_None_absent in E.
    rewrite !(LoaderMore.set_absent _ _ _ E).
    induction intents as [| [k0 v0] d IH]; cbn [app PyDict.set].
    + unfold PyDict.str_eqb. by rewrite bool_decide_eq_true_2.
    + cbn [map fst] in E. apply not_elem_of_cons in E as [Hne E].
      unfold PyDict.str_eqb at 1. rewrite bool_decide_eq_false_2 by congruence.
      by rewrite IH.
Qed.

Lemma lookup_member (k : str) (l : list str) (d : Loader.intent_table) :
  Loader.lookup k d = Some l -> (k, l) ∈ d.
Proof.
  induction d as [| [k0 v0] d IH]; [discriminate |].
  rewrite LoaderSpec.lookup_table_cons. destruct (decide (k0 = k)) as [-> | _].
  - intros [= ->]. left.
  - intros H. right. by apply IH.
Qed.

Lemma set_entries (P : str * list str -> Prop) (k : str) (v : list str)
    (d : Loader.intent_table) :
  Forall P d -> P (k, v) -> Forall P (PyDict.set PyDict.str_eqb k v d).
Proof.
  intros Hd Hk. induction Hd as [| [k0 v0] d H0 Hd IH]; cbn [PyDict.set].
  - by constructor.
  - unfold PyDict.str_eqb at 1. destruct (decide (k0 = k)) as [-> | Hne].
    + rewrite bool_decide_eq_true_2 by done. by constructor.
    + rewrite bool_decide_eq_false_2 by done. by constructor.
Qed.

Lemma add_example_well_formed (intent_id example : str) (d : Loader.intent_table) :
  intent_id <> [] -> example <> [] ->
  More.well_formed_table d -> More.well_formed_table (add_example intent_id example d).
Proof.
  intros Hid Hex [Hnd Hall]. rewrite add_example_set. split.
  - destruct (decide (intent_id ∈ map fst d)) as [Hin | Hout].
    + by rewrite LoaderMore.set_present.
    + rewrite LoaderMore.set_absent, map_app by exact Hout. apply NoDup_app.
      split; [exact Hnd |]. split; [| apply NoDup_singleton].
      intros x Hx Hk. apply list_elem_of_singleton in Hk as ->. contradiction.
  - apply set_entries; [exact Hall |]. cbn [fst snd].
    split; [exact Hid |]. split; [by destruct (default [] _) |].
    apply Forall_app. split; [| by repeat constructor].
    destruct (Loader.lookup intent_id d) as [l |] eqn:E; [| constructor].
    apply lookup_member in E. rewrite Forall_forall in Hall.
    by destruct (Hall _ E) as (_ & _ & H).
Qed.

(** A line leaves the table alone or adds one non-empty example under a
    non-empty id. *)
Lemma yaml_line_cases (intents : Loader.intent_table) (c : Z) (line : str) :
  fst (yaml_line isupper (intents, c) line) = intents \/
  exists intent_id example,
    intent_id <> [] /\ example <> [] /\
    fst (yaml_line isupper (intents, c) line) = add_example intent_id example intents.
Proof.
  unfold yaml_line.
  repeat match goal with
         | |- context [if ?b then _ else _] => destruct b eqn:?
         end; try (by left).
  match goal with
  | H : match _ with [] => false | _ :: _ => true end && _ = true |- _ =>
      apply andb_true_iff in H as [Hid Hex]
  end.
  right. do 2 eexists. split; [| split; [| reflexivity]].
  - intros E. rewrite E in Hid. discriminate.
  - intros E. rewrite E in Hex. discriminate.
Qed.

Lemma yaml_fold_well_formed (lines : list str) (intents : Loader.intent_table) (c : Z) :
  More.well_formed_table intents ->
  More.well_formed_table (fst (fold_left (yaml_line isupper) lines (intents, c))).
Proof.
  revert intents c. induction lines as [| line rest IH]; intros intents c Hwf; [exact Hwf |].
  cbn [fold_left].
  destruct (yaml_line isupper (intents, c) line) as [intents' c'] eqn:E.
  apply IH. pose proof (yaml_line_cases intents c line) as Hcases. rewrite E in Hcases.
  cbn [fst] in Hcases. destruct Hcases as [-> | (i & e & Hi & He & ->)]; [exact Hwf |].
  by apply add_example_well_formed.
Qed.

(** Whatever the content, the legacy parser returns a table with distinct,
    non-empty intent ids, each with at least one example and no empty
    example. *)
Theorem parse_yaml_table_well_formed (content : str) :
  let intents := parse_ava_yaml_format isupper content in
  NoDup (map fst intents) /\
  Forall (fun kv => fst kv <> [] /\ snd kv <> [] /\ Forall (fun x => x <> []) (snd kv)) intents.
Proof.
  unfold parse_ava_yaml_format. apply yaml_fold_well_formed.
  split; [apply NoDup_nil_2 | constructor].
Qed.

End Legacy.

Lemma parse_yaml_ignores_after_third_delimiter_witness :
  parse_ava_yaml_format ascii_isupper
    ((lit "---" ++ [10%N] ++ lit "---" ++ [10%N] ++ lit "VCM:a:x" ++ [10%N] ++ lit "---")
     ++ [10%N] ++ lit "VCM:b:y")
  = parse_ava_yaml_format ascii_isupper
      (lit "---" ++ [10%N] ++ lit "---" ++ [10%N] ++ lit "VCM:a:x" ++ [10%N] ++ lit "---").
Proof.
  apply (parse_yaml_ignores_after_third_delimiter ascii_isupper
           (lit "---" ++ [10%N] ++ lit "---" ++ [10%N] ++ lit "VCM:a:x" ++ [10%N] ++ lit "---")
           (lit "VCM:b:y")).
  vm_compute. lia.
Defined.

(** *** The tables of the JSON parsers *)

Lemma key_eqb_str (k : json) (s : str) : key_eqb k (JStr s) = true -> k = JStr s.
Proof.
  destruct k; cbn [key_eqb]; try discriminate.
  unfold PyDict.str_eqb. intros H%bool_decide_eq_true. by subst.
Qed.

Lemma key_eqb_str_refl (k0 k : str) : key_eqb (JStr k0) (JStr k) = bool_decide (k0 = k).
Proof. reflexivity. Qed.

Lemma get_set_str (k k0 : str) (v : list json) (d : table) :
  PyDict.get key_eqb (JStr k) (PyDict.set key_eqb (JStr k0) v d)
  = if decide (k0 = k) then Some v else PyDict.get key_eqb (JStr k) d.
Proof.
  induction d as [| [k1 v1] d IH]; cbn [PyDict.set PyDict.get].
  - rewrite key_eqb_str_refl. by destruct (decide (k0 = k)); [rewrite bool_decide_eq_true_2 |
                                                               rewrite bool_decide_eq_false_2].
  - destruct (key_eqb k1 (JStr k0)) eqn:E0; cbn [PyDict.get].
    + apply key_eqb_str in E0 as ->. rewrite key_eqb_str_refl.
      by destruct (decide (k0 = k)); [rewrite bool_decide_eq_true_2 |
                                      rewrite bool_decide_eq_false_2].
    + destruct (key_eqb k1 (JStr k)) eqn:E1; [| exact IH].
      apply key_eqb_str in E1 as ->. destruct (decide (k0 = k)) as [-> |]; [| done].
      rewrite key_eqb_str_refl, bool_decide_eq_true_2 in E0; done.
Qed.

Lemma last_entry_cons (id k : str) (ex : list json) (l : list (str * list json)) :
  More.last_entry id ((k, ex) :: l)
  = match More.last_entry id l with
    | Some v => Some v
    | None => if decide (k = id) then Some ex else None
    end.
Proof.
  unfold More.last_entry. rewrite filter_cons. cbn [fst].
  destruct (decide (k = id)); [| by destruct (last _)].
  rewrite last_cons. by destruct (last _).
Qed.

Section Fold.

Variables (body : table -> json -> res table) (entry : json -> option (str * list json))
  (schema : json -> bool).

Hypothesis body_entry : forall acc e,
  schema e = true ->
  body acc e = Ok (match entry e with
                   | Some (k, ex) => PyDict.set key_eqb (JStr k) ex acc
                   | None => acc
                   end).

(** A loop that stores what each entry gives leaves, under an id, what the
    last entry with that id gave, and what was there before when there is no
    such entry. *)
Lemma fold_last_entry (entries : list json) (acc : table) :
  forallb schema entries = true ->
  exists intents,
    res_fold body entries acc = Ok intents
    /\ forall id, PyDict.get key_eqb (JStr id) intents
         = match More.last_entry id (omap entry entries) with
           | Some v => Some v
           | None => PyDict.get key_eqb (JStr id) acc
           end.
Proof.
  revert acc. induction entries as [| e rest IH]; intros acc; cbn [forallb].
  - intros _. exists acc. by split.
  - intros [He Hrest]%andb_prop. cbn [res_fold]. rewrite (body_entry acc e He).
    cbn [mbind res_bind].
    destruct (IH (match entry e with
                  | Some (k, ex) => PyDict.set key_eqb (JStr k) ex acc
                  | None => acc
                  end) Hrest) as [intents [Hfold Hget]].
    exists intents. split; [exact Hfold |]. intros id. rewrite Hget.
    change (omap entry (e :: rest))
      with (match entry e with Some y => y :: omap entry rest | None => omap entry rest end).
    destruct (entry e) as [[k ex] |]; [| reflexivity].
    rewrite last_entry_cons, get_set_str.
    by destruct (More.last_entry id _), (decide (k = id)).
Qed.

End Fold.

Lemma field_str (k : str) (d : list (str * json)) :
  field_ok is_str k d = true ->
  exists s, default (JStr []) (PyDict.get PyDict.str_eqb k d) = JStr s.
Proof.
  unfold field_ok. destruct (PyDict.get PyDict.str_eqb k d) as [[] |]; try discriminate;
    intros _; by eexists.
Qed.

Lemma field_list (k : str) (d : list (str * json)) :
  field_ok is_list k d = true ->
  exists l, default (JList []) (PyDict.get PyDict.str_eqb k d) = JList l.
Proof.
  unfold field_ok. destruct (PyDict.get PyDict.str_eqb k d) as [[] |]; try discriminate;
    intros _; by eexists.
Qed.

Lemma ava_json_intent_entry (acc : table) (e : json) :
  ava_intent_schema e = true ->
  ava_json_intent acc e
  = Ok (match More.ava_entry e with
        | Some (k, ex) => PyDict.set key_eqb (JStr k) ex acc
        | None => acc
        end).
Proof.
  destruct e as [| ? | ? | ? | ? | ? | d]; try discriminate. cbn [ava_intent_schema].
  intros [[intent_id Hid]%field_str [samples Hs]%field_list]%andb_prop.
  unfold ava_json_intent, More.ava_entry, py_get. cbn [mbind res_bind].
  rewrite Hid, Hs. cbn [py_iter truthy mbind res_bind].
  destruct intent_id as [| c intent_id]; [reflexivity |].
  destruct (truthy (default (JStr []) (PyDict.get PyDict.str_eqb (lit "c") d)));
    cbn [app]; [reflexivity |]. by destruct samples.
Qed.

Lemma vos_json_command_entry (lower : str -> str) (acc : table) (e : json) :
  vos_command_schema e = true ->
  vos_json_command lower acc e
  = Ok (match More.vos_entry lower e with
        | Some (k, ex) => PyDict.set key_eqb (JStr k) ex acc
        | None => acc
        end).
Proof.
  destruct e as [| ? | ? | ? | ? | ? | d]; try discriminate. cbn [vos_command_schema].
  intros [[action Haction]%field_str [synonyms Hsyn]%field_list]%andb_prop.
  unfold vos_json_command, More.vos_entry, py_get. cbn [mbind res_bind].
  rewrite Haction, Hsyn. cbn [truthy].
  destruct action as [| c action]; [reflexivity |]. cbn [andb].
  by destruct (truthy (default (JStr []) (PyDict.get PyDict.str_eqb (lit "cmd") d))).
Qed.

(** Within one document of schema A, whatever its other fields, the table
    holds under every id the examples of the last entry with that id that
    has examples (the canonical text first, then the samples): a later entry
    replaces an earlier one, entries that follow with other ids change
    nothing, and an id no entry gives is absent. *)
Theorem ava_json_last_entry_wins (d : list (str * json)) (entries : list json) :
  PyDict.get PyDict.str_eqb (lit "i") d = Some (JList entries) ->
  forallb ava_intent_schema entries = true ->
  exists intents,
    parse_ava_json_format (Some (JDict d)) = Ok intents
    /\ forall id, PyDict.get key_eqb (JStr id) intents
                  = More.last_entry id (omap More.ava_entry entries).
Proof.
  intros Hd Hentries.
  destruct (fold_last_entry ava_json_intent More.ava_entry ava_intent_schema
              ava_json_intent_entry entries [] Hentries) as [intents [Hfold Hget]].
  exists intents. split.
  - unfold parse_ava_json_format, py_contains, py_getitem, PyDict.mem. rewrite Hd.
    cbn [mbind res_bind]. exact Hfold.
  - intros id. rewrite Hget. by destruct (More.last_entry id _).
Qed.

Lemma ava_json_last_entry_wins_witness :
  exists intents,
    parse_ava_json_format
      (Some (JDict [(lit "schema", JStr (lit "ava-1.0"));
                    (lit "i",
         JList [ JDict [(lit "id", JStr (lit "a")); (lit "s", JList [JStr (lit "x")])];
                 JDict [(lit "id", JStr (lit "b")); (lit "c", JStr (lit "z"))];
                 JDict [(lit "id", JStr (lit "a")); (lit "s", JList [JStr (lit "y")])];
                 JDict [(lit "id", JStr (lit "c")); (lit "s", JList [])];
                 JDict [(lit "s", JList [JStr (lit "w")])] ])]))
    = Ok intents
    /\ PyDict.get key_eqb (JStr (lit "a")) intents = Some [JStr (lit "y")]
    /\ PyDict.get key_eqb (JStr (lit "b")) intents = Some [JStr (lit "z")]
    /\ PyDict.get key_eqb (JStr (lit "c")) intents = None.
Proof.
  destruct (ava_json_last_entry_wins
              [(lit "schema", JStr (lit "ava-1.0"));
               (lit "i",
         JList [ JDict [(lit "id", JStr (lit "a")); (lit "s", JList [JStr (lit "x")])];
                 JDict [(lit "id", JStr (lit "b")); (lit "c", JStr (lit "z"))];
                 JDict [(lit "id", JStr (lit "a")); (lit "s", JList [JStr (lit "y")])];
                 JDict [(lit "id", JStr (lit "c")); (lit "s", JList [])];
                 JDict [(lit "s", JList [JStr (lit "w")])] ])]
              [ JDict [(lit "id", JStr (lit "a")); (lit "s", JList [JStr (lit "x")])];
                JDict [(lit "id", JStr (lit "b")); (lit "c", JStr (lit "z"))];
                JDict [(lit "id", JStr (lit "a")); (lit "s", JList [JStr (lit "y")])];
                JDict [(lit "id", JStr (lit "c")); (lit "s", JList [])];
                JDict [(lit "s", JList [JStr (lit "w")])] ])
    as [intents [Hparse Hget]].
  - vm_compute. reflexivity.
  - vm_compute. reflexivity.
  - exists intents. split; [exact Hparse |].
    rewrite !Hget. vm_compute. repeat split; reflexivity.
Defined.

(** Within one document of schema B the table holds under every id the
    command, followed by its synonyms, of the last command whose action
    lower-cases to that id and whose command text is not empty: a command
    met again, in any letter case, replaces the earlier one, commands that
    follow with other actions change nothing, and an id no command gives is
    absent. *)
Theorem vos_json_last_command_wins (lower : str -> str) (d : list (str * json))
    (commands : list json) :
  PyDict.get PyDict.str_eqb (lit "commands") d = Some (JList commands) ->
  forallb vos_command_schema commands = true ->
  exists intents,
    parse_vos_json_format lower (Some (JDict d)) = Ok intents
    /\ forall id, PyDict.get key_eqb (JStr id) intents
                  = More.last_entry id (omap (More.vos_entry lower) commands).
Proof.
  intros Hd Hcommands.
  destruct (fold_last_entry (vos_json_command lower) (More.vos_entry lower) vos_command_schema
              (vos_json_command_entry lower) commands [] Hcommands)
    as [intents [Hfold Hget]].
  exists intents. split.
  - unfold parse_vos_json_format, py_get. rewrite Hd. cbn [default mbind res_bind py_iter].
    exact Hfold.
  - intros id. rewrite Hget. by destruct (More.last_entry id _).
Qed.

Lemma vos_json_last_command_wins_witness :
  exists intents,
    parse_vos_json_format ascii_lower
      (Some (JDict [(lit "schema", JStr (lit "vos-1.0"));
                    (lit "commands",
         JList [ JDict [(lit "action", JStr (lit "wifi_on")); (lit "cmd", JStr (lit "wifi"))];
                 JDict [(lit "action", JStr (lit "WIFI_ON")); (lit "cmd", JStr (lit "turn on"));
                        (lit "syn", JList [JStr (lit "enable")])];
                 JDict [(lit "action", JStr (lit "MUTE")); (lit "cmd", JStr (lit "mute"))];
                 JDict [(lit "action", JStr (lit "wifi_on"))] ])]))
    = Ok intents
    /\ PyDict.get key_eqb (JStr (lit "wifi_on")) intents
       = Some [JStr (lit "turn on"); JStr (lit "enable")]
    /\ PyDict.get key_eqb (JStr (lit "mute")) intents = Some [JStr (lit "mute")]
    /\ PyDict.get key_eqb (JStr (lit "WIFI_ON")) intents = None.
Proof.
  destruct (vos_json_last_command_wins ascii_lower
              [(lit "schema", JStr (lit "vos-1.0"));
               (lit "commands",
         JList [ JDict [(lit "action", JStr (lit "wifi_on")); (lit "cmd", JStr (lit "wifi"))];
                 JDict [(lit "action", JStr (lit "WIFI_ON")); (lit "cmd", JStr (lit "turn on"));
                        (lit "syn", JList [JStr (lit "enable")])];
                 JDict [(lit "action", JStr (lit "MUTE")); (lit "cmd", JStr (lit "mute"))];
                 JDict [(lit "action", JStr (lit "wifi_on"))] ])]
              [ JDict [(lit "action", JStr (lit "wifi_on")); (lit "cmd", JStr (lit "wifi"))];
                JDict [(lit "action", JStr (lit "WIFI_ON")); (lit "cmd", JStr (lit "turn on"));
                       (lit "syn", JList [JStr (lit "enable")])];
                JDict [(lit "action", JStr (lit "MUTE")); (lit "cmd", JStr (lit "mute"))];
                JDict [(lit "action", JStr (lit "wifi_on"))] ])
    as [intents [Hparse Hget]].
  - vm_compute. reflexivity.
  - vm_compute. reflexivity.
  - exists intents. split; [exact Hparse |].
    rewrite !Hget. vm_compute. repeat split; reflexivity.
Defined.

(** *** One file in the loader *)

Lemma set_hashable (k : json) (v : list json) (t : table) :
  More.hashable_table t -> forallb More.hashable v = true ->
  More.hashable_table (PyDict.set key_eqb k v t).
Proof.
  intros Ht Hv. induction Ht as [| [k1 v1] t H1 Ht IH]; cbn [PyDict.set].
  - by repeat constructor.
  - destruct (key_eqb k1 k); constructor; done.
Qed.

Lemma get_hashable (k : json) (l : list json) (t : table) :
  More.hashable_table t -> PyDict.get key_eqb k t = Some l -> forallb More.hashable l = true.
Proof.
  intros Ht. induction Ht as [| [k1 v1] t H1 Ht IH]; cbn [PyDict.get]; [discriminate |].
  destruct (key_eqb k1 k); [by intros [= <-] | exact IH].
Qed.

Lemma grows_refl (t : table) : More.grows t t.
Proof. intros k s Hs. by exists s. Qed.

Lemma grows_trans (t1 t2 t3 : table) : More.grows t1 t2 -> More.grows t2 t3 -> More.grows t1 t3.
Proof.
  intros H12 H23 k s Hs. destruct (H12 k s Hs) as [s2 [Hs2 Hin2]].
  destruct (H23 k s2 Hs2) as [s3 [Hs3 Hin3]]. exists s3. split; [exact Hs3 | auto].
Qed.

Lemma append_example_grows (k0 : str) (ex : json) (t : table) (s : list json) :
  More.hashable_table t -> More.hashable ex = true ->
  PyDict.get key_eqb (JStr k0) t = Some s ->
  More.hashable_table (More.append_example (JStr k0) ex t)
  /\ More.grows t (More.append_example (JStr k0) ex t)
  /\ PyDict.get key_eqb (JStr k0) (More.append_example (JStr k0) ex t) = Some (s ++ [ex]).
Proof.
  intros Ht Hex Hs. unfold More.append_example. rewrite Hs. split; [| split].
  - apply set_hashable; [exact Ht |]. rewrite forallb_app. cbn [forallb].
    by rewrite (get_hashable _ _ _ Ht Hs), Hex.
  - intros k s' Hs'. rewrite get_set_str. destruct (decide (k0 = k)) as [<- |].
    + exists (s ++ [ex]). split; [reflexivity |]. intros y Hy.
      rewrite Hs in Hs'. injection Hs' as <-. apply elem_of_app. by left.
    + by exists s'.
  - rewrite get_set_str. by destruct (decide (k0 = k0)).
Qed.

Lemma append_new_text (k0 : str) (existing : list json) (examples : list str) (t : table)
    (s : list json) :
  More.hashable_table t ->
  PyDict.get key_eqb (JStr k0) t = Some s ->
  exists t' s',
    More.append_new (JStr k0) existing (map JStr examples) t = (Ok tt, t')
    /\ More.hashable_table t' /\ More.grows t t'
    /\ PyDict.get key_eqb (JStr k0) t' = Some s'
    /\ forall x, x ∈ examples -> JStr x ∈ existing \/ JStr x ∈ s'.
Proof.
  revert t s. induction examples as [| x rest IH]; intros t s Ht Hs; cbn [map More.append_new].
  - exists t, s. repeat split; [exact Ht | apply grows_refl | exact Hs |].
    intros x Hx. by apply elem_of_nil in Hx.
  - cbn [More.hashable].
    destruct (existsb (fun y => key_eqb y (JStr x)) existing) eqn:E.
    + destruct (IH t s Ht Hs) as (t' & s' & Hrun & Ht' & Hg & Hs' & Hin).
      exists t', s'. repeat split; try done.
      intros y [-> | Hy]%elem_of_cons; [| by apply Hin].
      left. apply existsb_exists in E as [y [Hy Heq]].
      apply key_eqb_str in Heq as ->. by apply list_elem_of_In.
    + destruct (append_example_grows k0 (JStr x) t s Ht eq_refl Hs) as (Ht1 & Hg1 & Hs1).
      destruct (IH _ _ Ht1 Hs1) as (t' & s' & Hrun & Ht' & Hg & Hs' & Hin).
      exists t', s'. repeat split; try done; [by apply grows_trans with (2 := Hg) |].
      intros y [-> | Hy]%elem_of_cons; [| by apply Hin].
      right. destruct (Hg k0 _ Hs1) as [s2 [Hs2 Hin2]].
      rewrite Hs' in Hs2. injection Hs2 as <-. apply Hin2, elem_of_app. right. by left.
Qed.

Lemma merge_intent_text (k0 : str) (examples : list str) (t : table) :
  More.hashable_table t ->
  exists t' l,
    More.merge_intent t (JStr k0, map JStr examples) = (Ok tt, t')
    /\ More.hashable_table t' /\ More.grows t t'
    /\ PyDict.get key_eqb (JStr k0) t' = Some l
    /\ forall x, x ∈ examples -> JStr x ∈ l.
Proof.
  intros Ht. unfold More.merge_intent.
  destruct (PyDict.get key_eqb (JStr k0) t) as [stored |] eqn:Hs.
  - rewrite (get_hashable _ _ _ Ht Hs).
    destruct (append_new_text k0 stored examples t stored Ht Hs)
      as (t' & s' & Hrun & Ht' & Hg & Hs' & Hin).
    exists t', s'. repeat split; try done.
    intros x Hx. destruct (Hin x Hx) as [Hold | Hnew]; [| exact Hnew].
    destruct (Hg k0 _ Hs) as [s2 [Hs2 Hin2]]. rewrite Hs' in Hs2. injection Hs2 as <-. auto.
  - exists (PyDict.set key_eqb (JStr k0) (map JStr examples) t), (map JStr examples).
    split; [reflexivity |]. split; [| split; [| split]].
    + apply set_hashable; [exact Ht |]. by induction examples.
    + intros k s Hk. rewrite get_set_str. destruct (decide (k0 = k)) as [<- |]; [congruence |].
      by exists s.
    + rewrite get_set_str. by destruct (decide (k0 = k0)).
    + intros x Hx. by apply (list_elem_of_fmap_2 JStr).
Qed.

Lemma merge_text (new : Loader.intent_table) (t : table) :
  More.hashable_table t ->
  exists t',
    More.merge (More.of_text new) t = (Ok tt, t')
    /\ More.hashable_table t' /\ More.grows t t'
    /\ forall k examples, Loader.lookup k new = Some examples ->
         exists l, PyDict.get key_eqb (JStr k) t' = Some l
                   /\ forall x, x ∈ examples -> JStr x ∈ l.
Proof.
  revert t. induction new as [| [k0 exs0] rest IH]; intros t Ht; cbn [More.of_text map More.merge].
  - exists t. repeat split; [exact Ht | apply grows_refl | discriminate].
  - cbn [fst snd].
    destruct (merge_intent_text k0 exs0 t Ht) as (t1 & l1 & Hrun1 & Ht1 & Hg1 & Hl1 & Hin1).
    rewrite Hrun1.
    destruct (IH t1 Ht1) as (t' & Hrun & Ht' & Hg & Hlookup).
    exists t'. split; [exact Hrun |]. split; [exact Ht' |].
    split; [by apply grows_trans with (2 := Hg) |].
    intros k examples. unfold Loader.lookup. cbn [PyDict.get].
    unfold PyDict.str_eqb at 1. destruct (bool_decide_reflect (k0 = k)) as [<- | Hne].
    + intros [= <-]. destruct (Hg k0 _ Hl1) as [l [Hl Hin]]. exists l. split; [exact Hl | auto].
    + apply Hlookup.
Qed.

(** On tables of strings the loop of the loader is the merge of
    [Loader.merge]: nothing is raised, and the two tables agree. *)

Lemma get_of_text (k : str) (t : Loader.intent_table) :
  PyDict.get key_eqb (JStr k) (More.of_text t) = map JStr <$> Loader.lookup k t.
Proof.
  unfold Loader.lookup. induction t as [| [k1 v1] t IH]; [reflexivity |].
  cbn [More.of_text map PyDict.get fst snd key_eqb].
  destruct (PyDict.str_eqb k1 k); [reflexivity | exact IH].
Qed.

Lemma set_of_text (k : str) (v : list str) (t : Loader.intent_table) :
  PyDict.set key_eqb (JStr k) (map JStr v) (More.of_text t)
  = More.of_text (PyDict.set PyDict.str_eqb k v t).
Proof.
  induction t as [| [k1 v1] t IH]; [reflexivity |].
  cbn [More.of_text map PyDict.set fst snd key_eqb].
  destruct (PyDict.str_eqb k1 k); [reflexivity |].
  cbn [map fst snd]. f_equal. exact IH.
Qed.

Lemma append_example_of_text (k x : str) (t : Loader.intent_table) :
  More.append_example (JStr k) (JStr x) (More.of_text t)
  = More.of_text (Loader.append_example k x t).
Proof.
  unfold More.append_example, Loader.append_example. rewrite get_of_text.
  destruct (Loader.lookup k t) as [l |]; [| reflexivity].
  cbn [fmap option_fmap option_map]. by rewrite <- set_of_text, map_app.
Qed.

Lemma member_of_text (x : str) (stored : list str) :
  existsb (fun y => key_eqb y (JStr x)) (map JStr stored)
  = bool_decide (x ∈ (list_to_set stored : gset (list N))).
Proof.
  destruct (existsb _ _) eqn:E; symmetry.
  - apply bool_decide_eq_true_2, elem_of_list_to_set.
    apply existsb_exists in E as [y [Hy Heq]]. apply key_eqb_str in Heq as ->.
    apply in_map_iff in Hy as [x' [[= ->] Hx]]. by apply list_elem_of_In.
  - apply bool_decide_eq_false_2. intros Hx%elem_of_list_to_set.
    assert (Ht : existsb (fun y => key_eqb y (JStr x)) (map JStr stored) = true); [| congruence].
    apply existsb_exists. exists (JStr x). split.
    + apply in_map. by apply list_elem_of_In.
    + cbn [key_eqb]. by apply bool_decide_eq_true_2.
Qed.

Lemma append_new_of_text (k : str) (stored examples : list str) (t : Loader.intent_table) :
  More.append_new (JStr k) (map JStr stored) (map JStr examples) (More.of_text t)
  = (Ok tt,
     More.of_text
       (fold_left
          (fun acc ex =>
             if bool_decide (ex ∈ (list_to_set stored : gset (list N))) then acc
             else Loader.append_example k ex acc)
          examples t)).
Proof.
  revert t. induction examples as [| x rest IH]; intros t; [reflexivity |].
  cbn [map More.append_new More.hashable fold_left]. rewrite member_of_text.
  destruct (bool_decide _); [apply IH |]. rewrite append_example_of_text. apply IH.
Qed.

Lemma merge_intent_of_text (t : Loader.intent_table) (k : str) (examples : list str) :
  More.merge_intent (More.of_text t) (JStr k, map JStr examples)
  = (Ok tt, More.of_text (Loader.merge_intent t (k, examples))).
Proof.
  unfold More.merge_intent, Loader.merge_intent. rewrite get_of_text.
  destruct (Loader.lookup k t) as [stored |]; cbn [fmap option_fmap option_map].
  - assert (Hh : forallb More.hashable (map JStr stored) = true) by by induction stored.
    rewrite Hh. apply append_new_of_text.
  - by rewrite set_of_text.
Qed.

Lemma merge_of_text (new t : Loader.intent_table) :
  More.merge (More.of_text new) (More.of_text t) = (Ok tt, More.of_text (Loader.merge t new)).
Proof.
  unfold Loader.merge. revert t.
  induction new as [| [k examples] rest IH]; intros t; [reflexivity |].
  cbn [More.of_text map More.merge fst snd fold_left].
  rewrite merge_intent_of_text. apply IH.
Qed.



(** A content that begins with a brace after white space goes to the JSON
    parsers, whatever its lines look like: when it is no JSON nothing is
    loaded and the file is not counted. *)
Example load_file_brace :
  More.load_file ascii_lower ascii_isupper ([(JStr (lit "a"), [JStr (lit "y")])], 3)
    (Ok (lit " {" ++ [10%N] ++ lit "---" ++ [10%N] ++ lit "---" ++ [10%N] ++ lit "VCM:a:x")) None
  = (([(JStr (lit "a"), [JStr (lit "y")])], 3), []).
Proof. vm_compute. reflexivity. Qed.

(** A JSON file with an example that cannot be hashed: the file is counted,
    the examples before it are appended, then [TypeError] is caught. *)
Example load_file_unhashable :
  More.load_file ascii_lower ascii_isupper ([(JStr (lit "a"), [JStr (lit "y")])], 3)
    (Ok (lit "{}"))
    (Some (JDict [(lit "i",
       JList [JDict [(lit "id", JStr (lit "a"));
                     (lit "s", JList [JStr (lit "x"); JList [JInt 1]; JStr (lit "z")])]])]))
  = (([(JStr (lit "a"), [JStr (lit "y"); JStr (lit "x")])], 4), [TypeError]).
Proof. vm_compute. reflexivity. Qed.

Lemma yaml_line_takes_record_witness :
  yaml_line ascii_isupper ([], 2) (lit "VCM" ++ [58%N] ++ lit "alarm" ++ [58%N] ++ lit "wake me at 7:30")
  = (add_example (strip (lit "alarm")) (strip (lit "wake me at 7:30")) [], 2).
Proof.
  apply (yaml_line_takes_record ascii_isupper [] (lit "VCM") (lit "alarm") (lit "wake me at 7:30"));
    vm_compute; (reflexivity || discriminate).
Defined.

End ParserMore.

(** ** Aggregator *)

Module AggregatorMore.

Import Aggregator.

Section Numpy.

Variables (vec scalar : Type).
Variable np_zeros : nat -> vec.
Variable np_add : vec -> vec -> vec.
Variable np_div_count : vec -> Z -> vec.
Variable np_div : vec -> scalar -> vec.
Variable np_norm : vec -> scalar.
Variable np_gt0 : scalar -> bool.
Variable session_run : Tokenizer.TokenizedSequence -> res (hidden_states vec).
Variable tokenizer : Tokenizer.BertTokenizer.
Variable lower : str -> str.

(** Pooling over a mask of [n] ones and [m] zeros, from position [i] on: the
    rows at the positions below [n] are added up and counted. *)
Lemma pool_mask (n m : nat) (rs : list vec) :
  forall (i : nat) (embedding : vec) (count : Z),
    (i + length rs <= n + m)%nat ->
    pool vec np_add (replicate n 1 ++ replicate m 0) i rs (embedding, count)
    = Ok (fold_left np_add (take (n - i) rs) embedding,
          count + Z.of_nat (Nat.min (n - i) (length rs))).
Proof.
  induction rs as [| row rs IH]; intros i embedding count Hlen; cbn [pool length] in *.
  - rewrite take_nil. cbn. do 2 f_equal. lia.
  - destruct (decide (i < n)%nat) as [Hin | Hout].
    + rewrite lookup_app_l by (rewrite length_replicate; lia).
      rewrite lookup_replicate_2 by lia. cbn [Z.eqb Pos.eqb].
      rewrite IH by lia.
      replace (n - i)%nat with (S (n - S i)) by lia. cbn [take fold_left]. do 2 f_equal. lia.
    + rewrite lookup_app_r by (rewrite length_replicate; lia).
      rewrite lookup_replicate_2 by (rewrite length_replicate; lia). cbn [Z.eqb].
      rewrite IH by lia.
      replace (n - i)%nat with 0%nat by lia. replace (n - S i)%nat with 0%nat by lia.
      cbn. do 2 f_equal; lia.
Qed.

(** More rows than mask positions: the loop indexes past the mask. *)
Lemma pool_past_mask (mask : list Z) (rs : list vec) :
  forall (i : nat) (st : vec * Z),
    (i <= length mask < i + length rs)%nat ->
    pool vec np_add mask i rs st = Raise IndexError.
Proof.
  induction rs as [| row rs IH]; intros i [embedding count] Hlen; cbn [pool length] in *.
  - lia.
  - destruct (mask !! i) as [m |] eqn:E; [| reflexivity].
    apply lookup_lt_Some in E as Hi.
    destruct (m =? 1); apply IH; lia.
Qed.

Hypothesis max_length_128 : Tokenizer.max_length tokenizer = 128.

(** With the 128 rows the engine is to return, the embedding of a text is
    the normalized mean of the rows at the [n] unmasked positions, [n]
    counting the text's ids and the two frame ids: no padding row is added
    and the count is never zero. *)
Theorem compute_embedding_pools_unmasked_rows (text : str) (hs : hidden_states vec) :
  session_run (Tokenizer.tokenize tokenizer lower text) = Ok hs ->
  length (rows vec hs) = 128%nat ->
  exists n : nat,
    (2 <= n <= 128)%nat /\
    Tokenizer.attention_mask (Tokenizer.tokenize tokenizer lower text)
      = replicate n 1 ++ replicate (128 - n) 0 /\
    compute_embedding vec scalar np_zeros np_add np_div_count np_div np_norm np_gt0
      session_run tokenizer lower text
    = Ok (l2_normalize vec scalar np_div np_norm np_gt0
            (np_div_count (fold_left np_add (take n (rows vec hs)) (np_zeros (hidden_size vec hs)))
                          (Z.of_nat n))).
Proof.
  intros Hrun Hrows.
  destruct (TokenizerSpec.tokenize_framed tokenizer lower max_length_128 text)
    as (toks & Hlen & _ & Hmask & _).
  exists (2 + length toks)%nat. split; [lia |].
  replace (128 - (2 + length toks))%nat with (126 - length toks)%nat by lia.
  split; [exact Hmask |].
  unfold compute_embedding. rewrite Hrun. cbn [mbind res_bind]. rewrite Hmask.
  rewrite pool_mask by (rewrite Hrows; lia). cbn [mbind res_bind].
  rewrite Nat.sub_0_r, Hrows, Nat.min_l by lia.
  destruct (Z.ltb_spec 0 (0 + Z.of_nat (2 + length toks))) as [_ | H]; [| lia].
  rewrite Z.add_0_l. reflexivity.
Qed.

(** When the engine returns more than 128 rows the pooling loop runs past
    the mask and the embedding fails with an IndexError. *)
Theorem compute_embedding_too_many_rows (text : str) (hs : hidden_states vec) :
  session_run (Tokenizer.tokenize tokenizer lower text) = Ok hs ->
  (128 < length (rows vec hs))%nat ->
  compute_embedding vec scalar np_zeros np_add np_div_count np_div np_norm np_gt0
    session_run tokenizer lower text
  = Raise IndexError.
Proof.
  intros Hrun Hrows.
  destruct (TokenizerSpec.tokenize_framed tokenizer lower max_length_128 text)
    as (toks & Hlen & _ & Hmask & _).
  unfold compute_embedding. rewrite Hrun. cbn [mbind res_bind].
  rewrite pool_past_mask; [reflexivity |].
  rewrite Hmask, length_app, !length_replicate. lia.
Qed.

End Numpy.

Lemma compute_embedding_pools_unmasked_rows_witness :
  exists n : nat,
    (2 <= n <= 128)%nat /\
    Tokenizer.attention_mask
      (Tokenizer.tokenize Samples.plain_tokenizer ascii_lower (lit "unaffable"))
      = replicate n 1 ++ replicate (128 - n) 0 /\
    compute_embedding Z Z (fun _ => 0) Z.add Z.div Z.div Z.abs (Z.ltb 0)
      More.toy_session Samples.plain_tokenizer ascii_lower (lit "unaffable")
    = Ok (l2_normalize Z Z Z.div Z.abs (Z.ltb 0)
            (Z.div (fold_left Z.add (take n (map Z.of_nat (seq 1 128))) 0) (Z.of_nat n))).
Proof.
  apply (compute_embedding_pools_unmasked_rows Z Z (fun _ => 0) Z.add Z.div Z.div Z.abs (Z.ltb 0)
           More.toy_session Samples.plain_tokenizer ascii_lower eq_refl (lit "unaffable")
           {| rows := map Z.of_nat (seq 1 128); hidden_size := 1 |}).
  - reflexivity.
  - vm_compute. reflexivity.
Defined.

Lemma compute_embedding_too_many_rows_witness :
  compute_embedding Z Z (fun _ => 0) Z.add Z.div Z.div Z.abs (Z.ltb 0)
    More.long_session Samples.plain_tokenizer ascii_lower (lit "unaffable")
  = Raise IndexError.
Proof.
  apply (compute_embedding_too_many_rows Z Z (fun _ => 0) Z.add Z.div Z.div Z.abs (Z.ltb 0)
           More.long_session Samples.plain_tokenizer ascii_lower eq_refl (lit "unaffable")
           {| rows := map Z.of_nat (seq 1 129); hidden_size := 1 |}).
  - reflexivity.
  - vm_compute. lia.
Defined.

Section Main.

Context {vec : Type}.
Variable embed : list str -> option vec * list str.

(** The record [main] keeps for an intent: its vector with the number of
    examples listed for it. *)
Local Abbreviation kept item :=
  ((fun e => (fst item, (e, Z.of_nat (length (snd item))))) <$> fst (embed (snd item))).

Lemma compute_embeddings_loop (total : Z) (intents : Loader.intent_table) :
  forall (embeddings : list (str * (vec * Z))) (printed : list str) (i : Z),
    NoDup (map fst intents) ->
    (forall k, k ∈ map fst intents -> k ∉ map fst embeddings) ->
    fst (fst (fold_left (More.embed_intent embed total) intents (embeddings, printed, i)))
    = embeddings ++ omap (fun item => kept item) intents.
Proof.
  induction intents as [| [k examples] rest IH]; intros embeddings printed i Hnd Hfresh;
    cbn [fold_left omap list_omap].
  - by rewrite app_nil_r.
  - cbn [map fst] in Hnd, Hfresh. apply NoDup_cons in Hnd as [Hk Hnd].
    unfold More.embed_intent at 2. cbn [fst snd].
    destruct (embed examples) as [[e |] warnings]; cbn [fmap option_fmap option_map fst].
    + rewrite IH; [| exact Hnd |].
      * assert (Hset : forall (d : list (str * (vec * Z))) (v : vec * Z),
                   k ∉ map fst d -> PyDict.set PyDict.str_eqb k v d = d ++ [(k, v)]).
        { clear. intros d v. induction d as [| [k0 v0] d IHd]; cbn [map fst PyDict.set app];
            intros Hout; [reflexivity |].
          apply not_elem_of_cons in Hout as [Hne Hout].
          unfold PyDict.str_eqb at 1. rewrite bool_decide_eq_false_2 by congruence.
          by rewrite IHd. }
        rewrite Hset by (apply Hfresh; left). by rewrite <- app_assoc.
      * intros k' Hk' Hin.
        assert (Hkeys : forall (d : list (str * (vec * Z))) (v : vec * Z) x,
                   x ∈ map fst (PyDict.set PyDict.str_eqb k v d) -> x = k \/ x ∈ map fst d).
        { clear. intros d v x. induction d as [| [k0 v0] d IHd]; cbn [map fst PyDict.set].
          - intros H. apply list_elem_of_singleton in H. by left.
          - destruct (PyDict.str_eqb k0 k); cbn [map fst]; intros H.
            + by right.
            + apply elem_of_cons in H as [-> | H]; [right; left |].
              destruct (IHd H) as [-> | H']; [by left | right; by right]. }
        destruct (Hkeys _ _ _ Hin) as [-> | Hold]; [contradiction |].
        apply (Hfresh k'); [by right | exact Hold].
    + apply IH; [exact Hnd |]. intros k' Hk'. apply Hfresh. by right.
Qed.


End Main.


End AggregatorMore.

(** ** Binary codec *)

Module AotMore.

Import Aot AotReader.

Ltac ndiv := zify; Z.to_euclidean_division_equations; lia.

Lemma length_le32 (n : N) : length (le32 n) = 4%nat.
Proof. reflexivity. Qed.

Lemma length_vector_bytes (v : list N) : length (flat_map le32 v) = (4 * length v)%nat.
Proof.
  induction v as [| x v IH]; [reflexivity |].
  cbn [flat_map]. rewrite length_app, length_le32, IH. cbn [length]. lia.
Qed.

Lemma le32_bytes (n : N) : Forall (fun b => (b < 256)%N) (le32 n).
Proof. unfold le32. repeat constructor; ndiv. Qed.

Lemma vector_bytes (v : list N) : Forall (fun b => (b < 256)%N) (flat_map le32 v).
Proof.
  induction v as [| x v IH]; [constructor |].
  cbn [flat_map]. apply Forall_app. split; [apply le32_bytes | exact IH].
Qed.

Lemma encode_cp_bytes (c : N) (bs : list N) :
  Utf8.encode_cp c = Some bs -> Forall (fun b => (b < 256)%N) bs.
Proof.
  unfold Utf8.encode_cp.
  repeat match goal with
         | |- context [N.ltb ?a ?b] => destruct (N.ltb_spec a b)
         | |- context [N.leb ?a ?b] => destruct (N.leb_spec a b)
         end; cbn [andb]; intros [= <-]; repeat constructor; ndiv.
Qed.

Lemma utf8_bytes (s : str) (bs : list N) :
  Utf8.encode s = Ok bs -> Forall (fun b => (b < 256)%N) bs.
Proof.
  revert bs. induction s as [| c s IH]; intros bs; cbn [Utf8.encode].
  - intros [= <-]. constructor.
  - destruct (Utf8.encode_cp c) as [cb |] eqn:Ec; [| discriminate].
    unfold mbind, res_bind. destruct (Utf8.encode s) as [rest | e]; [| discriminate].
    intros [= <-]. apply Forall_app. split; [by apply encode_cp_bytes with c | by apply IH].
Qed.

Lemma container_of_encode (embeddings : list record) (model_version : str) (content : bytes) :
  encode embeddings model_version = Some content ->
  exists (model_utf8 : bytes) (ids_utf8 : list bytes),
    Utf8.encode model_version = Ok model_utf8 /\
    Forall2 (fun r ib => Utf8.encode (fst r) = Ok ib /\ Z.of_nat (length ib) < 2 ^ 32)
            embeddings ids_utf8 /\
    content
    = [65; 79; 84; 0]%N
      ++ le32 1
      ++ le32 (N.of_nat (length embeddings))
      ++ le32 (N.of_nat (header_dimension embeddings))
      ++ ljust32 model_utf8
      ++ concat (zip_with
                   (fun r ib => le32 (N.of_nat (length ib)) ++ ib ++ flat_map le32 (fst (snd r)))
                   embeddings ids_utf8).
Proof.
  rewrite AotSpec.encode_container. unfold container_bytes, mbind, res_bind.
  change (pack_I 1) with (Ok (le32 1)).
  destruct (pack_I (Z.of_nat (length embeddings))) as [n | e] eqn:Hn; [| discriminate].
  destruct (pack_I (Z.of_nat (header_dimension embeddings))) as [d | e] eqn:Hd;
    [| discriminate].
  destruct (Utf8.encode model_version) as [model_utf8 | e]; [| discriminate].
  destruct (records_bytes embeddings) as [body | e] eqn:Hbody; [| discriminate].
  intros Hc. apply AotSpec.pack_I_ok in Hn as [_ ->]. apply AotSpec.pack_I_ok in Hd as [_ ->].
  destruct (AotSpec.records_bytes_ok _ _ Hbody) as (ids & Hids & ->).
  exists model_utf8, ids. split; [reflexivity |]. split; [exact Hids |].
  replace (Z.to_N (Z.of_nat (length embeddings))) with (N.of_nat (length embeddings)) in Hc
    by lia.
  replace (Z.to_N (Z.of_nat (header_dimension embeddings)))
    with (N.of_nat (header_dimension embeddings)) in Hc by lia.
  congruence.
Qed.

Lemma length_records_body (embeddings : list record) (ids : list bytes) :
  length (concat (zip_with
                    (fun r ib => le32 (N.of_nat (length ib)) ++ ib ++ flat_map le32 (fst (snd r)))
                    embeddings ids))
  = sum_list (zip_with (fun r ib => 4 + length ib + 4 * length (fst (snd r)))%nat
                       embeddings ids).
Proof.
  revert ids. induction embeddings as [| r rs IH]; intros [| ib ids];
    cbn [zip_with concat sum_list sum_list_with]; try reflexivity.
  rewrite !length_app, length_le32, length_vector_bytes, IH. unfold id. lia.
Qed.

(** The size of the file: 48 bytes of header and, for each record, 4 bytes
    of length, the bytes of the id and 4 bytes per vector component. *)
Theorem generate_aot_size (embeddings : list record) (model_version : str) (content : bytes) :
  encode embeddings model_version = Some content ->
  exists ids_utf8 : list bytes,
    Forall2 (fun r ib => Utf8.encode (fst r) = Ok ib) embeddings ids_utf8 /\
    length content
    = (48 + sum_list (zip_with (fun r ib => 4 + length ib + 4 * length (fst (snd r)))
                               embeddings ids_utf8))%nat.
Proof.
  intros H. destruct (container_of_encode _ _ _ H) as (mu & ids & _ & Hids & ->).
  exists ids. split.
  - eapply Forall2_impl; [exact Hids |]. by intros r ib [? _].
  - rewrite !length_app, !length_le32, AotSpec.length_ljust32, length_records_body.
    cbn [length]. lia.
Qed.

Lemma generate_aot_size_witness :
  exists ids_utf8 : list bytes,
    Forall2 (fun r ib => Utf8.encode (fst r) = Ok ib) Samples.wifi_on_table ids_utf8 /\
    length [65; 79; 84; 0;  1; 0; 0; 0;  1; 0; 0; 0;  2; 0; 0; 0;
            109; 49; 0; 0; 0; 0; 0; 0; 0; 0; 0; 0; 0; 0; 0; 0;
            0; 0; 0; 0; 0; 0; 0; 0; 0; 0; 0; 0; 0; 0; 0; 0;
            7; 0; 0; 0;  119; 105; 102; 105; 95; 111; 110;
            0; 0; 128; 63;  0; 0; 0; 0]%N
    = (48 + sum_list (zip_with (fun r ib => 4 + length ib + 4 * length (fst (snd r)))
                               Samples.wifi_on_table ids_utf8))%nat.
Proof.
  apply (generate_aot_size Samples.wifi_on_table (lit "m1")). vm_compute. reflexivity.
Defined.

(** Everything written is a byte: every number of the content is below 256,
    whatever the vectors hold. *)
Theorem generate_aot_writes_bytes (embeddings : list record) (model_version : str)
    (content : bytes) :
  encode embeddings model_version = Some content ->
  Forall (fun b => (b < 256)%N) content.
Proof.
  intros H. destruct (container_of_encode _ _ _ H) as (mu & ids & Hmu & Hids & ->).
  repeat apply Forall_app_2; try apply le32_bytes.
  - repeat constructor; lia.
  - apply Forall_take. by apply utf8_bytes with model_version.
  - apply Forall_replicate. lia.
  - clear -Hids. induction Hids as [| r ib rs ids [Hib _] _ IH]; cbn [zip_with concat];
      [constructor |].
    repeat apply Forall_app_2; [apply le32_bytes | by apply utf8_bytes with (fst r) |
                                 apply vector_bytes | exact IH].
Qed.

Lemma generate_aot_writes_bytes_witness :
  Forall (fun b => (b < 256)%N)
    [65; 79; 84; 0;  1; 0; 0; 0;  1; 0; 0; 0;  2; 0; 0; 0;
     109; 49; 0; 0; 0; 0; 0; 0; 0; 0; 0; 0; 0; 0; 0; 0;
     0; 0; 0; 0; 0; 0; 0; 0; 0; 0; 0; 0; 0; 0; 0; 0;
     7; 0; 0; 0;  119; 105; 102; 105; 95; 111; 110;
     0; 0; 128; 63;  0; 0; 0; 0]%N.
Proof.
  apply (generate_aot_writes_bytes Samples.wifi_on_table (lit "m1")). vm_compute. reflexivity.
Defined.

Lemma write_records_stop (done : list record) (bad : record) (rest : list record)
    (body f : bytes) (e : exn) :
  records_bytes done = Ok body ->
  Utf8.encode (fst bad) = Raise e ->
  write_records (done ++ bad :: rest) f = (Raise e, f ++ body).
Proof.
  revert body f. induction done as [| r rs IH]; intros body f Hbody Hbad;
    cbn [app write_records records_bytes] in *.
  - injection Hbody as <-. unfold mbind, file_io_bind. rewrite AotSpec.write_record_run.
    destruct bad as [id [v n]]. cbn [fst] in Hbad. cbn [record_bytes]. unfold mbind, res_bind.
    rewrite Hbad. by rewrite app_nil_r.
  - unfold mbind, res_bind in Hbody.
    destruct (record_bytes r) as [b |] eqn:Hr; [| discriminate].
    destruct (records_bytes rs) as [bs |]; [| discriminate].
    injection Hbody as <-.
    unfold mbind, file_io_bind. rewrite AotSpec.write_record_run, Hr.
    rewrite (IH bs (f ++ b) eq_refl Hbad). by rewrite <- app_assoc.
Qed.

(** An intent id that cannot be encoded stops the writing there: the call
    raises and leaves a file with the complete header, which announces all
    the records, and only the records before the failing one. *)
Theorem generate_aot_stops_at_failing_record (done : list record) (bad : record)
    (rest : list record) (model_version : str) (model_utf8 body : bytes) (e : exn) :
  let embeddings := done ++ bad :: rest in
  Utf8.encode model_version = Ok model_utf8 ->
  Z.of_nat (length embeddings) < 2 ^ 32 ->
  Z.of_nat (header_dimension embeddings) < 2 ^ 32 ->
  records_bytes done = Ok body ->
  Utf8.encode (fst bad) = Raise e ->
  generate_aot embeddings model_version []
  = (Raise e,
     [65; 79; 84; 0]%N ++ le32 1
     ++ le32 (N.of_nat (length embeddings))
     ++ le32 (N.of_nat (header_dimension embeddings))
     ++ ljust32 model_utf8 ++ body).
Proof.
  intros embeddings Hmu Hn Hd Hbody Hbad.
  unfold generate_aot, VERSION, MAGIC, mbind, file_io_bind, eval, write. cbn [app].
  replace (match embeddings with
           | [] => 384
           | (_, (embedding, _)) :: _ => Z.of_nat (length embedding)
           end) with (Z.of_nat (header_dimension embeddings))
    by (destruct embeddings as [| [? [? ?]] ?]; reflexivity).
  change (pack_I 1) with (Ok (le32 1)).
  rewrite (AotSpec.pack_I_nat _ Hn), (AotSpec.pack_I_nat _ Hd), Hmu.
  unfold embeddings at 3. rewrite (write_records_stop done bad rest body _ e Hbody Hbad).
  by rewrite <- !app_assoc.
Qed.

Lemma generate_aot_stops_at_failing_record_witness :
  generate_aot (Samples.wifi_on_table ++ (lit "bad" ++ [55296%N], ([0%N; 0%N], 1)) :: [])
    (lit "m1") []
  = (Raise UnicodeEncodeError,
     [65; 79; 84; 0]%N ++ le32 1
     ++ le32 (N.of_nat (length (Samples.wifi_on_table
                                  ++ (lit "bad" ++ [55296%N], ([0%N; 0%N], 1)) :: [])))
     ++ le32 (N.of_nat (header_dimension (Samples.wifi_on_table
                                  ++ (lit "bad" ++ [55296%N], ([0%N; 0%N], 1)) :: [])))
     ++ ljust32 [109; 49]%N
     ++ [7; 0; 0; 0;  119; 105; 102; 105; 95; 111; 110;  0; 0; 128; 63;  0; 0; 0; 0]%N).
Proof.
  apply (generate_aot_stops_at_failing_record Samples.wifi_on_table
           (lit "bad" ++ [55296%N], ([0%N; 0%N], 1)) [] (lit "m1"));
    vm_compute; reflexivity.
Defined.

Lemma write_records_same (embeddings embeddings' : list record) :
  map (fun r => (fst r, fst (snd r))) embeddings
  = map (fun r => (fst r, fst (snd r))) embeddings' ->
  forall f, write_records embeddings f = write_records embeddings' f.
Proof.
  revert embeddings'. induction embeddings as [| [id [v n]] rs IH];
    intros [| [id' [v' n']] rs'] Hmap f; try discriminate; [reflexivity |].
  cbn [map fst snd] in Hmap. injection Hmap as -> -> Hmap.
  cbn [write_records]. unfold mbind, file_io_bind.
  change (write_record (id', (v', n)) f) with (write_record (id', (v', n')) f).
  destruct (write_record (id', (v', n')) f) as [[[] | e] f']; [by apply IH | reflexivity].
Qed.

(** The file does not hold the example counts: two tables with the same ids
    and vectors in the same order give the same file. *)
Theorem generate_aot_ignores_example_count (embeddings embeddings' : list record)
    (model_version : str) :
  map (fun r => (fst r, fst (snd r))) embeddings
  = map (fun r => (fst r, fst (snd r))) embeddings' ->
  generate_aot embeddings model_version [] = generate_aot embeddings' model_version [].
Proof.
  intros Hmap. unfold generate_aot, mbind, file_io_bind, eval, write.
  assert (Hlen : length embeddings = length embeddings').
  { apply (f_equal length) in Hmap. by rewrite !length_map in Hmap. }
  assert (Hdim : header_dimension embeddings = header_dimension embeddings').
  { destruct embeddings as [| [? [? ?]] ?], embeddings' as [| [? [? ?]] ?];
      try discriminate; [reflexivity |]. cbn in Hmap. by injection Hmap as _ -> _. }
  replace (match embeddings with
           | [] => 384
           | (_, (embedding, _)) :: _ => Z.of_nat (length embedding)
           end) with (Z.of_nat (header_dimension embeddings))
    by (destruct embeddings as [| [? [? ?]] ?]; reflexivity).
  replace (match embeddings' with
           | [] => 384
           | (_, (embedding, _)) :: _ => Z.of_nat (length embedding)
           end) with (Z.of_nat (header_dimension embeddings'))
    by (destruct embeddings' as [| [? [? ?]] ?]; reflexivity).
  rewrite Hlen, Hdim.
  destruct (pack_I VERSION); [| reflexivity].
  destruct (pack_I (Z.of_nat (length embeddings'))); [| reflexivity].
  destruct (pack_I (Z.of_nat (header_dimension embeddings'))); [| reflexivity].
  destruct (Utf8.encode model_version); [| reflexivity].
  apply write_records_same. exact Hmap.
Qed.

Lemma generate_aot_ignores_example_count_witness :
  generate_aot [(lit "a", ([0%N], 1))] (lit "m1") []
  = generate_aot [(lit "a", ([0%N], 7))] (lit "m1") [].
Proof.
  apply (generate_aot_ignores_example_count [(lit "a", ([0%N], 1))] [(lit "a", ([0%N], 7))]).
  reflexivity.
Defined.

Lemma container_parts (embeddings : list record) (model_version : str) (content : bytes) :
  encode embeddings model_version = Some content ->
  exists (model_utf8 body : bytes),
    records_bytes embeddings = Ok body /\
    Z.of_nat (length embeddings) < 2 ^ 32 /\
    Z.of_nat (header_dimension embeddings) < 2 ^ 32 /\
    content
    = [65; 79; 84; 0]%N ++ le32 1 ++ le32 (N.of_nat (length embeddings))
      ++ le32 (N.of_nat (header_dimension embeddings)) ++ ljust32 model_utf8 ++ body.
Proof.
  rewrite AotSpec.encode_container. unfold container_bytes, mbind, res_bind.
  change (pack_I 1) with (Ok (le32 1)).
  destruct (pack_I (Z.of_nat (length embeddings))) as [n | e] eqn:Hn; [| discriminate].
  destruct (pack_I (Z.of_nat (header_dimension embeddings))) as [d | e] eqn:Hd;
    [| discriminate].
  destruct (Utf8.encode model_version) as [model_utf8 | e]; [| discriminate].
  destruct (records_bytes embeddings) as [body | e] eqn:Hbody; [| discriminate].
  intros Hc. apply AotSpec.pack_I_ok in Hn as [Hn ->]. apply AotSpec.pack_I_ok in Hd as [Hd ->].
  exists model_utf8, body. split; [reflexivity |]. split; [lia |]. split; [lia |].
  replace (Z.to_N (Z.of_nat (length embeddings))) with (N.of_nat (length embeddings)) in Hc
    by lia.
  replace (Z.to_N (Z.of_nat (header_dimension embeddings)))
    with (N.of_nat (header_dimension embeddings)) in Hc by lia.
  congruence.
Qed.

Lemma le32_inj (n m : N) : (n < 2 ^ 32)%N -> (m < 2 ^ 32)%N -> le32 n = le32 m -> n = m.
Proof.
  intros Hn Hm E.
  pose proof (AotSpec.unpack_le32 n [] Hn) as H1. pose proof (AotSpec.unpack_le32 m [] Hm) as H2.
  rewrite E in H1. congruence.
Qed.

(** Two tables of float32 vectors that give the same file have the same
    ids and vectors in the same order. *)
Theorem encode_injective (D D' : nat) (embeddings embeddings' : list record)
    (model_version model_version' : str) (content : bytes) :
  Forall (record_of_dimension D) embeddings ->
  Forall (record_of_dimension D') embeddings' ->
  encode embeddings model_version = Some content ->
  encode embeddings' model_version' = Some content ->
  map (fun r => (fst r, fst (snd r))) embeddings
  = map (fun r => (fst r, fst (snd r))) embeddings'.
Proof.
  intros Hall Hall' H H'.
  destruct (container_parts _ _ _ H) as (mu & body & Hbody & Hn & Hd & ->).
  destruct (container_parts _ _ _ H') as (mu' & body' & Hbody' & Hn' & Hd' & E).
  apply app_inj_1 in E as [_ E]; [| reflexivity].
  apply app_inj_1 in E as [_ E]; [| reflexivity].
  apply app_inj_1 in E as [En E]; [| reflexivity].
  apply app_inj_1 in E as [Ed E]; [| reflexivity].
  apply app_inj_1 in E as [_ E]; [| by rewrite !AotSpec.length_ljust32].
  subst body'.
  apply le32_inj in En; [| change (2 ^ 32)%N with (Z.to_N (2 ^ 32)); lia ..].
  apply le32_inj in Ed; [| change (2 ^ 32)%N with (Z.to_N (2 ^ 32)); lia ..].
  assert (Hlen : length embeddings = length embeddings') by lia.
  pose proof (AotSpec.read_records_layout D embeddings body [] Hall Hbody) as R.
  pose proof (AotSpec.read_records_layout D' embeddings' body [] Hall' Hbody') as R'.
  destruct embeddings as [| r rs], embeddings' as [| r' rs']; try discriminate; [reflexivity |].
  assert (D = D') as <-.
  { apply Forall_cons in Hall as [[HD _] _]. apply Forall_cons in Hall' as [[HD' _] _].
    destruct r as [? [? ?]], r' as [? [? ?]]. cbn [header_dimension fst snd] in *. lia. }
  rewrite <- Hlen in R'. congruence.
Qed.

Lemma encode_injective_witness :
  map (fun r => (fst r, fst (snd r))) [(lit "a", ([1%N; 2%N], 1))]
  = map (fun r => (fst r, fst (snd r))) [(lit "a", ([1%N; 2%N], 5))].
Proof.
  apply (encode_injective 2 2 [(lit "a", ([1%N; 2%N], 1))] [(lit "a", ([1%N; 2%N], 5))]
           (lit "m1") (lit "m1")
           [65; 79; 84; 0;  1; 0; 0; 0;  1; 0; 0; 0;  2; 0; 0; 0;
            109; 49; 0; 0; 0; 0; 0; 0; 0; 0; 0; 0; 0; 0; 0; 0;
            0; 0; 0; 0; 0; 0; 0; 0; 0; 0; 0; 0; 0; 0; 0; 0;
            1; 0; 0; 0;  97;  1; 0; 0; 0;  2; 0; 0; 0]%N).
  - repeat constructor.
  - repeat constructor.
  - vm_compute. reflexivity.
  - vm_compute. reflexivity.
Defined.

End AotMore.

(** ** Relational emitter *)

Module SqlMore.

Import Sql.

(** The literal written for a vector is [X'...'] with exactly eight
    upper-case hexadecimal digits per component, whatever the components
    are. *)
Theorem blob_to_hex_shape (embedding : list N) :
  exists digits : str,
    blob_to_hex (embedding_to_blob embedding) = lit "X'" ++ digits ++ lit "'" /\
    length digits = (8 * length embedding)%nat /\
    Forall (fun c => (48 <= c <= 57 \/ 65 <= c <= 70)%N) digits.
Proof.
  exists (hex_upper (embedding_to_blob embedding)). split; [reflexivity |].
  destruct (SqlSpec.blob_bytes embedding) as [Hlen Hbytes].
  destruct (SqlSpec.hex_upper_shape (embedding_to_blob embedding) Hbytes) as [Hl Hf].
  split; [| exact Hf]. rewrite Hl, Hlen. lia.
Qed.

End SqlMore.
